(** * InternLM process-group initializers and optimizer parameter groups

    A shallow embedding of
    - [internlm/core/context/process_group_initializer.py]: the eight
      [ProcessGroupInitializer] subclasses that carve the ranks
      [0 .. world_size-1] into process groups, and
    - [internlm/train/utils.py]: the splitting of optimizer parameter groups,
    together with the properties of the design document that concern them.

    Ranks, sizes and group handles are natural numbers: the sizes of a
    topology are counts and Python's [//] and [%] agree with [Nat.div] and
    [Nat.modulo] on them, except for a zero divisor, where Python raises
    [ZeroDivisionError]; that case is written out. *)

From Stdlib Require Import String.
From Stdlib Require Import List Arith PeanoNat Lia Bool Permutation.
Import ListNotations.

(* ================================================================== *)
(** * Python primitives used by the two source files *)
(* ================================================================== *)

Module Py.

(** The exceptions the modelled code can raise. *)
Inductive Exn : Set :=
| AssertionError
| ZeroDivisionError
| KeyError
| ValueError.

(** A computation that returns a value or raises. *)
Inductive result (A : Type) : Type :=
| Ok (a : A)
| Raise (e : Exn).
Arguments Ok {A} a.
Arguments Raise {A} e.

Definition bind {A B : Type} (m : result A) (k : A -> result B) : result B :=
  match m with
  | Ok a => k a
  | Raise e => Raise e
  end.

Declare Scope py_scope.
Delimit Scope py_scope with py.
Notation "x <- m ;; k" := (bind m (fun x => k))
  (at level 61, m at next level, right associativity) : py_scope.
Notation "m ;;; k" := (bind m (fun _ => k))
  (at level 61, right associativity) : py_scope.

(** [a // b] on non-negative integers. *)
Definition floordiv (a b : nat) : result nat :=
  if b =? 0 then Raise ZeroDivisionError else Ok (a / b).

(** [a % b] on non-negative integers. *)
Definition modulo (a b : nat) : result nat :=
  if b =? 0 then Raise ZeroDivisionError else Ok (a mod b).

(** [math.ceil(a / b)]: the true division of two integers below [2^53]
    is correctly rounded, and then its ceiling is the integer ceiling of the
    quotient. *)
Definition ceildiv (a b : nat) : result nat :=
  if b =? 0 then Raise ZeroDivisionError else Ok ((a + b - 1) / b).

(** [assert b]. *)
Definition assert (b : bool) : result unit :=
  if b then Ok tt else Raise AssertionError.

(** Number of elements of [range(start, stop, step)] for a positive step. *)
Definition range_len (start stop step : nat) : nat :=
  if step =? 0 then 0 else (stop - start + step - 1) / step.

(** [list(range(start, stop, step))].  A zero step raises [ValueError] in
    Python; at every call site below the step is positive whenever the call
    is reached (the loops around it are empty otherwise, or the constructor
    has raised already), and the model yields the empty list there. *)
Definition range3 (start stop step : nat) : list nat :=
  map (fun k => start + k * step) (seq 0 (range_len start stop step)).

(** [list(range(n))]. *)
Definition range (n : nat) : list nat := seq 0 n.

(** [l[i : j]] for non-negative [i], [j]. *)
Definition slice {A : Type} (l : list A) (i j : nat) : list A :=
  firstn (j - i) (skipn i l).

(** [l.index(x)]: position of the first occurrence, [None] where Python
    raises [ValueError]. *)
Fixpoint index (x : nat) (l : list nat) : option nat :=
  match l with
  | [] => None
  | y :: l' => if y =? x then Some 0 else option_map S (index x l')
  end.

(** [x in l]. *)
Definition contains (x : nat) (l : list nat) : bool :=
  existsb (Nat.eqb x) l.

(** One step of [zip]: put the elements of [l] in front of the rows already
    zipped, stopping at the shorter of the two. *)
Fixpoint zip_cons {A : Type} (l : list A) (rows : list (list A)) : list (list A) :=
  match l, rows with
  | x :: l', r :: rows' => (x :: r) :: zip_cons l' rows'
  | _, _ => []
  end.

(** The lists that [zip] yields when it is applied to the members of [ls]
    as separate arguments: the transpose of [ls], cut at its shortest
    member; [zip] of no list at all is empty. *)
Fixpoint zip_star {A : Type} (ls : list (list A)) : list (list A) :=
  match ls with
  | [] => []
  | [l] => map (fun x => [x]) l
  | l :: ls' => zip_cons l (zip_star ls')
  end.

End Py.

Import Py.
Local Open Scope py_scope.

(* ================================================================== *)
(** * The transport: [torch.distributed] as the initializers use it *)
(* ================================================================== *)

(** The initializers call [dist.new_group(ranks, backend=..., timeout=...)]
    and [dist.get_backend()] and nothing else.  The transport keeps the log
    of the [new_group] calls with their arguments; a group handle is the
    position of its creation in that log, so no two calls return the same
    handle, and the log tells from which rank list and for which backend a
    handle was made.  The timeout is the same constant [LLM_NCCL_TIMEOUT] in
    every call and is left out of the log. *)
Module Dist.

Definition Handle := nat.

(** The arguments of one [new_group] call; [call_backend] is [None] when
    the call names no backend, and the group is then made on the default
    one. *)
Record Call : Set := {
  call_ranks : list nat;
  call_backend : option string
}.

Record Transport : Set := {
  backend : string;        (* what [dist.get_backend()] answers *)
  created : list Call      (* the [new_group] calls so far *)
}.

(** A computation over the transport. *)
Definition M (A : Type) : Type := Transport -> A * Transport.

Definition ret {A : Type} (a : A) : M A := fun st => (a, st).

Definition bind {A B : Type} (m : M A) (k : A -> M B) : M B :=
  fun st => let (a, st') := m st in k a st'.

Declare Scope dist_scope.
Delimit Scope dist_scope with dist.
Notation "x <- m ;; k" := (bind m (fun x => k))
  (at level 61, m at next level, right associativity) : dist_scope.

(** [dist.get_backend()]. *)
Definition get_backend : M string := fun st => (backend st, st).

(** [dist.new_group(ranks, backend=b)]. *)
Definition new_group (ranks : list nat) (b : option string) : M Handle :=
  fun st =>
    (length (created st),
     {| backend := backend st;
        created := created st ++ [{| call_ranks := ranks; call_backend := b |}] |}).

(** A [for] loop whose body threads the loop-carried variables [s]. *)
Fixpoint for_each {A S : Type} (l : list A) (body : A -> S -> M S) (s : S) : M S :=
  match l with
  | [] => ret s
  | x :: l' => bind (body x s) (for_each l' body)
  end.

(** The calls that [st'] has logged after those of [st]. *)
Definition new_calls (st st' : Transport) : list Call :=
  skipn (length (created st)) (created st').

Definition is_primary (c : Call) : bool :=
  match call_backend c with
  | None => true
  | Some _ => false
  end.

(** The rank lists of the calls of a log that name no backend, in the order
    of the calls: the partitions for which a primary group was made. *)
Definition primary_partitions (log : list Call) : list (list nat) :=
  map call_ranks (filter is_primary log).

End Dist.

(* ================================================================== *)
(** * [internlm/core/context/process_group_initializer.py] *)
(* ================================================================== *)

Module PGI.

Import Dist.

Inductive ParallelMode : Set :=
| GLOBAL | DATA | MODEL | PIPELINE | TENSOR | ZERO1 | NETTEST
| EXPERT | EXPERT_DATA | DUMMY.

(** The attributes every initializer stores: the arguments of
    [ProcessGroupInitializer.__init__]. *)
Record ProcessGroupInitializer : Set := {
  rank : nat;
  world_size : nat;
  data_parallel_size : nat;
  pipeline_parallel_size : nat;
  tensor_parallel_size : nat;
  zero1_parallel_size : nat;
  nettest_parallel_size : nat;
  expert_parallel_size : nat
}.

(** The variables every [init_dist_group] carries through its loop; all of
    them start as [None]. *)
Record Locals : Set := {
  local_rank : option nat;
  ranks_in_group : option (list nat);
  process_group : option Handle;
  cpu_group : option Handle;
  group_world_size : option nat
}.

Definition no_locals : Locals :=
  {| local_rank := None; ranks_in_group := None; process_group := None;
     cpu_group := None; group_world_size := None |}.

(** The returned tuple
    [(local_rank, group_world_size, process_group, cpu_group, ranks_in_group, mode)]. *)
Definition Info : Set := (Locals * ParallelMode)%type.

(** The first half of every loop body: make the group, and its CPU
    companion when [use_cpu] is set.
<<
    group = dist.new_group(ranks, timeout=LLM_NCCL_TIMEOUT)
    if use_cpu:
        group_cpu = (dist.new_group(ranks, backend="gloo", timeout=LLM_NCCL_TIMEOUT)
                     if dist.get_backend() != "gloo" else group)
    else:
        group_cpu = None
>> *)
Definition make_groups (use_cpu : bool) (ranks : list nat)
  : M (Handle * option Handle) :=
  (group <- new_group ranks None ;;
   if use_cpu then
     b <- get_backend ;;
     if negb (String.eqb b "gloo") then
       group_cpu <- new_group ranks (Some "gloo"%string) ;;
       ret (group, Some group_cpu)
     else ret (group, Some group)
   else ret (group, None))%dist.

(** The assignments under [if self.rank in ranks:]. *)
Definition assign (ranks : list nat) (self_rank : nat)
  (g : Handle * option Handle) : Locals :=
  {| local_rank := index self_rank ranks;
     ranks_in_group := Some ranks;
     process_group := Some (fst g);
     cpu_group := snd g;
     group_world_size := Some (length ranks) |}.

(** The whole loop body of the initializers that return one tuple. *)
Definition visit (self_rank : nat) (use_cpu : bool) (ranks : list nat)
  (v : Locals) : M Locals :=
  (g <- make_groups use_cpu ranks ;;
   ret (if contains self_rank ranks then assign ranks self_rank g else v))%dist.

(** ** Initializer_Data *)
Module Initializer_Data.

Record t : Set := { base : ProcessGroupInitializer; rank_num_per_dp_group : nat }.

Definition __init__ (a : ProcessGroupInitializer) : result t :=
  (n <- floordiv (world_size a) (data_parallel_size a) ;;
   m <- modulo (world_size a) (data_parallel_size a) ;;
   assert (m =? 0) ;;;
   Ok {| base := a; rank_num_per_dp_group := n |})%py.

Definition init_dist_group (self : t) (use_cpu : bool) : M Info :=
  (v <- for_each (range (rank_num_per_dp_group self))
         (fun i v =>
            let ranks := map (fun j => i + j * rank_num_per_dp_group self)
                             (range (data_parallel_size (base self))) in
            visit (rank (base self)) use_cpu ranks v)
         no_locals ;;
   ret (v, DATA))%dist.

(** The value of [ranks] in each turn of the loop, in order. *)
Definition partitions (self : t) : list (list nat) :=
  map (fun i => map (fun j => i + j * rank_num_per_dp_group self)
                    (range (data_parallel_size (base self))))
      (range (rank_num_per_dp_group self)).

End Initializer_Data.

(** ** Initializer_Model *)
Module Initializer_Model.

Record t : Set := {
  base : ProcessGroupInitializer;
  rank_num_per_group : nat;
  num_group : nat
}.

Definition __init__ (a : ProcessGroupInitializer) : result t :=
  (let per := tensor_parallel_size a * pipeline_parallel_size a in
   n <- floordiv (world_size a) per ;;
   m <- modulo (world_size a) per ;;
   assert (m =? 0) ;;;
   Ok {| base := a; rank_num_per_group := per; num_group := n |})%py.

Definition init_dist_group (self : t) (use_cpu : bool) : M Info :=
  (v <- for_each (range (num_group self))
         (fun i v =>
            let ranks := map (fun j => i * rank_num_per_group self + j)
                             (range (rank_num_per_group self)) in
            visit (rank (base self)) use_cpu ranks v)
         no_locals ;;
   ret (v, MODEL))%dist.

Definition partitions (self : t) : list (list nat) :=
  map (fun i => map (fun j => i * rank_num_per_group self + j)
                    (range (rank_num_per_group self)))
      (range (num_group self)).

End Initializer_Model.

(** ** Initializer_Pipeline *)
Module Initializer_Pipeline.

Record t : Set := {
  base : ProcessGroupInitializer;
  rank_num_per_dp_group : nat;
  pipeline_stage_size : nat
}.

Definition __init__ (a : ProcessGroupInitializer) : result t :=
  (n <- floordiv (world_size a) (data_parallel_size a) ;;
   s <- floordiv n (pipeline_parallel_size a) ;;
   m <- modulo (world_size a) (data_parallel_size a) ;;
   assert (m =? 0) ;;;
   m' <- modulo n (pipeline_parallel_size a) ;;
   assert (m' =? 0) ;;;
   Ok {| base := a; rank_num_per_dp_group := n; pipeline_stage_size := s |})%py.

Definition init_dist_group (self : t) (use_cpu : bool) : M Info :=
  (v <- for_each (range (data_parallel_size (base self)))
         (fun i v =>
            for_each (range (pipeline_stage_size self))
              (fun j v =>
                 let ranks := range3 (i * rank_num_per_dp_group self + j)
                                     ((i + 1) * rank_num_per_dp_group self)
                                     (pipeline_stage_size self) in
                 visit (rank (base self)) use_cpu ranks v)
              v)
         no_locals ;;
   ret (v, PIPELINE))%dist.

Definition partitions (self : t) : list (list nat) :=
  flat_map (fun i =>
              map (fun j => range3 (i * rank_num_per_dp_group self + j)
                                   ((i + 1) * rank_num_per_dp_group self)
                                   (pipeline_stage_size self))
                  (range (pipeline_stage_size self)))
           (range (data_parallel_size (base self))).

End Initializer_Pipeline.

(** ** Initializer_Tensor *)
Module Initializer_Tensor.

Record t : Set := { base : ProcessGroupInitializer; num_tensor_parallel_group : nat }.

Definition __init__ (a : ProcessGroupInitializer) : result t :=
  (n <- floordiv (world_size a) (tensor_parallel_size a) ;;
   m <- modulo (world_size a) (tensor_parallel_size a) ;;
   assert (m =? 0) ;;;
   Ok {| base := a; num_tensor_parallel_group := n |})%py.

Definition init_dist_group (self : t) (use_cpu : bool) : M Info :=
  (v <- for_each (range (num_tensor_parallel_group self))
         (fun i v =>
            let ranks := map (fun j => i * tensor_parallel_size (base self) + j)
                             (range (tensor_parallel_size (base self))) in
            visit (rank (base self)) use_cpu ranks v)
         no_locals ;;
   ret (v, TENSOR))%dist.

Definition partitions (self : t) : list (list nat) :=
  map (fun i => map (fun j => i * tensor_parallel_size (base self) + j)
                    (range (tensor_parallel_size (base self))))
      (range (num_tensor_parallel_group self)).

End Initializer_Tensor.

(** ** Initializer_Zero1 *)
Module Initializer_Zero1.

Record t : Set := {
  base : ProcessGroupInitializer;
  rank_num_per_dp_group : nat;
  num_zero1_parallel_group : nat
}.

Definition __init__ (a : ProcessGroupInitializer) : result t :=
  (n <- floordiv (world_size a) (data_parallel_size a) ;;
   z <- floordiv (data_parallel_size a) (zero1_parallel_size a) ;;
   m <- modulo (world_size a) (data_parallel_size a) ;;
   assert (m =? 0) ;;;
   m' <- modulo (world_size a) (zero1_parallel_size a) ;;
   assert (m' =? 0) ;;;
   Ok {| base := a; rank_num_per_dp_group := n; num_zero1_parallel_group := z |})%py.

Definition init_dist_group (self : t) (use_cpu : bool) : M Info :=
  (v <- for_each (range (rank_num_per_dp_group self))
         (fun i v =>
            for_each (range (num_zero1_parallel_group self))
              (fun j v =>
                 let ranks :=
                   map (fun k => i + (j * zero1_parallel_size (base self) + k)
                                     * rank_num_per_dp_group self)
                       (range (zero1_parallel_size (base self))) in
                 visit (rank (base self)) use_cpu ranks v)
              v)
         no_locals ;;
   ret (v, ZERO1))%dist.

Definition partitions (self : t) : list (list nat) :=
  flat_map (fun i =>
              map (fun j =>
                     map (fun k => i + (j * zero1_parallel_size (base self) + k)
                                       * rank_num_per_dp_group self)
                         (range (zero1_parallel_size (base self))))
                  (range (num_zero1_parallel_group self)))
           (range (rank_num_per_dp_group self)).

End Initializer_Zero1.

(** ** Initializer_Nettest *)
Module Initializer_Nettest.

Record t : Set := { base : ProcessGroupInitializer; num_nettest_group : nat }.

Definition __init__ (a : ProcessGroupInitializer) : result t :=
  (n <- ceildiv (world_size a) (nettest_parallel_size a) ;;
   Ok {| base := a; num_nettest_group := n |})%py.

(** The inner loop that appends [i * nettest_parallel_size + j] while it is
    below [world_size]. *)
Definition group_ranks (self : t) (i : nat) : list nat :=
  fold_left (fun ranks j =>
               let rank := i * nettest_parallel_size (base self) + j in
               if rank <? world_size (base self) then ranks ++ [rank] else ranks)
            (range (nettest_parallel_size (base self))) [].

Definition init_dist_group (self : t) (use_cpu : bool) : M Info :=
  (v <- for_each (range (num_nettest_group self))
         (fun i v => visit (rank (base self)) use_cpu (group_ranks self i) v)
         no_locals ;;
   ret (v, NETTEST))%dist.

Definition partitions (self : t) : list (list nat) :=
  map (group_ranks self) (range (num_nettest_group self)).

End Initializer_Nettest.

(** ** Initializer_Expert *)
Module Initializer_Expert.

Record t : Set := { base : ProcessGroupInitializer; num_expert_parallel_group : nat }.

Definition __init__ (a : ProcessGroupInitializer) : result t :=
  (n <- floordiv (world_size a) (expert_parallel_size a) ;;
   m <- modulo (world_size a) n ;;
   assert (m =? 0) ;;;
   assert (data_parallel_size a =? expert_parallel_size a) ;;;
   Ok {| base := a; num_expert_parallel_group := n |})%py.

Definition init_dist_group (self : t) (use_cpu : bool) : M Info :=
  (v <- for_each (range (num_expert_parallel_group self))
         (fun i v =>
            let ranks := range3 i (world_size (base self))
                                (num_expert_parallel_group self) in
            visit (rank (base self)) use_cpu ranks v)
         no_locals ;;
   ret (v, EXPERT))%dist.

Definition partitions (self : t) : list (list nat) :=
  map (fun i => range3 i (world_size (base self)) (num_expert_parallel_group self))
      (range (num_expert_parallel_group self)).

End Initializer_Expert.

(** ** Initializer_Expert_Data *)
Module Initializer_Expert_Data.

Record t : Set := { base : ProcessGroupInitializer; num_expert_parallel_group : nat }.

Definition __init__ (a : ProcessGroupInitializer) : result t :=
  (n <- floordiv (world_size a) (expert_parallel_size a) ;;
   Ok {| base := a; num_expert_parallel_group := n |})%py.

Definition _get_expert_parallel_ranks (self : t)
  : list (list nat) * list (list nat) :=
  let model_parallel_size :=
    pipeline_parallel_size (base self) * tensor_parallel_size (base self) in
  let data_parallel_groups :=
    map (fun i => range3 i (world_size (base self)) model_parallel_size)
        (range model_parallel_size) in
  fold_left
    (fun (acc : list (list nat) * list (list nat)) dp_ranks =>
       let (expert_parallel_groups, expert_data_parallel_groups) := acc in
       let part_ep_group :=
         map (fun i => slice dp_ranks i (i + expert_parallel_size (base self)))
             (range3 0 (data_parallel_size (base self))
                     (expert_parallel_size (base self))) in
       (expert_parallel_groups ++ part_ep_group,
        expert_data_parallel_groups ++ zip_star part_ep_group))
    data_parallel_groups ([], []).

(** The body of either loop of [init_dist_group]: the tuple is appended to
    [groups] in the turn in which the rank is found. *)
Definition visit_append (self_rank : nat) (use_cpu : bool) (mode : ParallelMode)
  (ranks : list nat) (s : Locals * list Info) : M (Locals * list Info) :=
  (g <- make_groups use_cpu ranks ;;
   ret (if contains self_rank ranks
        then let v := assign ranks self_rank g in (v, snd s ++ [(v, mode)])
        else s))%dist.

Definition init_dist_group (self : t) (use_cpu : bool) : M (list Info) :=
  (let (expert_parallel_groups, expert_data_parallel_groups) :=
     _get_expert_parallel_ranks self in
   s <- for_each expert_parallel_groups
          (visit_append (rank (base self)) use_cpu EXPERT) (no_locals, []) ;;
   s' <- for_each expert_data_parallel_groups
           (visit_append (rank (base self)) use_cpu EXPERT_DATA) s ;;
   ret (snd s'))%dist.

End Initializer_Expert_Data.

(** ** The eight initializers as one family

    The source reaches the initializers through the abstract method
    [init_dist_group] of their common base class; here the subclasses are
    the cases of one type. *)

Inductive Axis : Set :=
| Data | Model | Pipeline | Tensor | Zero1 | Nettest | Expert | Expert_Data.

Inductive Initializer : Set :=
| OfData (o : Initializer_Data.t)
| OfModel (o : Initializer_Model.t)
| OfPipeline (o : Initializer_Pipeline.t)
| OfTensor (o : Initializer_Tensor.t)
| OfZero1 (o : Initializer_Zero1.t)
| OfNettest (o : Initializer_Nettest.t)
| OfExpert (o : Initializer_Expert.t)
| OfExpert_Data (o : Initializer_Expert_Data.t).

Definition fmap {A B : Type} (f : A -> B) (r : result A) : result B :=
  (a <- r ;; Ok (f a))%py.

(** Calling the class of axis [x] on the arguments [a]. *)
Definition construct (x : Axis) (a : ProcessGroupInitializer) : result Initializer :=
  match x with
  | Data => fmap OfData (Initializer_Data.__init__ a)
  | Model => fmap OfModel (Initializer_Model.__init__ a)
  | Pipeline => fmap OfPipeline (Initializer_Pipeline.__init__ a)
  | Tensor => fmap OfTensor (Initializer_Tensor.__init__ a)
  | Zero1 => fmap OfZero1 (Initializer_Zero1.__init__ a)
  | Nettest => fmap OfNettest (Initializer_Nettest.__init__ a)
  | Expert => fmap OfExpert (Initializer_Expert.__init__ a)
  | Expert_Data => fmap OfExpert_Data (Initializer_Expert_Data.__init__ a)
  end.

Definition args (o : Initializer) : ProcessGroupInitializer :=
  match o with
  | OfData o => Initializer_Data.base o
  | OfModel o => Initializer_Model.base o
  | OfPipeline o => Initializer_Pipeline.base o
  | OfTensor o => Initializer_Tensor.base o
  | OfZero1 o => Initializer_Zero1.base o
  | OfNettest o => Initializer_Nettest.base o
  | OfExpert o => Initializer_Expert.base o
  | OfExpert_Data o => Initializer_Expert_Data.base o
  end.

(** The partition families an initializer enumerates, each in the order of
    its loop: one family, except for the expert-data initializer, which has
    the expert-parallel and the expert-data-parallel one. *)
Definition families (o : Initializer) : list (list (list nat)) :=
  match o with
  | OfData o => [Initializer_Data.partitions o]
  | OfModel o => [Initializer_Model.partitions o]
  | OfPipeline o => [Initializer_Pipeline.partitions o]
  | OfTensor o => [Initializer_Tensor.partitions o]
  | OfZero1 o => [Initializer_Zero1.partitions o]
  | OfNettest o => [Initializer_Nettest.partitions o]
  | OfExpert o => [Initializer_Expert.partitions o]
  | OfExpert_Data o =>
      let (e, d) := Initializer_Expert_Data._get_expert_parallel_ranks o in [e; d]
  end.

(** [o.init_dist_group(use_cpu)]; a single tuple is given as a list of one. *)
Definition init_dist_group (o : Initializer) (use_cpu : bool) : M (list Info) :=
  let one (m : M Info) : M (list Info) := (i <- m ;; ret [i])%dist in
  match o with
  | OfData o => one (Initializer_Data.init_dist_group o use_cpu)
  | OfModel o => one (Initializer_Model.init_dist_group o use_cpu)
  | OfPipeline o => one (Initializer_Pipeline.init_dist_group o use_cpu)
  | OfTensor o => one (Initializer_Tensor.init_dist_group o use_cpu)
  | OfZero1 o => one (Initializer_Zero1.init_dist_group o use_cpu)
  | OfNettest o => one (Initializer_Nettest.init_dist_group o use_cpu)
  | OfExpert o => one (Initializer_Expert.init_dist_group o use_cpu)
  | OfExpert_Data o => Initializer_Expert_Data.init_dist_group o use_cpu
  end.

(** What a caller does with an axis: build the initializer, then run
    [init_dist_group] on it.  An exception of the constructor ends the run
    with the transport as it was. *)
Definition initialize (x : Axis) (a : ProcessGroupInitializer) (use_cpu : bool)
  : Transport -> result (list Info) * Transport :=
  fun st =>
    match construct x a with
    | Raise e => (Raise e, st)
    | Ok o => let (infos, st') := init_dist_group o use_cpu st in (Ok infos, st')
    end.

End PGI.

(* ================================================================== *)
(** * [internlm/train/utils.py] *)
(* ================================================================== *)

Module TrainUtils.

(** A dictionary with string keys in insertion order, as Python keeps it:
    assigning to a key that is present replaces its value in place, a new
    key goes to the end. *)
Fixpoint dict_set {V : Type} (k : string) (v : V) (d : list (string * V))
  : list (string * V) :=
  match d with
  | [] => [(k, v)]
  | (k', v') :: d' =>
      if String.eqb k' k then (k, v) :: d' else (k', v') :: dict_set k v d'
  end.

(** The value of an attribute of a parameter group other than its name and
    its parameters: the literal [True] of the flags, or a value [A] taken
    over from the input. *)
Inductive attr (A : Type) : Type :=
| PyTrue
| Given (a : A).
Arguments PyTrue {A}.
Arguments Given {A} a.

(** A parameter group: the dictionary's ["name"] (when it has one), its
    ["params"], and its other keys in order. *)
Record pgroup (param A : Type) : Type := {
  name : option string;
  params : list param;
  attrs : list (string * attr A)
}.
Arguments Build_pgroup {param A} name params attrs.
Arguments name {param A}.
Arguments params {param A}.
Arguments attrs {param A}.

(** The dictionaries of the parameter groups are objects that the function
    changes in place, so the argument holds references to them; [store]
    below gives the dictionary behind each reference. *)
Definition ref : Set := nat.

(** The argument of the function by its Python type. *)
Inductive param_groups_arg : Set :=
| OfTuple (l : list ref)
| OfDict (g : ref)
| OfList (l : list ref)
| OfOtherType.

(** What the module imports: the three classifiers of
    [internlm.model.utils], the test [param.dtype == torch.float32], the
    attribute [param.group_name], and from the global context
    [gpc.config.model.get("num_experts", 0)] and
    [gpc.expert_parallel_group_names]. *)
Record Imports (param : Type) : Type := {
  is_norm_param : param -> bool;
  is_gate_param : param -> bool;
  is_moe_param : param -> bool;
  is_float32 : param -> bool;
  group_name : param -> string;
  num_experts : nat;
  expert_parallel_group_names : list string
}.
Arguments is_norm_param {param} i p.
Arguments is_gate_param {param} i p.
Arguments is_moe_param {param} i p.
Arguments is_float32 {param} i p.
Arguments group_name {param} i p.
Arguments num_experts {param} i.
Arguments expert_parallel_group_names {param} i.

Section Split.

Context {param A : Type} (env : Imports param).

Let group : Type := pgroup param A.

Definition set_params (g : group) (ps : list param) : group :=
  {| name := name g; params := ps; attrs := attrs g |}.

Definition set_attr (k : string) (v : attr A) (g : group) : group :=
  {| name := name g; params := params g; attrs := dict_set k v (attrs g) |}.

(** [new_groups] as it stands before the loop over the input groups. *)
Definition initial_new_groups : list (string * group) :=
  let d0 := dict_set "fp32" {| name := Some "fp32"%string; params := []; attrs := [] |} [] in
  if 1 <? num_experts env then
    let d1 :=
      fold_left (fun d key =>
                   dict_set key {| name := Some key; params := [];
                                   attrs := [(key, PyTrue)] |} d)
                ["gate"%string; "norm"%string] d0 in
    fold_left (fun d key =>
                 dict_set key {| name := Some key; params := [];
                                 attrs := [("moe"%string, PyTrue)] |} d)
              (expert_parallel_group_names env) d1
  else d0.

(** Copying the attributes of [pg] to every new group: for every key of
    [pg] but ["name"] and ["params"], in order, every new group gets the
    value of [pg]. *)
Definition copy_attrs (pg : group) (new_groups : list (string * group))
  : list (string * group) :=
  fold_left (fun d (kv : string * attr A) =>
               map (fun e : string * group =>
                      (fst e, set_attr (fst kv) (snd kv) (snd e))) d)
            (attrs pg) new_groups.

(** [new_groups[k]["params"].append(p)]; [KeyError] without the key. *)
Fixpoint append_param (k : string) (p : param) (d : list (string * group))
  : result (list (string * group)) :=
  match d with
  | [] => Raise KeyError
  | (k', g) :: d' =>
      if String.eqb k' k then Ok ((k', set_params g (params g ++ [p])) :: d')
      else (d'' <- append_param k p d' ;; Ok ((k', g) :: d''))%py
  end.

(** One turn of the loop over [pgroup["params"]]. *)
Definition place (p : param) (s : list param * list (string * group))
  : result (list param * list (string * group)) :=
  let (origin_params, new_groups) := s in
  if (1 <? num_experts env) && is_norm_param env p then
    (d <- append_param "norm" p new_groups ;; Ok (origin_params, d))%py
  else if is_gate_param env p then
    (d <- append_param "gate" p new_groups ;; Ok (origin_params, d))%py
  else if is_float32 env p then
    (d <- append_param "fp32" p new_groups ;; Ok (origin_params, d))%py
  else if is_moe_param env p then
    (d <- append_param (group_name env p) p new_groups ;; Ok (origin_params, d))%py
  else Ok (origin_params ++ [p], new_groups).

(** A [for] loop in which every turn may raise. *)
Fixpoint for_each {X S : Type} (l : list X) (body : X -> S -> result S) (s : S)
  : result S :=
  match l with
  | [] => Ok s
  | x :: l' => (s' <- body x s ;; for_each l' body s')%py
  end.

(** The dictionary behind every reference. *)
Definition store : Type := ref -> group.

(** [h[r] = g]. *)
Definition store_set (h : store) (r : ref) (g : group) : store :=
  fun r' => if r' =? r then g else h r'.

(** One turn of the loop over the input groups; the state is the store and
    [new_groups].  The turn reads the dictionary as it is by then and ends
    with [pgroup["params"] = origin_params]. *)
Definition split_group (pgroup : ref) (s : store * list (string * group))
  : result (store * list (string * group)) :=
  let (h, new_groups) := s in
  let new_groups := copy_attrs (h pgroup) new_groups in
  (r <- for_each (params (h pgroup)) place ([], new_groups) ;;
   Ok (store_set h pgroup (set_params (h pgroup) (fst r)), snd r))%py.

(** Python's truth value of a list. *)
Definition truthy {X : Type} (l : list X) : bool :=
  match l with [] => false | _ => true end.

(** The function on the store [h]; the result is the returned tuple, each
    dictionary of it as it is when the function returns. *)
Definition split_params_into_different_groups_for_optimizer
  (h : store) (param_groups : param_groups_arg) : result (list group) :=
  (param_groups <- match param_groups with
                   | OfTuple l => Ok l
                   | OfDict g => Ok [g]
                   | OfList l => Ok l
                   | OfOtherType => Raise ValueError
                   end ;;
   r <- for_each param_groups split_group (h, initial_new_groups) ;;
   Ok (map (fst r) param_groups
       ++ filter (fun g => truthy (params g)) (map snd (snd r))))%py.

(** [create_param_groups(model, weight_decay)], from the list of
    [model.parameters()]: the dictionary it builds is the one object of the
    store. *)
Definition create_param_groups (model_parameters : list param) (weight_decay : A)
  : result (list group) :=
  split_params_into_different_groups_for_optimizer
    (fun _ => {| name := Some "default"%string;
                 params := model_parameters;
                 attrs := [("weight_decay"%string, Given weight_decay)] |})
    (OfDict 0).

(** ** The same pass on groups held by value

    When no dictionary occurs twice in the argument, a turn of the loop
    never sees the effect of another one, and the pass can be followed on
    the list of the dictionaries themselves. *)

Definition split_group_value (pg : group) (s : list group * list (string * group))
  : result (list group * list (string * group)) :=
  let (done, new_groups) := s in
  let new_groups := copy_attrs pg new_groups in
  (r <- for_each (params pg) place ([], new_groups) ;;
   Ok (done ++ [set_params pg (fst r)], snd r))%py.

Definition split_values (gs : list group) : result (list group) :=
  (r <- for_each gs split_group_value ([], initial_new_groups) ;;
   Ok (fst r ++ filter (fun g => truthy (params g)) (map snd (snd r))))%py.

(** ** The vocabulary of the properties of the splitting *)

(** The references of an argument of an accepted type. *)
Definition input_groups (arg : param_groups_arg) : option (list ref) :=
  match arg with
  | OfTuple l => Some l
  | OfDict g => Some [g]
  | OfList l => Some l
  | OfOtherType => None
  end.

(** All parameters of a list of groups, group after group. *)
Definition all_params (gs : list group) : list param :=
  flat_map params gs.

(** The key of the new group that the cascade of tests sends [p] to, or
    [None] when [p] stays in its original group. *)
Definition destination (p : param) : option string :=
  if (1 <? num_experts env) && is_norm_param env p then Some "norm"%string
  else if is_gate_param env p then Some "gate"%string
  else if is_float32 env p then Some "fp32"%string
  else if is_moe_param env p then Some (group_name env p)
  else None.

Definition stays (p : param) : bool :=
  match destination p with
  | None => true
  | Some _ => false
  end.

(** An original group after the pass: its parameters without those that
    went to a new group. *)
Definition prune (g : group) : group :=
  set_params g (filter stays (params g)).

Definition has_key {V : Type} (k : string) (d : list (string * V)) : bool :=
  existsb (String.eqb k) (map fst d).

(** No parameter asks for a new group that does not exist. *)
Definition lookups_succeed (ps : list param) : bool :=
  forallb (fun p => match destination p with
                    | Some k => has_key k initial_new_groups
                    | None => true
                    end) ps.

(** All parameters in the new groups, and the new groups each named by its
    key and holding only parameters that were sent to that key. *)
Definition new_params (d : list (string * group)) : list param :=
  all_params (map snd d).

Definition sorted_by_destination (d : list (string * group)) : Prop :=
  Forall (fun e : string * group =>
            name (snd e) = Some (fst e)
            /\ Forall (fun p => destination p = Some (fst e)) (params (snd e)))
         d.

End Split.

End TrainUtils.

(* ================================================================== *)
(** * The vocabulary of the properties *)
(* ================================================================== *)

Module Spec.

Import Dist PGI.

(** The partitions [parts] of one family carve up the ranks below [ws]:
    every such rank lies in exactly one partition (counted by position in
    the enumeration), no partition holds anything else, and no partition
    holds a rank twice. *)
Definition exact_cover (ws : nat) (parts : list (list nat)) : Prop :=
  (forall r, r < ws ->
     exists! i, exists p, nth_error parts i = Some p /\ In r p)
  /\ (forall p r, In p parts -> In r p -> r < ws)
  /\ (forall p, In p parts -> NoDup p).

(** All sizes of a topology are positive. *)
Definition positive_sizes (a : ProcessGroupInitializer) : Prop :=
  0 < world_size a /\ 0 < data_parallel_size a
  /\ 0 < pipeline_parallel_size a /\ 0 < tensor_parallel_size a
  /\ 0 < zero1_parallel_size a /\ 0 < nettest_parallel_size a
  /\ 0 < expert_parallel_size a.

(** The conditions under the [assert]s of the constructor of each axis. *)
Definition asserts_hold (x : Axis) (a : ProcessGroupInitializer) : bool :=
  match x with
  | Data => world_size a mod data_parallel_size a =? 0
  | Model =>
      world_size a mod (tensor_parallel_size a * pipeline_parallel_size a) =? 0
  | Pipeline =>
      (world_size a mod data_parallel_size a =? 0)
      && ((world_size a / data_parallel_size a) mod pipeline_parallel_size a =? 0)
  | Tensor => world_size a mod tensor_parallel_size a =? 0
  | Zero1 =>
      (world_size a mod data_parallel_size a =? 0)
      && (world_size a mod zero1_parallel_size a =? 0)
  | Nettest => true
  | Expert =>
      (world_size a mod (world_size a / expert_parallel_size a) =? 0)
      && (data_parallel_size a =? expert_parallel_size a)
  | Expert_Data => true
  end.

(** [k] is the position of the first occurrence of [r] in [rs]. *)
Definition first_index (r : nat) (rs : list nat) (k : nat) : Prop :=
  nth_error rs k = Some r /\ forall j, j < k -> nth_error rs j <> Some r.

(** The loop variables [v] describe the membership of rank [r] in the
    partition [rs]. *)
Definition describes (r : nat) (rs : list nat) (v : Locals) : Prop :=
  ranks_in_group v = Some rs
  /\ (exists k, local_rank v = Some k /\ first_index r rs k)
  /\ group_world_size v = Some (length rs).

(** The CPU companion of the kept group is as [use_cpu] and the backend
    demand: absent without [use_cpu]; the primary handle itself on gloo; on
    any other backend a second handle, made for the same ranks with
    [backend="gloo"]. *)
Definition fallback_as_requested (use_cpu : bool) (st' : Transport) (v : Locals)
  : Prop :=
  forall h rs, process_group v = Some h -> ranks_in_group v = Some rs ->
    nth_error (created st') h = Some {| call_ranks := rs; call_backend := None |}
    /\ (use_cpu = false -> cpu_group v = None)
    /\ (use_cpu = true -> backend st' = "gloo"%string -> cpu_group v = Some h)
    /\ (use_cpu = true -> backend st' <> "gloo"%string ->
        exists h', cpu_group v = Some h' /\ h' <> h
          /\ nth_error (created st') h'
             = Some {| call_ranks := rs; call_backend := Some "gloo"%string |}).

(** The axis resolver of the design: from the topology to the ordered
    partition families of an axis, or the exception of the constructor. *)
Definition resolve (x : Axis) (a : ProcessGroupInitializer)
  : result (list (list (list nat))) :=
  fmap families (construct x a).

(** The [new_group] calls one turn of a loop issues for the partition
    [ranks] when the default backend is [b]. *)
Definition calls_for (use_cpu : bool) (b : string) (ranks : list nat) : list Call :=
  {| call_ranks := ranks; call_backend := None |}
  :: (if use_cpu && negb (String.eqb b "gloo")
      then [{| call_ranks := ranks; call_backend := Some "gloo"%string |}]
      else []).

(** The handles one turn of a loop obtains when the log holds [n] calls. *)
Definition handles_for (use_cpu : bool) (b : string) (n : nat)
  : Handle * option Handle :=
  (n, if use_cpu
      then (if negb (String.eqb b "gloo") then Some (S n) else Some n)
      else None).

(** The loop variables [v] hold a group of the family [parts] of which
    the rank [r] is a member, with its handles as they should be. *)
Definition kept (parts : list (list nat)) (r : nat) (use_cpu : bool)
  (st : Transport) (v : Locals) : Prop :=
  exists rs, In rs parts /\ In r rs /\ describes r rs v
    /\ (exists h, process_group v = Some h)
    /\ fallback_as_requested use_cpu st v.

End Spec.

(* ================================================================== *)
(** * Further vocabulary *)
(* ================================================================== *)

Module Vocabulary.

Import Dist PGI.

(** The ranks that the loops of the Zero1 initializer reach: in each of the
    [world_size // data_parallel_size] slots, [data_parallel_size //
    zero1_parallel_size] groups of [zero1_parallel_size] ranks. *)
Definition zero1_reach (a : ProcessGroupInitializer) : nat :=
  world_size a / data_parallel_size a
  * (zero1_parallel_size a * (data_parallel_size a / zero1_parallel_size a)).

(** How many [new_group] calls one partition costs. *)
Definition calls_per_partition (use_cpu : bool) (b : string) : nat :=
  if use_cpu && negb (String.eqb b "gloo") then 2 else 1.

(** The numbers that the constructor of each axis divides by, in the order
    it evaluates the divisions: the right operands of its [//], [%] and
    [/]. *)
Definition divisors (x : Axis) (a : ProcessGroupInitializer) : list nat :=
  match x with
  | Data => [data_parallel_size a]
  | Model => [tensor_parallel_size a * pipeline_parallel_size a]
  | Pipeline => [data_parallel_size a; pipeline_parallel_size a]
  | Tensor => [tensor_parallel_size a]
  | Zero1 => [data_parallel_size a; zero1_parallel_size a]
  | Nettest => [nettest_parallel_size a]
  | Expert => [expert_parallel_size a; world_size a / expert_parallel_size a]
  | Expert_Data => [expert_parallel_size a]
  end.

(** The rank lists that a run of axis [x] on the arguments [a] hands to
    [new_group] for its primary groups, in the order of the calls: what the
    loops of [init_dist_group] make, and nothing when the constructor
    raises. *)
Definition partitions_made (x : Axis) (a : ProcessGroupInitializer)
  (use_cpu : bool) (st : Transport) : list (list nat) :=
  primary_partitions (new_calls st (snd (initialize x a use_cpu st))).

(** The rank lists of the calls of a log that ask for the gloo backend, in
    the order of the calls. *)
Definition gloo_partitions (log : list Call) : list (list nat) :=
  map call_ranks
      (filter (fun c => match call_backend c with
                        | Some b => String.eqb b "gloo"
                        | None => false
                        end) log).

End Vocabulary.

Module SplitVocabulary.

Import TrainUtils.

(** [d.get(k)]. *)
Fixpoint dict_get {V : Type} (k : string) (d : list (string * V)) : option V :=
  match d with
  | [] => None
  | (k', v) :: d' => if String.eqb k' k then Some v else dict_get k d'
  end.

(** Assigning the items [kvs] to a dictionary, one after the other. *)
Definition set_all {V : Type} (kvs : list (string * V)) (d : list (string * V))
  : list (string * V) :=
  fold_left (fun d kv => dict_set (fst kv) (snd kv) d) kvs d.

Section Closed.

Context {param A : Type} (env : Imports param).

(** The cascade of tests sends [p] to the new group of key [k]. *)
Definition sent_to (k : string) (p : param) : bool :=
  match destination env p with
  | Some k' => String.eqb k' k
  | None => false
  end.

(** The new group of an entry [(key, group)] of [new_groups] at the end of
    the pass over the groups [gs]: named by its key, it holds the
    parameters sent to the key, in the order of the input, and the
    attributes of the input groups assigned over its own. *)
Definition filled (gs : list (pgroup param A)) (e : string * pgroup param A)
  : pgroup param A :=
  {| name := Some (fst e);
     params := filter (sent_to (fst e)) (all_params gs);
     attrs := set_all (flat_map attrs gs) (attrs (snd e)) |}.

(** The returned tuple, without the loops. *)
Definition split_closed_form (gs : list (pgroup param A)) : list (pgroup param A) :=
  map (prune env) gs
  ++ filter (fun g => truthy (params g))
            (map (filled gs) (initial_new_groups env)).

End Closed.

(** The references of [refs] that are not in [seen], each at its first
    occurrence. *)
Fixpoint first_occurrences (seen refs : list ref) : list ref :=
  match refs with
  | [] => []
  | r :: l =>
      if existsb (Nat.eqb r) seen then first_occurrences seen l
      else r :: first_occurrences (r :: seen) l
  end.

Section Shared.

Context {param A : Type} (env : Imports param).

(** The returned tuple, without the loops, for references among which a
    dictionary may occur more than once: every position shows the pruned
    dictionary; the new groups take the parameters of each dictionary once,
    at its first occurrence, and the attributes at every occurrence. *)
Definition split_closed_form_refs (h : ref -> pgroup param A) (refs : list ref)
  : list (pgroup param A) :=
  map (fun r => prune env (h r)) refs
  ++ filter (fun g => truthy (params g))
            (map (fun e : string * pgroup param A =>
                    {| name := Some (fst e);
                       params := filter (sent_to env (fst e))
                                   (all_params (map h (first_occurrences [] refs)));
                       attrs := set_all (flat_map attrs (map h refs))
                                        (attrs (snd e)) |})
                 (initial_new_groups env)).

End Shared.

End SplitVocabulary.

(* ================================================================== *)
(** * Facts about the Python primitives *)
(* ================================================================== *)

Import Dist PGI Spec.

Module PyFacts.

Example range3_stride : range3 1 8 2 = [1; 3; 5; 7].
Proof. reflexivity. Qed.

Example range3_empty : range3 9 8 2 = [].
Proof. reflexivity. Qed.

Example slice_past_end : slice [0; 2; 4; 6] 2 6 = [4; 6].
Proof. reflexivity. Qed.

Example zip_star_transposes : zip_star [[0; 2]; [4; 6]] = [[0; 4]; [2; 6]].
Proof. reflexivity. Qed.

Example zip_star_truncates : zip_star [[0; 2; 4]; [6; 8]] = [[0; 6]; [2; 8]].
Proof. reflexivity. Qed.

Lemma range_len_exact (i n m : nat) :
  0 < n -> i < n -> range_len i (n * m) n = m.
Proof.
  intros Hn Hi. unfold range_len.
  destruct (Nat.eqb_spec n 0) as [->|_]; [lia|].
  destruct m as [|m].
  - rewrite Nat.mul_0_r. apply Nat.div_small. lia.
  - symmetry. apply Nat.div_unique with (r := n - 1 - i); nia.
Qed.

Lemma range3_length (a b s : nat) :
  length (range3 a b s) = range_len a b s.
Proof. unfold range3. now rewrite length_map, length_seq. Qed.

Lemma in_range3 (a b s r : nat) :
  In r (range3 a b s) <-> exists k, r = a + k * s /\ k < range_len a b s.
Proof.
  unfold range3. rewrite in_map_iff. split.
  - intros (k & <- & Hk). apply in_seq in Hk. exists k. split; [easy|lia].
  - intros (k & -> & Hk). exists k. split; [easy|]. apply in_seq. lia.
Qed.

Lemma range_len_lt (a b s k : nat) :
  0 < s -> a + k * s < b -> k < range_len a b s.
Proof.
  intros Hs Hk. unfold range_len.
  destruct (Nat.eqb_spec s 0) as [->|_]; [lia|].
  apply Nat.div_le_lower_bound; lia.
Qed.

Lemma range_len_bound (a b s k : nat) :
  k < range_len a b s -> a + k * s < b.
Proof.
  unfold range_len. destruct (Nat.eqb_spec s 0) as [->|Hs]; [lia|].
  intros Hk.
  assert (H : S k * s <= b - a + s - 1).
  { etransitivity; [apply Nat.mul_le_mono_r; exact Hk|].
    rewrite Nat.mul_comm. apply Nat.Div0.mul_div_le. }
  simpl in H. lia.
Qed.

Lemma contains_In (x : nat) (l : list nat) : contains x l = true <-> In x l.
Proof.
  unfold contains. rewrite existsb_exists. split.
  - intros (y & Hy & E). apply Nat.eqb_eq in E. now subst.
  - intros H. exists x. split; [easy|apply Nat.eqb_refl].
Qed.

Lemma index_first (x : nat) (l : list nat) :
  In x l -> exists k, index x l = Some k /\ first_index x l k.
Proof.
  induction l as [|y l IH]; [easy|]. intros H. simpl.
  destruct (Nat.eqb_spec y x) as [->|Hne].
  - exists 0. repeat split. intros j Hj. lia.
  - destruct H as [H|H]; [congruence|].
    destruct (IH H) as (k & -> & Hk & Hfirst). exists (S k).
    repeat split; [exact Hk|]. intros [|j] Hj; simpl.
    + congruence.
    + apply Hfirst. lia.
Qed.

End PyFacts.

(* ================================================================== *)
(** * Counting arguments for partition families *)
(* ================================================================== *)

Module CoverFacts.

Import PyFacts.

Lemma NoDup_concat_member {A : Type} (ls : list (list A)) (p : list A) :
  NoDup (concat ls) -> In p ls -> NoDup p.
Proof.
  induction ls as [|q ls IH]; simpl; [easy|].
  intros H [->|Hin].
  - eapply NoDup_app_remove_r; eauto.
  - apply IH; [eapply NoDup_app_remove_l; eauto|exact Hin].
Qed.

Lemma NoDup_app_disjoint {A : Type} (l1 l2 : list A) (x : A) :
  NoDup (l1 ++ l2) -> In x l1 -> In x l2 -> False.
Proof.
  induction l1 as [|y l1 IH]; simpl; [easy|].
  intros H [->|H1] H2.
  - inversion H as [|? ? Hnot _]; subst. apply Hnot, in_or_app. now right.
  - inversion H; subst. eauto.
Qed.

Lemma NoDup_concat_position {A : Type} (ls : list (list A))
  (i j : nat) (p q : list A) (x : A) :
  NoDup (concat ls) ->
  nth_error ls i = Some p -> nth_error ls j = Some q ->
  In x p -> In x q -> i = j.
Proof.
  revert i j. induction ls as [|l ls IH]; intros i j H Hi Hj Hp Hq.
  - now destruct i.
  - simpl in H. destruct i as [|i], j as [|j]; simpl in Hi, Hj.
    + reflexivity.
    + injection Hi as ->. exfalso.
      apply (NoDup_app_disjoint _ _ x H Hp).
      apply in_concat. exists q. split; [eapply nth_error_In; eauto|easy].
    + injection Hj as ->. exfalso.
      apply (NoDup_app_disjoint _ _ x H Hq).
      apply in_concat. exists p. split; [eapply nth_error_In; eauto|easy].
    + f_equal. apply IH; auto. eapply NoDup_app_remove_l; eauto.
Qed.

(** A family whose concatenation is a rearrangement of [0 .. ws-1] carves
    up the ranks. *)
Lemma permutation_exact_cover (ws : nat) (parts : list (list nat)) :
  Permutation (concat parts) (seq 0 ws) -> exact_cover ws parts.
Proof.
  intros HP.
  assert (HN : NoDup (concat parts)).
  { eapply Permutation_NoDup; [apply Permutation_sym; exact HP|apply seq_NoDup]. }
  repeat split.
  - intros r Hr.
    assert (Hin : In r (concat parts)).
    { eapply Permutation_in; [apply Permutation_sym; exact HP|]. apply in_seq. lia. }
    apply in_concat in Hin. destruct Hin as (p & Hp & Hrp).
    destruct (In_nth_error _ _ Hp) as (i & Hi).
    exists i. split.
    + now exists p.
    + intros j (q & Hj & Hrq). eapply NoDup_concat_position; eauto.
  - intros p r Hp Hr.
    assert (Hin : In r (seq 0 ws)).
    { eapply Permutation_in; [exact HP|]. apply in_concat. eauto. }
    apply in_seq in Hin. lia.
  - intros p Hp. eapply NoDup_concat_member; eauto.
Qed.

(** No more ranks than [ws] in all, and every rank below [ws] somewhere:
    then nothing is there twice. *)
Lemma cover_by_counting (ws : nat) (parts : list (list nat)) :
  length (concat parts) <= ws ->
  (forall r, r < ws -> exists p, In p parts /\ In r p) ->
  Permutation (concat parts) (seq 0 ws).
Proof.
  intros Hlen Hsurj. apply Permutation_sym, NoDup_Permutation_bis.
  - apply seq_NoDup.
  - now rewrite length_seq.
  - intros r Hr. apply in_seq in Hr. apply in_concat.
    destruct (Hsurj r) as (p & Hp & Hrp); [lia|]. eauto.
Qed.

Lemma length_concat_const {A : Type} (c : nat) (ls : list (list A)) :
  (forall p, In p ls -> length p = c) ->
  length (concat ls) = length ls * c.
Proof.
  induction ls as [|l ls IH]; simpl; intros H; [reflexivity|].
  rewrite length_app, IH, (H l); auto.
Qed.

Lemma length_flat_map_const {A B : Type} (c : nat) (f : A -> list B) (l : list A) :
  (forall x, In x l -> length (f x) = c) ->
  length (flat_map f l) = length l * c.
Proof.
  induction l as [|x l IH]; simpl; intros H; [reflexivity|].
  rewrite length_app, IH, (H x); auto.
Qed.

(** The form in which the counting argument is used: [n] partitions of [c]
    ranks each, [n * c = ws], every rank below [ws] in one of them. *)
Lemma uniform_cover (ws n c : nat) (parts : list (list nat)) :
  length parts = n ->
  (forall p, In p parts -> length p = c) ->
  n * c = ws ->
  (forall r, r < ws -> exists p, In p parts /\ In r p) ->
  Permutation (concat parts) (seq 0 ws).
Proof.
  intros Hn Hc Hws Hsurj. apply cover_by_counting; [|exact Hsurj].
  rewrite (length_concat_const c); [|exact Hc]. rewrite Hn. lia.
Qed.

(** Ranks [i, i+n, i+2n, ...] below [n * m], for [i] below [n]. *)
Lemma strided_cover (n m : nat) :
  Permutation (concat (map (fun i => range3 i (n * m) n) (range n)))
              (seq 0 (n * m)).
Proof.
  unfold range. apply uniform_cover with (n := n) (c := m).
  - now rewrite length_map, length_seq.
  - intros p Hp. apply in_map_iff in Hp. destruct Hp as (i & <- & Hi).
    apply in_seq in Hi. rewrite range3_length. apply range_len_exact; lia.
  - reflexivity.
  - intros r Hr. assert (Hn : n <> 0) by (intros ->; simpl in Hr; lia).
    exists (range3 (r mod n) (n * m) n). split.
    + apply in_map_iff. exists (r mod n). split; [reflexivity|].
      apply in_seq. pose proof (Nat.mod_upper_bound r n Hn). lia.
    + apply in_range3. exists (r / n). split.
      * pose proof (Nat.div_mod_eq r n). lia.
      * apply range_len_lt; [lia|]. pose proof (Nat.div_mod_eq r n). lia.
Qed.

Lemma map_add_seq (a s b : nat) :
  map (fun j => a + j) (seq s b) = seq (a + s) b.
Proof.
  revert s. induction b as [|b IH]; intros s; [reflexivity|].
  simpl. f_equal. rewrite IH. f_equal. lia.
Qed.

(** Consecutive blocks of [b] ranks. *)
Lemma blocks_concat (b n : nat) :
  concat (map (fun i => map (fun j => i * b + j) (range b)) (range n))
  = seq 0 (n * b).
Proof.
  unfold range. induction n as [|n IH]; [reflexivity|].
  rewrite seq_S, map_app, concat_app, IH. simpl. rewrite app_nil_r.
  replace (b + n * b) with (n * b + b) by lia. rewrite seq_app. f_equal.
  rewrite map_add_seq. f_equal. lia.
Qed.

End CoverFacts.

(* ================================================================== *)
(** * What a constructor that returns has checked *)
(* ================================================================== *)

Module InitFacts.

Ltac run_init H :=
  unfold floordiv, modulo, ceildiv, assert in H;
  repeat match type of H with
    | context [Nat.eqb ?x ?y] => destruct (Nat.eqb_spec x y); simpl in H
    end;
  try discriminate H; try (injection H as <-); simpl.

Lemma Data_ok [a o] :
  Initializer_Data.__init__ a = Ok o ->
  Initializer_Data.base o = a
  /\ Initializer_Data.rank_num_per_dp_group o = world_size a / data_parallel_size a
  /\ data_parallel_size a <> 0
  /\ world_size a mod data_parallel_size a = 0.
Proof. unfold Initializer_Data.__init__. intros H. run_init H. auto. Qed.

Lemma Model_ok [a o] :
  Initializer_Model.__init__ a = Ok o ->
  Initializer_Model.base o = a
  /\ Initializer_Model.rank_num_per_group o
     = tensor_parallel_size a * pipeline_parallel_size a
  /\ Initializer_Model.num_group o
     = world_size a / (tensor_parallel_size a * pipeline_parallel_size a)
  /\ tensor_parallel_size a * pipeline_parallel_size a <> 0
  /\ world_size a mod (tensor_parallel_size a * pipeline_parallel_size a) = 0.
Proof. unfold Initializer_Model.__init__. intros H. run_init H. auto. Qed.

Lemma Pipeline_ok [a o] :
  Initializer_Pipeline.__init__ a = Ok o ->
  Initializer_Pipeline.base o = a
  /\ Initializer_Pipeline.rank_num_per_dp_group o
     = world_size a / data_parallel_size a
  /\ Initializer_Pipeline.pipeline_stage_size o
     = world_size a / data_parallel_size a / pipeline_parallel_size a
  /\ data_parallel_size a <> 0 /\ pipeline_parallel_size a <> 0
  /\ world_size a mod data_parallel_size a = 0
  /\ (world_size a / data_parallel_size a) mod pipeline_parallel_size a = 0.
Proof. unfold Initializer_Pipeline.__init__. intros H. run_init H. auto 10. Qed.

Lemma Tensor_ok [a o] :
  Initializer_Tensor.__init__ a = Ok o ->
  Initializer_Tensor.base o = a
  /\ Initializer_Tensor.num_tensor_parallel_group o
     = world_size a / tensor_parallel_size a
  /\ tensor_parallel_size a <> 0
  /\ world_size a mod tensor_parallel_size a = 0.
Proof. unfold Initializer_Tensor.__init__. intros H. run_init H. auto. Qed.

Lemma Zero1_ok [a o] :
  Initializer_Zero1.__init__ a = Ok o ->
  Initializer_Zero1.base o = a
  /\ Initializer_Zero1.rank_num_per_dp_group o
     = world_size a / data_parallel_size a
  /\ Initializer_Zero1.num_zero1_parallel_group o
     = data_parallel_size a / zero1_parallel_size a
  /\ data_parallel_size a <> 0 /\ zero1_parallel_size a <> 0
  /\ world_size a mod data_parallel_size a = 0
  /\ world_size a mod zero1_parallel_size a = 0.
Proof. unfold Initializer_Zero1.__init__. intros H. run_init H. auto 10. Qed.

Lemma Nettest_ok [a o] :
  Initializer_Nettest.__init__ a = Ok o ->
  Initializer_Nettest.base o = a
  /\ Initializer_Nettest.num_nettest_group o
     = (world_size a + nettest_parallel_size a - 1) / nettest_parallel_size a
  /\ nettest_parallel_size a <> 0.
Proof. unfold Initializer_Nettest.__init__. intros H. run_init H. auto. Qed.

Lemma Expert_ok [a o] :
  Initializer_Expert.__init__ a = Ok o ->
  Initializer_Expert.base o = a
  /\ Initializer_Expert.num_expert_parallel_group o
     = world_size a / expert_parallel_size a
  /\ expert_parallel_size a <> 0
  /\ world_size a / expert_parallel_size a <> 0
  /\ world_size a mod (world_size a / expert_parallel_size a) = 0
  /\ data_parallel_size a = expert_parallel_size a.
Proof. unfold Initializer_Expert.__init__. intros H. run_init H. auto 10. Qed.

Lemma Expert_Data_ok [a o] :
  Initializer_Expert_Data.__init__ a = Ok o ->
  Initializer_Expert_Data.base o = a
  /\ Initializer_Expert_Data.num_expert_parallel_group o
     = world_size a / expert_parallel_size a
  /\ expert_parallel_size a <> 0.
Proof. unfold Initializer_Expert_Data.__init__. intros H. run_init H. auto. Qed.

End InitFacts.

(* ================================================================== *)
(** * Every family of a well-formed topology carves up the ranks *)
(* ================================================================== *)

Module PartitionFacts.

Import PyFacts CoverFacts InitFacts.

Lemma exact_division (a b : nat) : a mod b = 0 -> a = b * (a / b).
Proof. intros H. pose proof (Nat.div_mod_eq a b). lia. Qed.

Lemma Data_cover a o :
  Initializer_Data.__init__ a = Ok o ->
  Permutation (concat (Initializer_Data.partitions o)) (seq 0 (world_size a)).
Proof.
  intros H. destruct (Data_ok H) as (Hb & Hn & Hdp & Hmod).
  unfold Initializer_Data.partitions, range. rewrite Hb, Hn.
  set (s := world_size a / data_parallel_size a).
  assert (Hws : world_size a = data_parallel_size a * s) by now apply exact_division.
  apply uniform_cover with (n := s) (c := data_parallel_size a).
  - now rewrite length_map, length_seq.
  - intros p Hp. apply in_map_iff in Hp. destruct Hp as (i & <- & _).
    now rewrite length_map, length_seq.
  - lia.
  - intros r Hr. assert (Hs : s <> 0) by (intros E; rewrite E in Hws; lia).
    pose proof (Nat.div_mod_eq r s) as Hdm.
    pose proof (Nat.mod_upper_bound r s Hs) as Hlt.
    exists (map (fun j => r mod s + j * s) (seq 0 (data_parallel_size a))). split.
    + apply in_map_iff. exists (r mod s). split; [reflexivity|apply in_seq; lia].
    + apply in_map_iff. exists (r / s). split; [lia|]. apply in_seq.
      split; [lia|]. simpl. apply Nat.Div0.div_lt_upper_bound. lia.
Qed.

Lemma Model_partitions_concat a o :
  Initializer_Model.__init__ a = Ok o ->
  concat (Initializer_Model.partitions o) = seq 0 (world_size a).
Proof.
  intros H. destruct (Model_ok H) as (Hb & Hper & Hn & Hnz & Hmod).
  unfold Initializer_Model.partitions. rewrite Hper, Hn, blocks_concat.
  f_equal. pose proof (exact_division _ _ Hmod). lia.
Qed.

Lemma Tensor_partitions_concat a o :
  Initializer_Tensor.__init__ a = Ok o ->
  concat (Initializer_Tensor.partitions o) = seq 0 (world_size a).
Proof.
  intros H. destruct (Tensor_ok H) as (Hb & Hn & Hnz & Hmod).
  unfold Initializer_Tensor.partitions. rewrite Hb, Hn, blocks_concat.
  f_equal. pose proof (exact_division _ _ Hmod). lia.
Qed.

Lemma range_len_shift (a i n m : nat) :
  0 < n -> i < n -> range_len (a + i) (a + n * m) n = m.
Proof.
  intros Hn Hi. rewrite <- (range_len_exact i n m Hn Hi) at 2.
  unfold range_len. replace (a + n * m - (a + i)) with (n * m - i) by lia.
  reflexivity.
Qed.

Lemma Pipeline_cover a o :
  Initializer_Pipeline.__init__ a = Ok o ->
  Permutation (concat (Initializer_Pipeline.partitions o)) (seq 0 (world_size a)).
Proof.
  intros H.
  destruct (Pipeline_ok H) as (Hb & Hn & Hs & Hdp & Hpp & Hmod & Hmod').
  unfold Initializer_Pipeline.partitions, range. rewrite Hb, Hn, Hs.
  set (B := world_size a / data_parallel_size a) in *.
  set (s := B / pipeline_parallel_size a).
  assert (Hws : world_size a = data_parallel_size a * B) by now apply exact_division.
  assert (HB : B = pipeline_parallel_size a * s) by now apply exact_division.
  apply uniform_cover with (n := data_parallel_size a * s)
                           (c := pipeline_parallel_size a).
  - rewrite (length_flat_map_const s); [now rewrite length_seq|].
    intros i _. now rewrite length_map, length_seq.
  - intros p Hp. apply in_flat_map in Hp. destruct Hp as (i & _ & Hp).
    apply in_map_iff in Hp. destruct Hp as (j & <- & Hj). apply in_seq in Hj.
    rewrite range3_length.
    replace ((i + 1) * B) with (i * B + s * pipeline_parallel_size a) by lia.
    apply range_len_shift; lia.
  - lia.
  - intros r Hr.
    assert (HBnz : B <> 0) by (intros E; rewrite E in Hws; lia).
    assert (Hsnz : s <> 0) by (intros E; rewrite E in HB; lia).
    pose proof (Nat.div_mod_eq r B) as Hdm.
    pose proof (Nat.mod_upper_bound r B HBnz) as Hlt.
    pose proof (Nat.div_mod_eq (r mod B) s) as Hdm'.
    pose proof (Nat.mod_upper_bound (r mod B) s Hsnz) as Hlt'.
    exists (range3 (r / B * B + (r mod B) mod s) ((r / B + 1) * B) s). split.
    + apply in_flat_map. exists (r / B). split.
      * apply in_seq. split; [lia|]. simpl.
        apply Nat.Div0.div_lt_upper_bound. lia.
      * apply in_map_iff. exists ((r mod B) mod s). split; [reflexivity|].
        apply in_seq. lia.
    + apply in_range3. exists ((r mod B) / s). split; [lia|].
      apply range_len_lt; lia.
Qed.

Lemma Zero1_cover a o :
  Initializer_Zero1.__init__ a = Ok o ->
  data_parallel_size a mod zero1_parallel_size a = 0 ->
  Permutation (concat (Initializer_Zero1.partitions o)) (seq 0 (world_size a)).
Proof.
  intros H Hz.
  destruct (Zero1_ok H) as (Hb & Hn & Hg & Hdp & Hznz & Hmod & _).
  unfold Initializer_Zero1.partitions, range. rewrite Hb, Hn, Hg.
  set (B := world_size a / data_parallel_size a).
  set (g := data_parallel_size a / zero1_parallel_size a).
  set (z := zero1_parallel_size a) in *.
  assert (Hws : world_size a = data_parallel_size a * B) by now apply exact_division.
  assert (Hd : data_parallel_size a = z * g) by now apply exact_division.
  apply uniform_cover with (n := B * g) (c := z).
  - rewrite (length_flat_map_const g); [now rewrite length_seq|].
    intros i _. now rewrite length_map, length_seq.
  - intros p Hp. apply in_flat_map in Hp. destruct Hp as (i & _ & Hp).
    apply in_map_iff in Hp. destruct Hp as (j & <- & _).
    now rewrite length_map, length_seq.
  - nia.
  - intros r Hr.
    assert (HBnz : B <> 0) by (intros E; rewrite E in Hws; lia).
    pose proof (Nat.div_mod_eq r B) as Hdm.
    pose proof (Nat.mod_upper_bound r B HBnz) as Hlt.
    pose proof (Nat.div_mod_eq (r / B) z) as Hdm'.
    pose proof (Nat.mod_upper_bound (r / B) z Hznz) as Hlt'.
    assert (Hq : r / B < z * g).
    { apply Nat.Div0.div_lt_upper_bound. lia. }
    exists (map (fun k => r mod B + (r / B / z * z + k) * B) (seq 0 z)). split.
    + apply in_flat_map. exists (r mod B). split; [apply in_seq; lia|].
      apply in_map_iff. exists (r / B / z). split; [reflexivity|].
      apply in_seq. split; [lia|]. simpl.
      apply Nat.Div0.div_lt_upper_bound. lia.
    + apply in_map_iff. exists ((r / B) mod z). split; [|apply in_seq; lia].
      replace (r / B / z * z + (r / B) mod z) with (r / B) by lia. lia.
Qed.

Lemma Expert_cover a o :
  Initializer_Expert.__init__ a = Ok o ->
  Permutation (concat (Initializer_Expert.partitions o)) (seq 0 (world_size a)).
Proof.
  intros H. destruct (Expert_ok H) as (Hb & Hn & Hep & Hnz & Hmod & _).
  unfold Initializer_Expert.partitions. rewrite Hb, Hn.
  set (n := world_size a / expert_parallel_size a) in *.
  pose proof (exact_division _ _ Hmod) as E.
  set (m := world_size a / n) in E. clearbody m n. rewrite E.
  apply strided_cover.
Qed.

(** ** The network-test chunks *)

Lemma fold_append_filter (p : nat -> bool) (f : nat -> nat) (l acc : list nat) :
  fold_left (fun ranks j => if p (f j) then ranks ++ [f j] else ranks) l acc
  = acc ++ filter p (map f l).
Proof.
  revert acc. induction l as [|j l IH]; intros acc; simpl.
  - now rewrite app_nil_r.
  - rewrite IH. destruct (p (f j)); [now rewrite <- app_assoc|reflexivity].
Qed.

Lemma Nettest_group_ranks (o : Initializer_Nettest.t) (i : nat) :
  Initializer_Nettest.group_ranks o i
  = filter (fun r => r <? world_size (Initializer_Nettest.base o))
      (map (fun j => i * nettest_parallel_size (Initializer_Nettest.base o) + j)
           (range (nettest_parallel_size (Initializer_Nettest.base o)))).
Proof.
  unfold Initializer_Nettest.group_ranks.
  apply (fold_append_filter
           (fun r => r <? world_size (Initializer_Nettest.base o))
           (fun j => i * nettest_parallel_size (Initializer_Nettest.base o) + j)).
Qed.

Lemma concat_map_filter {A B : Type} (p : B -> bool) (g : A -> list B) (l : list A) :
  concat (map (fun i => filter p (g i)) l) = filter p (concat (map g l)).
Proof.
  induction l as [|x l IH]; simpl; [reflexivity|].
  now rewrite filter_app, IH.
Qed.

Lemma filter_below_seq (ws s n : nat) :
  filter (fun r => r <? ws) (seq s n) = seq s (Nat.min n (ws - s)).
Proof.
  revert s. induction n as [|n IH]; intros s; [reflexivity|].
  simpl. destruct (Nat.ltb_spec s ws) as [Hlt|Hge].
  - rewrite IH. replace (ws - s) with (S (ws - S s)) by lia. reflexivity.
  - rewrite IH. replace (ws - s) with 0 by lia.
    replace (ws - S s) with 0 by lia. now rewrite Nat.min_0_r.
Qed.

Lemma ceiling_covers (ws nt : nat) : nt <> 0 -> ws <= (ws + nt - 1) / nt * nt.
Proof.
  intros Hnt. pose proof (Nat.div_mod_eq (ws + nt - 1) nt).
  pose proof (Nat.mod_upper_bound (ws + nt - 1) nt Hnt). lia.
Qed.

Lemma Nettest_partitions_concat a o :
  Initializer_Nettest.__init__ a = Ok o ->
  concat (Initializer_Nettest.partitions o) = seq 0 (world_size a).
Proof.
  intros H. destruct (Nettest_ok H) as (Hb & Hn & Hnt).
  unfold Initializer_Nettest.partitions.
  rewrite (map_ext _ _ (Nettest_group_ranks o)).
  rewrite (concat_map_filter
             (fun r => r <? world_size (Initializer_Nettest.base o))
             (fun i => map (fun j => i * nettest_parallel_size
                                           (Initializer_Nettest.base o) + j)
                           (range (nettest_parallel_size
                                     (Initializer_Nettest.base o))))).
  rewrite blocks_concat, filter_below_seq, Hb, Hn. f_equal.
  pose proof (ceiling_covers (world_size a) _ Hnt). lia.
Qed.

(** ** Slicing into chunks and transposing them *)

Lemma firstn_plus {A : Type} (n m : nat) (l : list A) :
  firstn (n + m) l = firstn n l ++ firstn m (skipn n l).
Proof.
  revert l. induction n as [|n IH]; intros l; [reflexivity|].
  destruct l as [|x l]; simpl; [now destruct m|]. now rewrite IH.
Qed.

Lemma slices_concat {A : Type} (d : list A) (ep c : nat) :
  concat (map (fun i => slice d i (i + ep)) (map (fun k => 0 + k * ep) (seq 0 c)))
  = firstn (c * ep) d.
Proof.
  induction c as [|c IH]; [reflexivity|].
  rewrite seq_S, !map_app, concat_app, IH. simpl. rewrite app_nil_r.
  unfold slice. replace (c * ep + ep - c * ep) with ep by lia.
  replace (ep + c * ep) with (c * ep + ep) by lia. now rewrite firstn_plus.
Qed.

Lemma chunks_concat {A : Type} (d : list A) (dp ep : nat) :
  ep <> 0 -> length d = dp ->
  concat (map (fun i => slice d i (i + ep)) (range3 0 dp ep)) = d.
Proof.
  intros Hep Hd. unfold range3. rewrite slices_concat. apply firstn_all2.
  unfold range_len. destruct (Nat.eqb_spec ep 0); [contradiction|].
  rewrite Hd, Nat.sub_0_r. now apply ceiling_covers.
Qed.

Lemma chunks_length {A : Type} (d : list A) (ep q : nat) (p : list A) :
  ep <> 0 -> length d = ep * q ->
  In p (map (fun i => slice d i (i + ep)) (range3 0 (ep * q) ep)) ->
  length p = ep.
Proof.
  intros Hep Hd Hp. apply in_map_iff in Hp. destruct Hp as (i & <- & Hi).
  apply in_range3 in Hi. destruct Hi as (k & -> & Hk).
  rewrite range_len_exact in Hk by lia.
  unfold slice. rewrite length_firstn, length_skipn, Hd. nia.
Qed.

Lemma zip_cons_concat {A : Type} (l : list A) (rows : list (list A)) :
  length l = length rows ->
  Permutation (concat (zip_cons l rows)) (l ++ concat rows).
Proof.
  revert rows. induction l as [|x l IH]; intros [|r rows] Hlen;
    simpl in *; try discriminate; [constructor|].
  constructor. rewrite IH by lia.
  rewrite !app_assoc. apply Permutation_app_tail, Permutation_app_comm.
Qed.

Lemma zip_cons_length {A : Type} (l : list A) (rows : list (list A)) :
  length l = length rows -> length (zip_cons l rows) = length l.
Proof.
  revert rows. induction l as [|x l IH]; intros [|r rows] Hlen;
    simpl in *; try discriminate; [reflexivity|]. now rewrite IH by lia.
Qed.

Lemma zip_star_length {A : Type} (n : nat) (ls : list (list A)) :
  ls <> [] -> (forall p, In p ls -> length p = n) ->
  length (zip_star ls) = n.
Proof.
  induction ls as [|l ls IH]; [easy|]. intros _ Hn.
  destruct ls as [|l' ls].
  - simpl. rewrite length_map. apply Hn. now left.
  - change (zip_star (l :: l' :: ls)) with (zip_cons l (zip_star (l' :: ls))).
    assert (Hl : length l = n) by (apply Hn; now left).
    assert (Hz : length (zip_star (l' :: ls)) = n).
    { apply IH; [discriminate|]. intros p Hp. apply Hn. now right. }
    rewrite zip_cons_length; congruence.
Qed.

(** Transposing chunks of one length keeps every rank, once. *)
Lemma zip_star_concat {A : Type} (n : nat) (ls : list (list A)) :
  (forall p, In p ls -> length p = n) ->
  Permutation (concat (zip_star ls)) (concat ls).
Proof.
  induction ls as [|l ls IH]; [constructor|]. intros Hn.
  destruct ls as [|l' ls].
  - simpl. rewrite app_nil_r. clear. induction l; simpl; auto.
  - change (zip_star (l :: l' :: ls)) with (zip_cons l (zip_star (l' :: ls))).
    assert (Hl : length l = n) by (apply Hn; now left).
    assert (Hrest : forall p, In p (l' :: ls) -> length p = n).
    { intros p Hp. apply Hn. now right. }
    rewrite zip_cons_concat.
    + change (concat (l :: l' :: ls)) with (l ++ concat (l' :: ls)).
      apply Permutation_app_head, IH, Hrest.
    + rewrite (zip_star_length n); [exact Hl|discriminate|exact Hrest].
Qed.

(** ** The expert-data initializer *)

Lemma fold_two_appends {X B : Type} (f g : X -> list B) (l : list X)
  (e d : list B) :
  fold_left (fun (acc : list B * list B) x =>
               let (e, d) := acc in (e ++ f x, d ++ g x)) l (e, d)
  = (e ++ flat_map f l, d ++ flat_map g l).
Proof.
  revert e d. induction l as [|x l IH]; intros e d; simpl.
  - now rewrite !app_nil_r.
  - now rewrite IH, <- !app_assoc.
Qed.

Lemma concat_flat_map {X B : Type} (f : X -> list (list B)) (l : list X) :
  concat (flat_map f l) = flat_map (fun x => concat (f x)) l.
Proof.
  induction l as [|x l IH]; simpl; [reflexivity|].
  now rewrite concat_app, IH.
Qed.

Lemma flat_map_permutation {X B : Type} (f g : X -> list B) (l : list X) :
  (forall x, In x l -> Permutation (f x) (g x)) ->
  Permutation (flat_map f l) (flat_map g l).
Proof.
  induction l as [|x l IH]; simpl; intros H; [constructor|].
  apply Permutation_app; auto.
Qed.

(** The two families of the expert-data initializer, without the loop. *)
Lemma Expert_Data_families (o : Initializer_Expert_Data.t) :
  let a := Initializer_Expert_Data.base o in
  let mp := pipeline_parallel_size a * tensor_parallel_size a in
  let chunks := fun d : list nat =>
    map (fun i => slice d i (i + expert_parallel_size a))
        (range3 0 (data_parallel_size a) (expert_parallel_size a)) in
  let groups := map (fun i => range3 i (world_size a) mp) (range mp) in
  Initializer_Expert_Data._get_expert_parallel_ranks o
  = (flat_map chunks groups, flat_map (fun d => zip_star (chunks d)) groups).
Proof.
  intros a mp chunks groups. unfold Initializer_Expert_Data._get_expert_parallel_ranks.
  fold a. fold mp.
  exact (fold_two_appends chunks (fun d => zip_star (chunks d)) groups [] []).
Qed.

Lemma Expert_Data_cover a o :
  Initializer_Expert_Data.__init__ a = Ok o ->
  world_size a
  = data_parallel_size a * (pipeline_parallel_size a * tensor_parallel_size a) ->
  data_parallel_size a mod expert_parallel_size a = 0 ->
  Permutation (concat (fst (Initializer_Expert_Data._get_expert_parallel_ranks o)))
              (seq 0 (world_size a))
  /\ Permutation (concat (snd (Initializer_Expert_Data._get_expert_parallel_ranks o)))
                 (seq 0 (world_size a)).
Proof.
  intros H Hws Hdiv. destruct (Expert_Data_ok H) as (Hb & _ & Hep).
  rewrite Expert_Data_families, Hb. simpl fst. simpl snd.
  set (mp := pipeline_parallel_size a * tensor_parallel_size a) in *.
  set (ep := expert_parallel_size a) in *.
  set (chunks := fun d : list nat =>
         map (fun i => slice d i (i + ep)) (range3 0 (data_parallel_size a) ep)).
  set (groups := map (fun i => range3 i (world_size a) mp) (range mp)).
  assert (Hgroups : Permutation (concat groups) (seq 0 (world_size a))).
  { unfold groups. replace (world_size a) with (mp * data_parallel_size a) by lia.
    apply strided_cover. }
  assert (Hlen : forall d, In d groups -> length d = data_parallel_size a).
  { intros d Hd. apply in_map_iff in Hd. destruct Hd as (i & <- & Hi).
    apply in_seq in Hi. rewrite range3_length.
    replace (world_size a) with (mp * data_parallel_size a) by lia.
    apply range_len_exact; lia. }
  assert (Hchunks : forall d, In d groups -> concat (chunks d) = d).
  { intros d Hd. apply chunks_concat; auto. }
  assert (Hflat : concat groups = flat_map (fun d : list nat => d) groups).
  { now rewrite flat_map_concat_map, map_id. }
  pose proof (exact_division _ _ Hdiv) as Hq.
  split; rewrite concat_flat_map, <- Hgroups, Hflat;
    apply flat_map_permutation; intros d Hd.
  - now rewrite Hchunks.
  - transitivity (concat (chunks d)); [|now rewrite Hchunks].
    apply zip_star_concat with (n := ep).
    intros p Hp. unfold chunks in Hp. rewrite Hq in Hp.
    apply chunks_length in Hp; auto. rewrite <- Hq. auto.
Qed.

End PartitionFacts.

(* ================================================================== *)
(** * The loops over the transport *)
(* ================================================================== *)

Module LoopFacts.

Import PyFacts.

Lemma for_each_map {X Y S : Type} (f : X -> Y) (body : Y -> S -> M S)
  (l : list X) (s : S) (st : Transport) :
  for_each (map f l) body s st = for_each l (fun x => body (f x)) s st.
Proof.
  revert s st. induction l as [|x l IH]; intros s st; [reflexivity|].
  simpl. unfold bind. destruct (body (f x) s st) as [s' st']. apply IH.
Qed.

Lemma for_each_app {X S : Type} (body : X -> S -> M S) (l1 l2 : list X)
  (s : S) (st : Transport) :
  for_each (l1 ++ l2) body s st
  = let (s', st') := for_each l1 body s st in for_each l2 body s' st'.
Proof.
  revert s st. induction l1 as [|x l1 IH]; intros s st; [reflexivity|].
  simpl. unfold bind. destruct (body x s st) as [s' st']. apply IH.
Qed.

Lemma for_each_flat_map {X Y S : Type} (f : X -> list Y) (body : Y -> S -> M S)
  (l : list X) (s : S) (st : Transport) :
  for_each (flat_map f l) body s st
  = for_each l (fun x s => for_each (f x) body s) s st.
Proof.
  revert s st. induction l as [|x l IH]; intros s st; [reflexivity|].
  simpl. rewrite for_each_app. unfold bind.
  destruct (for_each (f x) body s st) as [s' st']. apply IH.
Qed.

Lemma for_each_ext {X S : Type} (body body' : X -> S -> M S) (l : list X)
  (s : S) (st : Transport) :
  (forall x s st, body x s st = body' x s st) ->
  for_each l body s st = for_each l body' s st.
Proof.
  intros E. revert s st. induction l as [|x l IH]; intros s st; [reflexivity|].
  simpl. unfold bind. rewrite E. destruct (body' x s st). apply IH.
Qed.

(** One turn of a loop: the handles it obtains and the calls it logs. *)
Lemma make_groups_run (use_cpu : bool) (ranks : list nat) (st : Transport) :
  make_groups use_cpu ranks st
  = (handles_for use_cpu (backend st) (length (created st)),
     {| backend := backend st;
        created := created st ++ calls_for use_cpu (backend st) ranks |}).
Proof.
  unfold make_groups, handles_for, calls_for, bind, new_group, get_backend, ret.
  destruct st as [b log]. simpl.
  destruct use_cpu; simpl; [|reflexivity].
  destruct (String.eqb b "gloo"); simpl; [reflexivity|].
  rewrite length_app, <- app_assoc, Nat.add_1_r. reflexivity.
Qed.

Lemma visit_run (r : nat) (use_cpu : bool) (ranks : list nat) (v : Locals)
  (st : Transport) :
  visit r use_cpu ranks v st
  = (if contains r ranks
     then assign ranks r (handles_for use_cpu (backend st) (length (created st)))
     else v,
     {| backend := backend st;
        created := created st ++ calls_for use_cpu (backend st) ranks |}).
Proof. unfold visit, bind. now rewrite make_groups_run. Qed.

Lemma visit_append_run (r : nat) (use_cpu : bool) (mode : ParallelMode)
  (ranks : list nat) (s : Locals * list Info) (st : Transport) :
  Initializer_Expert_Data.visit_append r use_cpu mode ranks s st
  = (if contains r ranks
     then let v := assign ranks r
                     (handles_for use_cpu (backend st) (length (created st))) in
          (v, snd s ++ [(v, mode)])
     else s,
     {| backend := backend st;
        created := created st ++ calls_for use_cpu (backend st) ranks |}).
Proof.
  unfold Initializer_Expert_Data.visit_append, bind. now rewrite make_groups_run.
Qed.

(** A loop whose turns log [calls_for] their partition logs just these, in
    the order of the partitions. *)
Lemma loop_log {S : Type} (use_cpu : bool) (body : list nat -> S -> M S)
  (l : list (list nat)) :
  (forall ranks s st,
      snd (body ranks s st)
      = {| backend := backend st;
           created := created st ++ calls_for use_cpu (backend st) ranks |}) ->
  forall s st,
    snd (for_each l body s st)
    = {| backend := backend st;
         created := created st ++ flat_map (calls_for use_cpu (backend st)) l |}.
Proof.
  intros Hbody. induction l as [|ranks l IH]; intros s st; simpl.
  - rewrite app_nil_r. now destruct st.
  - unfold bind. specialize (Hbody ranks s st).
    destruct (body ranks s st) as [s' st']. simpl in Hbody. subst st'.
    rewrite IH. simpl. now rewrite <- app_assoc.
Qed.

Lemma primary_of_calls (use_cpu : bool) (b : string) (l : list (list nat)) :
  primary_partitions (flat_map (calls_for use_cpu b) l) = l.
Proof.
  unfold primary_partitions. induction l as [|ranks l IH]; [reflexivity|].
  simpl. f_equal.
  destruct (use_cpu && negb (String.eqb b "gloo")); simpl; exact IH.
Qed.

Lemma new_calls_app (st : Transport) (b : string) (calls : list Call) :
  new_calls st {| backend := b; created := created st ++ calls |} = calls.
Proof.
  unfold new_calls. simpl. rewrite skipn_app, Nat.sub_diag, skipn_all. reflexivity.
Qed.


(** ** Every [init_dist_group] is one loop over its partitions *)

Lemma Data_loop o u st :
  Initializer_Data.init_dist_group o u st
  = let (v, st') := for_each (Initializer_Data.partitions o)
                      (visit (rank (Initializer_Data.base o)) u) no_locals st in
    ((v, DATA), st').
Proof.
  unfold Initializer_Data.init_dist_group, Initializer_Data.partitions, bind, ret.
  now rewrite for_each_map.
Qed.

Lemma Model_loop o u st :
  Initializer_Model.init_dist_group o u st
  = let (v, st') := for_each (Initializer_Model.partitions o)
                      (visit (rank (Initializer_Model.base o)) u) no_locals st in
    ((v, MODEL), st').
Proof.
  unfold Initializer_Model.init_dist_group, Initializer_Model.partitions, bind, ret.
  now rewrite for_each_map.
Qed.

Lemma Pipeline_loop o u st :
  Initializer_Pipeline.init_dist_group o u st
  = let (v, st') := for_each (Initializer_Pipeline.partitions o)
                      (visit (rank (Initializer_Pipeline.base o)) u) no_locals st in
    ((v, PIPELINE), st').
Proof.
  unfold Initializer_Pipeline.init_dist_group, Initializer_Pipeline.partitions,
    bind, ret.
  rewrite for_each_flat_map.
  erewrite for_each_ext; [reflexivity|].
  intros i s st0. simpl. now rewrite for_each_map.
Qed.

Lemma Tensor_loop o u st :
  Initializer_Tensor.init_dist_group o u st
  = let (v, st') := for_each (Initializer_Tensor.partitions o)
                      (visit (rank (Initializer_Tensor.base o)) u) no_locals st in
    ((v, TENSOR), st').
Proof.
  unfold Initializer_Tensor.init_dist_group, Initializer_Tensor.partitions, bind, ret.
  now rewrite for_each_map.
Qed.

Lemma Zero1_loop o u st :
  Initializer_Zero1.init_dist_group o u st
  = let (v, st') := for_each (Initializer_Zero1.partitions o)
                      (visit (rank (Initializer_Zero1.base o)) u) no_locals st in
    ((v, ZERO1), st').
Proof.
  unfold Initializer_Zero1.init_dist_group, Initializer_Zero1.partitions, bind, ret.
  rewrite for_each_flat_map.
  erewrite for_each_ext; [reflexivity|].
  intros i s st0. simpl. now rewrite for_each_map.
Qed.

Lemma Nettest_loop o u st :
  Initializer_Nettest.init_dist_group o u st
  = let (v, st') := for_each (Initializer_Nettest.partitions o)
                      (visit (rank (Initializer_Nettest.base o)) u) no_locals st in
    ((v, NETTEST), st').
Proof.
  unfold Initializer_Nettest.init_dist_group, Initializer_Nettest.partitions,
    bind, ret.
  now rewrite for_each_map.
Qed.

Lemma Expert_loop o u st :
  Initializer_Expert.init_dist_group o u st
  = let (v, st') := for_each (Initializer_Expert.partitions o)
                      (visit (rank (Initializer_Expert.base o)) u) no_locals st in
    ((v, EXPERT), st').
Proof.
  unfold Initializer_Expert.init_dist_group, Initializer_Expert.partitions, bind, ret.
  now rewrite for_each_map.
Qed.

(** The two shapes of [init_dist_group]: one loop and one tuple, or the two
    loops of the expert-data initializer. *)
Lemma init_dist_group_shape (o : Initializer) :
  (exists parts mode,
      families o = [parts]
      /\ forall u st,
          init_dist_group o u st
          = let (v, st') := for_each parts (visit (rank (args o)) u) no_locals st in
            ([(v, mode)], st'))
  \/ (exists e d,
         families o = [e; d]
         /\ forall u st,
             init_dist_group o u st
             = let (s, st') :=
                 for_each e (Initializer_Expert_Data.visit_append
                               (rank (args o)) u EXPERT) (no_locals, []) st in
               let (s', st'') :=
                 for_each d (Initializer_Expert_Data.visit_append
                               (rank (args o)) u EXPERT_DATA) s st' in
               (snd s', st'')).
Proof.
  destruct o as [o|o|o|o|o|o|o|o].
  1-7: left; eexists; eexists; split; [reflexivity|]; intros u st; simpl;
       unfold bind, ret.
  - rewrite Data_loop. now destruct (for_each _ _ _ _).
  - rewrite Model_loop. now destruct (for_each _ _ _ _).
  - rewrite Pipeline_loop. now destruct (for_each _ _ _ _).
  - rewrite Tensor_loop. now destruct (for_each _ _ _ _).
  - rewrite Zero1_loop. now destruct (for_each _ _ _ _).
  - rewrite Nettest_loop. now destruct (for_each _ _ _ _).
  - rewrite Expert_loop. now destruct (for_each _ _ _ _).
  - right. simpl. unfold Initializer_Expert_Data.init_dist_group.
    destruct (Initializer_Expert_Data._get_expert_parallel_ranks o) as [e d].
    exists e, d. split; [reflexivity|]. intros u st. unfold bind, ret.
    destruct (for_each e _ _ st) as [s st'].
    now destruct (for_each d _ s st') as [s' st''].
Qed.

(** ** What the loops log *)

Lemma init_dist_group_log (o : Initializer) (u : bool) (st : Transport) :
  snd (init_dist_group o u st)
  = {| backend := backend st;
       created := created st
                  ++ flat_map (calls_for u (backend st)) (concat (families o)) |}.
Proof.
  destruct (init_dist_group_shape o) as
    [(parts & mode & -> & E)|(e & d & -> & E)]; rewrite E; simpl.
  - rewrite app_nil_r.
    rewrite <- (loop_log u (visit (rank (args o)) u) parts) with (s := no_locals).
    + now destruct (for_each parts _ _ st).
    + intros ranks s st0. now rewrite visit_run.
  - rewrite app_nil_r, flat_map_app, app_assoc.
    pose proof (loop_log u (Initializer_Expert_Data.visit_append
                              (rank (args o)) u EXPERT) e) as He.
    pose proof (loop_log u (Initializer_Expert_Data.visit_append
                              (rank (args o)) u EXPERT_DATA) d) as Hd.
    specialize (He ltac:(intros; now rewrite visit_append_run) (no_locals, []) st).
    destruct (for_each e _ _ st) as [s st']. simpl in He.
    specialize (Hd ltac:(intros; now rewrite visit_append_run) s st').
    destruct (for_each d _ s st') as [s' st'']. simpl in *.
    rewrite Hd, He. reflexivity.
Qed.


(** ** What the loops keep *)

Lemma fallback_extend (u : bool) (st : Transport) (calls : list Call) (v : Locals) :
  fallback_as_requested u st v ->
  fallback_as_requested u
    {| backend := backend st; created := created st ++ calls |} v.
Proof.
  intros H h rs Hh Hrs. destruct (H h rs Hh Hrs) as (Hlog & Hoff & Hsame & Hnew).
  simpl. repeat split; auto.
  - rewrite nth_error_app1; [exact Hlog|].
    apply nth_error_Some. congruence.
  - intros Hu Hb. destruct (Hnew Hu Hb) as (h' & Hc & Hne & Hlog').
    exists h'. repeat split; auto.
    rewrite nth_error_app1; [exact Hlog'|].
    apply nth_error_Some. congruence.
Qed.

Lemma kept_extend parts r u st calls v :
  kept parts r u st v ->
  kept parts r u {| backend := backend st; created := created st ++ calls |} v.
Proof.
  intros (rs & Hin & Hr & Hd & Hh & Hf). exists rs.
  split; [exact Hin|]. split; [exact Hr|]. split; [exact Hd|].
  split; [exact Hh|]. now apply fallback_extend.
Qed.

Lemma assign_kept parts r u st rs :
  In rs parts -> In r rs ->
  kept parts r u
    {| backend := backend st;
       created := created st ++ calls_for u (backend st) rs |}
    (assign rs r (handles_for u (backend st) (length (created st)))).
Proof.
  intros Hin Hr. exists rs. split; [exact Hin|]. split; [exact Hr|].
  destruct (index_first r rs Hr) as (k & Hk & Hfirst).
  split; [|split].
  - unfold describes, assign. simpl. repeat split; eauto.
  - simpl. eauto.
  - intros h rs' Hh Hrs. simpl in Hh, Hrs.
    injection Hh as <-. injection Hrs as <-. simpl.
    unfold calls_for, handles_for.
    split; [|split; [|split]].
    + now rewrite nth_error_app2, Nat.sub_diag by lia.
    + now intros ->.
    + intros -> Hb. rewrite Hb. reflexivity.
    + intros -> Hb. apply String.eqb_neq in Hb. rewrite Hb. simpl.
      exists (S (length (created st))). repeat split; [lia|].
      rewrite nth_error_app2 by lia.
      now replace (S (length (created st)) - length (created st)) with 1 by lia.
Qed.

(** The loop of an initializer that returns one tuple: once a group is
    kept a group stays kept, a member partition in the list makes a group
    kept, and without one the variables stay as they were. *)
Lemma visit_all parts r u :
  forall l v st, incl l parts ->
    (kept parts r u st v \/ (exists rs, In rs l /\ In r rs) ->
     kept parts r u (snd (for_each l (visit r u) v st))
          (fst (for_each l (visit r u) v st)))
    /\ ((forall rs, In rs l -> ~ In r rs) ->
        fst (for_each l (visit r u) v st) = v).
Proof.
  induction l as [|rs l IH]; intros v st Hincl.
  - simpl. split.
    + intros [H|(rs & [] & _)]. now destruct st.
    + reflexivity.
  - assert (Hrs : In rs parts) by (apply Hincl; now left).
    assert (Hl : incl l parts) by (intros x Hx; apply Hincl; now right).
    simpl. unfold bind. rewrite visit_run.
    set (st1 := {| backend := backend st;
                   created := created st ++ calls_for u (backend st) rs |}).
    destruct (contains r rs) eqn:Hc.
    + apply contains_In in Hc.
      destruct (IH (assign rs r (handles_for u (backend st) (length (created st))))
                   st1 Hl) as (Hkeep & _).
      split.
      * intros _. apply Hkeep. left. now apply assign_kept.
      * intros Hno. exfalso. apply (Hno rs); [now left|exact Hc].
    + assert (Hnot : ~ In r rs).
      { intros Hin. apply contains_In in Hin. congruence. }
      destruct (IH v st1 Hl) as (Hkeep & Hsame). split.
      * intros [Hk|(rs' & [<-|Hin] & Hr)].
        -- apply Hkeep. left. now apply kept_extend.
        -- contradiction.
        -- apply Hkeep. right. eauto.
      * intros Hno. apply Hsame. intros rs' Hin. apply Hno. now right.
Qed.

(** The loops of the expert-data initializer: the tuples appended are of
    kept groups and carry the mode of the loop, the earlier ones stay, and a
    member partition in the list makes a tuple appear. *)
Lemma visit_append_all parts r u mode :
  forall l s st, incl l parts ->
    exists added,
      snd (fst (for_each l (Initializer_Expert_Data.visit_append r u mode) s st))
      = snd s ++ added
      /\ (forall info, In info added ->
            snd info = mode
            /\ kept parts r u
                 (snd (for_each l (Initializer_Expert_Data.visit_append r u mode)
                         s st)) (fst info))
      /\ ((exists rs, In rs l /\ In r rs) -> added <> []).
Proof.
  induction l as [|rs l IH]; intros s st Hincl.
  - exists []. simpl. rewrite app_nil_r. repeat split; try easy.
    intros (rs & [] & _).
  - assert (Hrs : In rs parts) by (apply Hincl; now left).
    assert (Hl : incl l parts) by (intros x Hx; apply Hincl; now right).
    simpl. unfold bind. rewrite visit_append_run.
    set (st1 := {| backend := backend st;
                   created := created st ++ calls_for u (backend st) rs |}).
    destruct (contains r rs) eqn:Hc.
    + apply contains_In in Hc. cbv zeta.
      set (v := assign rs r (handles_for u (backend st) (length (created st)))).
      destruct (IH (v, snd s ++ [(v, mode)]) st1 Hl) as (added & Hres & Hgood & _).
      exists ((v, mode) :: added). simpl in Hres. split; [|split].
      * rewrite Hres, <- app_assoc. reflexivity.
      * intros info [<-|Hin]; [|now apply Hgood]. split; [reflexivity|].
        simpl fst.
        pose proof (loop_log u (Initializer_Expert_Data.visit_append r u mode) l
                      ltac:(intros; now rewrite visit_append_run)
                      (v, snd s ++ [(v, mode)]) st1) as Hlog.
        rewrite Hlog. apply kept_extend with (st := st1).
        now apply assign_kept.
      * discriminate.
    + assert (Hnot : ~ In r rs).
      { intros Hin. apply contains_In in Hin. congruence. }
      destruct (IH s st1 Hl) as (added & Hres & Hgood & Hsome).
      exists added. repeat split; auto; try apply Hgood; auto.
      intros (rs' & [<-|Hin] & Hr); [contradiction|]. apply Hsome. eauto.
Qed.

End LoopFacts.

(* ================================================================== *)
(** * Properties of the process-group initializers *)
(* ================================================================== *)

Import PyFacts CoverFacts InitFacts PartitionFacts LoopFacts.

Lemma construct_args (x : Axis) (a : ProcessGroupInitializer) (o : Initializer) :
  construct x a = Ok o -> args o = a.
Proof.
  destruct x; unfold construct, fmap, Py.bind; intros H;
    match type of H with
    | match ?i with _ => _ end = _ => destruct i as [o'|] eqn:E
    end; try discriminate; injection H as <-; simpl.
  - apply (Data_ok E).
  - apply (Model_ok E).
  - apply (Pipeline_ok E).
  - apply (Tensor_ok E).
  - apply (Zero1_ok E).
  - apply (Nettest_ok E).
  - apply (Expert_ok E).
  - apply (Expert_Data_ok E).
Qed.

(** C2, as amended.  With [world_size = 8], [pipeline_parallel_size *
    tensor_parallel_size = 2], [data_parallel_size = 4] and
    [expert_parallel_size = 2] (the sizes of the example in the docstring
    of [_get_expert_parallel_ranks]) the expert-data initializer produces
    exactly the expert-parallel partitions [0,2],[4,6],[1,3],[5,7] and the
    expert-data partitions [0,4],[2,6],[1,5],[3,7], in that order. *)
Theorem expert_data_worked_example (r pp tp z nt : nat) :
  pp * tp = 2 ->
  resolve Expert_Data (Build_ProcessGroupInitializer r 8 4 pp tp z nt 2)
  = Ok [[[0; 2]; [4; 6]; [1; 3]; [5; 7]];
        [[0; 4]; [2; 6]; [1; 5]; [3; 7]]].
Proof.
  intros H.
  assert (Hcases : (pp = 1 /\ tp = 2) \/ (pp = 2 /\ tp = 1)).
  { destruct pp as [|[|[|pp]]], tp as [|[|[|tp]]]; simpl in H; try lia. }
  destruct Hcases as [(-> & ->)|(-> & ->)]; reflexivity.
Qed.

Lemma expert_data_worked_example_witness :
  resolve Expert_Data (Build_ProcessGroupInitializer 0 8 4 1 2 1 1 2)
  = Ok [[[0; 2]; [4; 6]; [1; 3]; [5; 7]];
        [[0; 4]; [2; 6]; [1; 5]; [3; 7]]].
Proof. apply (expert_data_worked_example 0 1 2 1 1). reflexivity. Defined.

(** C2, as stated, fails: with [expert_parallel_size = 4] every
    data-parallel group is one expert-parallel chunk, and its transpose is
    eight groups of a single rank. *)
Lemma expert_data_example_with_expert_size_4 :
  resolve Expert_Data (Build_ProcessGroupInitializer 0 8 4 1 2 1 1 4)
  = Ok [[[0; 2; 4; 6]; [1; 3; 5; 7]];
        [[0]; [2]; [4]; [6]; [1]; [3]; [5]; [7]]]
  /\ resolve Expert_Data (Build_ProcessGroupInitializer 0 8 4 1 2 1 1 4)
     <> Ok [[[0; 2]; [4; 6]; [1; 3]; [5; 7]];
            [[0; 4]; [2; 6]; [1; 5]; [3; 7]]].
Proof. split; [reflexivity|discriminate]. Qed.

Lemma positive_nonzero (n : nat) : 0 < n -> (n =? 0) = false.
Proof. intros H. apply Nat.eqb_neq. lia. Qed.

(** C3, as amended.  Whatever exception the constructor of an axis raises,
    the run ends with that exception and the transport untouched: no
    [new_group] call has been made.  And for a topology of positive sizes
    (with [expert_parallel_size <= world_size] for the Expert axis) in
    which a condition under an [assert] of the constructor fails, the
    exception is [AssertionError], the configuration error of the design. *)
Theorem failed_checks_precede_group_construction
  (x : Axis) (a : ProcessGroupInitializer) (use_cpu : bool) (st : Transport) :
  (forall e, construct x a = Raise e ->
     initialize x a use_cpu st = (Raise e, st)
     /\ new_calls st (snd (initialize x a use_cpu st)) = [])
  /\ (positive_sizes a ->
      (x = Expert -> expert_parallel_size a <= world_size a) ->
      asserts_hold x a = false ->
      construct x a = Raise AssertionError).
Proof.
  split.
  - intros e He. unfold initialize. rewrite He. split; [reflexivity|].
    unfold new_calls. simpl. apply skipn_all.
  - intros (Hws & Hdp & Hpp & Htp & Hz & Hnt & Hep) Hexp Hfail.
    destruct x; simpl in Hfail; try discriminate;
      unfold construct, fmap, Py.bind.
    + unfold Initializer_Data.__init__, floordiv, modulo, assert.
      rewrite (positive_nonzero _ Hdp). simpl. now rewrite Hfail.
    + assert (Hm : 0 < tensor_parallel_size a * pipeline_parallel_size a) by nia.
      unfold Initializer_Model.__init__, floordiv, modulo, assert.
      rewrite (positive_nonzero _ Hm). simpl. now rewrite Hfail.
    + unfold Initializer_Pipeline.__init__, floordiv, modulo, assert.
      rewrite (positive_nonzero _ Hdp), (positive_nonzero _ Hpp). simpl.
      apply andb_false_iff in Hfail.
      destruct (world_size a mod data_parallel_size a =? 0); simpl; [|reflexivity].
      destruct Hfail as [Hfail|Hfail]; [discriminate|]. now rewrite Hfail.
    + unfold Initializer_Tensor.__init__, floordiv, modulo, assert.
      rewrite (positive_nonzero _ Htp). simpl. now rewrite Hfail.
    + unfold Initializer_Zero1.__init__, floordiv, modulo, assert.
      rewrite (positive_nonzero _ Hdp), (positive_nonzero _ Hz). simpl.
      apply andb_false_iff in Hfail.
      destruct (world_size a mod data_parallel_size a =? 0); simpl; [|reflexivity].
      destruct Hfail as [Hfail|Hfail]; [discriminate|]. now rewrite Hfail.
    + assert (Hn : 0 < world_size a / expert_parallel_size a).
      { apply Nat.div_str_pos. split; [exact Hep|]. now apply Hexp. }
      unfold Initializer_Expert.__init__, floordiv, modulo, assert.
      rewrite (positive_nonzero _ Hep). simpl.
      rewrite (positive_nonzero _ Hn). simpl.
      apply andb_false_iff in Hfail.
      destruct (world_size a mod (world_size a / expert_parallel_size a) =? 0);
        simpl; [|reflexivity].
      destruct Hfail as [Hfail|Hfail]; [discriminate|]. now rewrite Hfail.
Qed.

Lemma failed_checks_precede_group_construction_witness :
  construct Data (Build_ProcessGroupInitializer 0 7 2 1 1 1 1 1)
  = Raise AssertionError
  /\ initialize Data (Build_ProcessGroupInitializer 0 7 2 1 1 1 1 1) true
       {| backend := "nccl"; created := [] |}
     = (Raise AssertionError, {| backend := "nccl"; created := [] |}).
Proof.
  pose (a := Build_ProcessGroupInitializer 0 7 2 1 1 1 1 1).
  pose (st := {| backend := "nccl"; created := [] |}).
  assert (Hpos : positive_sizes a) by (unfold positive_sizes; simpl; lia).
  assert (Hexp : Data = Expert -> expert_parallel_size a <= world_size a)
    by (intros E; discriminate E).
  destruct (failed_checks_precede_group_construction Data a true st)
    as (Hrun & Hraise).
  split.
  - exact (Hraise Hpos Hexp eq_refl).
  - exact (proj1 (Hrun AssertionError (Hraise Hpos Hexp eq_refl))).
Defined.

(** C3, as stated, fails in the kind of the exception: for the Expert axis
    with [world_size = 4], [data_parallel_size = 2], [expert_parallel_size
    = 8] the equality [data_parallel_size == expert_parallel_size] fails,
    yet [world_size // expert_parallel_size] is [0] and the first check,
    [world_size % 0], raises [ZeroDivisionError]. *)
Lemma expert_check_divides_by_zero :
  positive_sizes (Build_ProcessGroupInitializer 0 4 2 1 1 1 1 8)
  /\ asserts_hold Expert (Build_ProcessGroupInitializer 0 4 2 1 1 1 1 8) = false
  /\ initialize Expert (Build_ProcessGroupInitializer 0 4 2 1 1 1 1 8) true
       {| backend := "nccl"; created := [] |}
     = (Raise ZeroDivisionError, {| backend := "nccl"; created := [] |})
  /\ fst (initialize Expert (Build_ProcessGroupInitializer 0 4 2 1 1 1 1 8) true
            {| backend := "nccl"; created := [] |})
     <> Raise AssertionError.
Proof.
  split; [unfold positive_sizes; simpl; lia|].
  split; [reflexivity|]. split; [reflexivity|discriminate].
Qed.

Lemma exact_cover_one_partition (ws : nat) (fam : list (list nat))
  (rs rs' : list nat) (r : nat) :
  exact_cover ws fam -> In rs fam -> In rs' fam -> In r rs -> In r rs' ->
  rs' = rs.
Proof.
  intros (Hone & Hbelow & _) Hrs Hrs' Hr Hr'.
  destruct (Hone r (Hbelow rs r Hrs Hr)) as (i & _ & Huniq).
  destruct (In_nth_error _ _ Hrs) as (j & Hj).
  destruct (In_nth_error _ _ Hrs') as (j' & Hj').
  assert (E : i = j) by (apply Huniq; eauto).
  assert (E' : i = j') by (apply Huniq; eauto).
  congruence.
Qed.

(** C4.  For an initializer built by its constructor: whenever the rank
    of the process is a member of a partition of a family the initializer
    enumerates, [init_dist_group] returns a tuple for that family whose
    [ranks_in_group] is a partition of the family with the rank in it, whose
    [local_rank] is the position of the rank in that partition (the first
    one, as [list.index] finds it) and whose [group_world_size] is the
    length of that partition; where the family carves up the ranks, that
    partition is the one the rank is a member of. *)
Theorem local_rank_is_index_in_partition
  (x : Axis) (a : ProcessGroupInitializer) (o : Initializer)
  (use_cpu : bool) (st : Transport) (fam : list (list nat)) (rs : list nat) :
  construct x a = Ok o ->
  In fam (families o) -> In rs fam -> In (rank a) rs ->
  exists info rs',
    In info (fst (init_dist_group o use_cpu st))
    /\ In rs' fam /\ In (rank a) rs'
    /\ ranks_in_group (fst info) = Some rs'
    /\ (exists k, local_rank (fst info) = Some k
                  /\ nth_error rs' k = Some (rank a)
                  /\ forall j, j < k -> nth_error rs' j <> Some (rank a))
    /\ group_world_size (fst info) = Some (length rs')
    /\ (forall ws, exact_cover ws fam -> rs' = rs).
Proof.
  intros Hc. rewrite <- (construct_args x a o Hc). clear Hc.
  intros Hfam Hrs Hr.
  assert (Hgoal : exists info,
             In info (fst (init_dist_group o use_cpu st))
             /\ exists st', kept fam (rank (args o)) use_cpu st' (fst info)).
  { destruct (init_dist_group_shape o) as
      [(parts & mode & Ef & E)|(e & d & Ef & E)]; rewrite E; rewrite Ef in Hfam.
    - destruct Hfam as [<-|[]].
      destruct (visit_all parts (rank (args o)) use_cpu parts no_locals st
                  (incl_refl _)) as (Hkeep & _).
      destruct (for_each parts _ _ st) as [v st']. simpl in *.
      exists (v, mode). split; [now left|]. exists st'. apply Hkeep. eauto.
    - destruct (visit_append_all e (rank (args o)) use_cpu EXPERT e
                  (no_locals, []) st (incl_refl _)) as (ae & Hae & Hge & Hne).
      destruct (for_each e _ _ st) as [s st']. simpl in Hae, Hge.
      destruct (visit_append_all d (rank (args o)) use_cpu EXPERT_DATA d
                  s st' (incl_refl _)) as (ad & Had & Hgd & Hnd).
      destruct (for_each d _ s st') as [s' st'']. simpl in Had, Hgd |- *.
      rewrite Had, Hae.
      destruct Hfam as [<-|[<-|[]]].
      + destruct ae as [|info ae]; [exfalso; apply Hne; eauto|].
        exists info. split; [apply in_or_app; left; now left|].
        exists st'. apply Hge. now left.
      + destruct ad as [|info ad]; [exfalso; apply Hnd; eauto|].
        exists info. split; [apply in_or_app; right; now left|].
        exists st''. apply Hgd. now left. }
  destruct Hgoal as (info & Hinfo & st' & rs' & Hin' & Hr' & Hd & _).
  destruct Hd as (Hranks & (k & Hk & Hnth & Hfirst) & Hsize).
  exists info, rs'. repeat split; eauto.
  intros ws Hcover. eapply exact_cover_one_partition; eauto.
Qed.

Lemma local_rank_is_index_in_partition_witness :
  exists info,
    In info (fst (init_dist_group
                    (OfPipeline
                       {| Initializer_Pipeline.base :=
                            Build_ProcessGroupInitializer 7 8 2 2 1 1 1 1;
                          Initializer_Pipeline.rank_num_per_dp_group := 4;
                          Initializer_Pipeline.pipeline_stage_size := 2 |})
                    false {| backend := "nccl"; created := [] |}))
    /\ ranks_in_group (fst info) = Some [5; 7]
    /\ local_rank (fst info) = Some 1
    /\ group_world_size (fst info) = Some 2.
Proof.
  pose (a := Build_ProcessGroupInitializer 7 8 2 2 1 1 1 1).
  pose (o := OfPipeline
               {| Initializer_Pipeline.base := a;
                  Initializer_Pipeline.rank_num_per_dp_group := 4;
                  Initializer_Pipeline.pipeline_stage_size := 2 |}).
  pose (st := {| backend := "nccl"%string; created := [] |}).
  assert (Hc : construct Pipeline a = Ok o) by reflexivity.
  assert (Hfam : In [[0; 2]; [1; 3]; [4; 6]; [5; 7]] (families o))
    by (left; reflexivity).
  assert (Hrs : In [5; 7] [[0; 2]; [1; 3]; [4; 6]; [5; 7]])
    by (simpl; tauto).
  assert (Hr : In (rank a) [5; 7]) by (simpl; tauto).
  destruct (local_rank_is_index_in_partition Pipeline a o false st _ _
              Hc Hfam Hrs Hr)
    as (info & rs' & Hin & _ & _ & Hranks & (k & Hk & Hnth & _) & Hsize & Hsame).
  assert (Hcover : exact_cover 8 [[0; 2]; [1; 3]; [4; 6]; [5; 7]]).
  { apply permutation_exact_cover. apply NoDup_Permutation.
    - repeat constructor; simpl; intuition lia.
    - apply seq_NoDup.
    - intros y. simpl. intuition lia. }
  rewrite (Hsame 8 Hcover) in *.
  exists info. split; [exact Hin|]. split; [exact Hranks|]. split; [|exact Hsize].
  rewrite Hk. f_equal.
  destruct k as [|[|[|k]]]; simpl in Hnth; try discriminate; reflexivity.
Defined.

Lemma fallback_without_group (use_cpu : bool) (st : Transport) :
  fallback_as_requested use_cpu st no_locals.
Proof. intros h rs Hh. discriminate Hh. Qed.

Lemma member_partition_dec (r : nat) (l : list (list nat)) :
  (exists rs, In rs l /\ In r rs) \/ (forall rs, In rs l -> ~ In r rs).
Proof.
  induction l as [|rs l [(rs' & Hin & Hr)|Hno]].
  - right. intros rs [].
  - left. exists rs'. split; [now right|exact Hr].
  - destruct (in_dec Nat.eq_dec r rs) as [Hr|Hr].
    + left. exists rs. split; [now left|exact Hr].
    + right. intros rs' [<-|Hin]; auto.
Qed.

(** C8.  The partitions for which an initializer has primary groups made,
    in the order of the [new_group] calls, are the partitions of its
    families in the order of enumeration; they are a function of the
    topology alone: two runs on the same arguments issue them alike
    whatever the state of the transport (its backend, the groups made
    before) and the [use_cpu] flag of either run, and both runs end alike
    when the constructor raises. *)
Theorem resolver_is_deterministic
  (x : Axis) (a : ProcessGroupInitializer)
  (use_cpu1 use_cpu2 : bool) (st1 st2 : Transport) :
  primary_partitions (new_calls st1 (snd (initialize x a use_cpu1 st1)))
  = primary_partitions (new_calls st2 (snd (initialize x a use_cpu2 st2)))
  /\ primary_partitions (new_calls st1 (snd (initialize x a use_cpu1 st1)))
     = match resolve x a with
       | Ok fams => concat fams
       | Raise _ => []
       end
  /\ match resolve x a with
     | Ok _ => True
     | Raise e => fst (initialize x a use_cpu1 st1) = Raise e
                  /\ fst (initialize x a use_cpu2 st2) = Raise e
     end.
Proof.
  assert (Hrun : forall u st,
             primary_partitions (new_calls st (snd (initialize x a u st)))
             = match resolve x a with
               | Ok fams => concat fams
               | Raise _ => []
               end).
  { intros u st. unfold initialize, resolve, fmap, Py.bind.
    destruct (construct x a) as [o|e].
    - pose proof (init_dist_group_log o u st) as Hlog.
      destruct (init_dist_group o u st) as [infos st']. simpl in *. subst st'.
      rewrite new_calls_app. apply primary_of_calls.
    - simpl. unfold new_calls. now rewrite skipn_all. }
  split; [now rewrite !Hrun|]. split; [apply Hrun|].
  unfold initialize, resolve, fmap, Py.bind.
  destruct (construct x a) as [o|e]; [exact I|]. split; reflexivity.
Qed.

Lemma nth_error_map_range {B : Type} (f : nat -> B) (n i : nat) :
  i < n -> nth_error (map f (range n)) i = Some (f i).
Proof.
  intros Hi. unfold range. apply map_nth_error.
  rewrite nth_error_nth' with (d := 0) by now rewrite length_seq.
  now rewrite seq_nth.
Qed.

Lemma Expert_partition_length a o p :
  Initializer_Expert.__init__ a = Ok o ->
  In p (Initializer_Expert.partitions o) ->
  length p = world_size a / (world_size a / expert_parallel_size a).
Proof.
  intros H Hp. destruct (Expert_ok H) as (Hb & Hn & Hep & Hnz & Hmod & _).
  unfold Initializer_Expert.partitions in Hp. rewrite Hb, Hn in Hp.
  apply in_map_iff in Hp. destruct Hp as (i & <- & Hi). apply in_seq in Hi.
  rewrite range3_length. rewrite (exact_division _ _ Hmod) at 1.
  apply range_len_exact; lia.
Qed.

(* ================================================================== *)
(** * Properties of the splitting of parameter groups *)
(* ================================================================== *)

Module SplitFacts.

Import TrainUtils CoverFacts.

Section Facts.

Context {param A : Type} (env : Imports param).

Implicit Types (d : list (string * pgroup param A)) (g : pgroup param A)
         (p : param) (k : string).

Lemma has_key_cons {V : Type} k k' (v : V) (d : list (string * V)) :
  has_key k ((k', v) :: d) = String.eqb k k' || has_key k d.
Proof. reflexivity. Qed.

(** *** [dict_set] and the initial new groups *)

Lemma dict_set_Forall {V : Type} (P : string * V -> Prop) k (v : V)
  (d : list (string * V)) :
  P (k, v) -> Forall P d -> Forall P (dict_set k v d).
Proof.
  intros Hv. induction 1 as [|[k' v'] d Hk Hd IH]; simpl.
  - auto.
  - destruct (String.eqb k' k); auto.
Qed.

Lemma initial_new_groups_Forall (P : string * pgroup param A -> Prop) :
  (forall k a, P (k, {| name := Some k; params := []; attrs := a |})) ->
  Forall P (initial_new_groups (A := A) env).
Proof.
  intros HP. unfold initial_new_groups.
  assert (H0 : Forall P (dict_set "fp32"
                           {| name := Some "fp32"%string; params := [];
                              attrs := @nil (string * attr A) |} [])).
  { apply dict_set_Forall; auto. }
  destruct (1 <? num_experts env); [|exact H0].
  assert (Hfold : forall (f : string -> list (string * attr A)) keys d,
             Forall P d ->
             Forall P (fold_left
                         (fun d key =>
                            dict_set key {| name := Some key; params := [];
                                            attrs := f key |} d) keys d)).
  { induction keys as [|key keys IH]; intros d Hd; simpl; [exact Hd|].
    apply IH, dict_set_Forall; auto. }
  apply (Hfold (fun _ => [("moe"%string, PyTrue)])).
  apply (Hfold (fun key => [(key, PyTrue)])). exact H0.
Qed.

Lemma initial_new_groups_sorted :
  sorted_by_destination env (initial_new_groups (A := A) env).
Proof. apply initial_new_groups_Forall. intros k a. simpl. auto. Qed.



(** *** Copying attributes touches neither keys, names nor parameters *)

Lemma copy_attrs_shape g d :
  map (fun e => (fst e, name (snd e), params (snd e))) (copy_attrs g d)
  = map (fun e => (fst e, name (snd e), params (snd e))) d.
Proof.
  unfold copy_attrs. generalize (attrs g) as l. intros l. revert d.
  induction l as [|kv l IH]; intros d; simpl; [reflexivity|].
  rewrite IH, map_map. reflexivity.
Qed.

Lemma shape_keys d d' :
  map (fun e => (fst e, name (snd e), params (snd e))) d'
  = map (fun e => (fst e, name (snd e), params (snd e))) d ->
  map fst d' = map fst d.
Proof.
  intros H. apply (f_equal (map (fun t : string * option string * list param =>
                                   fst (fst t)))) in H.
  now rewrite !map_map in H.
Qed.



(** *** Appending a parameter to the group of a key *)

Lemma append_param_has_key k p d :
  has_key k d = true -> exists d', append_param k p d = Ok d'.
Proof.
  induction d as [|[k' g] d IH]; simpl; [discriminate|].
  rewrite has_key_cons, String.eqb_sym. destruct (String.eqb k' k); simpl; eauto.
  intros H. destruct (IH H) as (d' & ->). simpl. eauto.
Qed.

Lemma append_param_ok k p d d' :
  append_param k p d = Ok d' ->
  map fst d' = map fst d
  /\ Permutation (new_params d') (p :: new_params d)
  /\ (destination env p = Some k ->
      sorted_by_destination env d -> sorted_by_destination env d').
Proof.
  unfold new_params, all_params, sorted_by_destination. revert d'.
  induction d as [|[k' g] d IH]; intros d' H; simpl in H; [discriminate|].
  destruct (String.eqb_spec k' k) as [->|Hne].
  - injection H as <-. simpl. split; [reflexivity|]. split.
    + rewrite <- app_assoc. simpl. apply Permutation_sym, Permutation_middle.
    + intros Hdest Hs. inversion Hs as [|? ? (Hname & Hps) Hrest]; subst.
      constructor; [|exact Hrest]. simpl in *. split; [exact Hname|].
      apply Forall_app. split; [exact Hps|]. constructor; auto.
  - destruct (append_param k p d) as [d''|] eqn:E; simpl in H; [|discriminate].
    injection H as <-. destruct (IH d'' eq_refl) as (Hk & Hperm & Hsort).
    simpl. split; [now rewrite Hk|]. split.
    + rewrite Hperm. apply Permutation_sym, Permutation_middle.
    + intros Hdest Hs. inversion Hs; subst. constructor; auto.
Qed.

(** *** The loop over the parameters of one group *)

Lemma place_destination p (o : list param) d :
  place env p (o, d)
  = match destination env p with
    | Some k => Py.bind (append_param k p d) (fun d' => Ok (o, d'))
    | None => Ok (o ++ [p], d)
    end.
Proof.
  unfold place, destination.
  destruct ((1 <? num_experts env) && is_norm_param env p); [reflexivity|].
  destruct (is_gate_param env p); [reflexivity|].
  destruct (is_float32 env p); [reflexivity|].
  destruct (is_moe_param env p); reflexivity.
Qed.


Lemma for_each_cons {X S : Type} (body : X -> S -> result S) (x : X)
  (l : list X) (s : S) :
  for_each (x :: l) body s = Py.bind (body x s) (for_each l body).
Proof. reflexivity. Qed.

Lemma place_all_ok ps :
  forall (o : list param) d o' d',
    for_each ps (place env) (o, d) = Ok (o', d') ->
    o' = o ++ filter (stays env) ps
    /\ map fst d' = map fst d
    /\ Permutation (new_params d')
                   (new_params d ++ filter (fun p => negb (stays env p)) ps)
    /\ (sorted_by_destination env d -> sorted_by_destination env d').
Proof.
  induction ps as [|p ps IH]; intros o d o' d' H.
  - simpl in H. injection H as <- <-. now rewrite !app_nil_r.
  - rewrite for_each_cons, place_destination in H. unfold stays at 1 2. simpl.
    destruct (destination env p) as [k|] eqn:Hdest.
    + destruct (append_param k p d) as [d1|] eqn:E; simpl in H; [|discriminate].
      destruct (append_param_ok _ _ _ _ E) as (Hk & Hperm & Hsort).
      destruct (IH _ _ _ _ H) as (Ho & Hk' & Hperm' & Hsort').
      split; [exact Ho|]. split; [congruence|]. split.
      * rewrite Hperm', Hperm. simpl. apply Permutation_middle.
      * auto.
    + simpl in H. destruct (IH _ _ _ _ H) as (Ho & Hk' & Hperm' & Hsort').
      split; [now rewrite Ho, <- app_assoc|]. auto.
Qed.

Lemma place_all_returns ps :
  forall (o : list param) d,
    forallb (fun p => match destination env p with
                      | Some k => has_key k d
                      | None => true
                      end) ps = true ->
    exists r, for_each ps (place env) (o, d) = Ok r.
Proof.
  induction ps as [|p ps IH]; intros o d H; [simpl; eauto|].
  simpl in H. apply andb_true_iff in H. destruct H as (Hp & Hps).
  rewrite for_each_cons, place_destination. destruct (destination env p) as [k|] eqn:Hdest.
  - destruct (append_param_has_key k p d Hp) as (d1 & E). rewrite E. simpl.
    apply IH. destruct (append_param_ok _ _ _ _ E) as (Hk & _).
    unfold has_key. rewrite Hk. exact Hps.
  - simpl. apply IH, Hps.
Qed.

(** *** The loop over the groups *)

Lemma split_group_value_run g (done : list (pgroup param A)) d :
  split_group_value env g (done, d)
  = Py.bind (for_each (params g) (place env) ([], copy_attrs g d))
      (fun r => Ok (done ++ [set_params g (fst r)], snd r)).
Proof. reflexivity. Qed.


Lemma split_all_returns (ks : list string) (gs : list (pgroup param A)) :
  forallb (fun p => match destination env p with
                    | Some k => existsb (String.eqb k) ks
                    | None => true
                    end) (all_params gs) = true ->
  forall (done : list (pgroup param A)) d,
    map fst d = ks ->
    exists r, for_each gs (split_group_value env) (done, d) = Ok r.
Proof.
  induction gs as [|g gs IH]; intros H done d Hks; [simpl; eauto|].
  unfold all_params in H. simpl in H. rewrite forallb_app in H.
  apply andb_true_iff in H. destruct H as (Hg & Hgs).
  rewrite for_each_cons, split_group_value_run.
  pose proof (shape_keys _ _ (copy_attrs_shape g d)) as Hkeys.
  destruct (place_all_returns (params g) [] (copy_attrs g d)) as ([o1 d1] & E).
  { unfold has_key. rewrite Hkeys, Hks. exact Hg. }
  rewrite E. simpl. apply IH; [exact Hgs|].
  destruct (place_all_ok _ _ _ _ _ E) as (_ & Hk & _). congruence.
Qed.

(** *** Putting the output together *)






(** *** From the store to the values *)

(** With distinct references the loop over the store does what the loop
    over the values does, and leaves the treated groups in the store. *)
Lemma split_refs_values (refs : list ref) :
  NoDup refs ->
  forall (h : ref -> pgroup param A) d (done : list (pgroup param A)),
    match for_each (map h refs) (split_group_value env) (done, d) with
    | Ok (done', d') =>
        exists h', for_each refs (split_group env) (h, d) = Ok (h', d')
                   /\ done' = done ++ map h' refs
                   /\ forall r, ~ In r refs -> h' r = h r
    | Raise e => for_each refs (split_group env) (h, d) = Raise e
    end.
Proof.
  induction 1 as [|r rs Hnotin Hnd IH]; intros h d done.
  - simpl. exists h. now rewrite app_nil_r.
  - simpl map. rewrite !for_each_cons, split_group_value_run.
    unfold split_group.
    destruct (for_each (params (h r)) (place env) ([], copy_attrs (h r) d))
      as [[o1 d1]|e]; simpl; [|reflexivity].
    set (g1 := set_params (h r) o1). set (h1 := store_set h r g1).
    assert (Hrs : map h rs = map h1 rs).
    { apply map_ext_in. intros r' Hr'. unfold h1, store_set.
      destruct (Nat.eqb_spec r' r) as [->|_]; [contradiction|reflexivity]. }
    rewrite Hrs. specialize (IH h1 d1 (done ++ [g1])).
    destruct (for_each (map h1 rs) (split_group_value env) (done ++ [g1], d1))
      as [[done' d']|e]; [|exact IH].
    destruct IH as (h' & Hrun & Hdone & Hsame).
    exists h'. split; [exact Hrun|]. split.
    + rewrite Hdone, <- app_assoc. simpl. rewrite (Hsame r Hnotin).
      unfold h1, store_set. now rewrite Nat.eqb_refl.
    + intros r0 Hr0. rewrite Hsame by (intros Hin; apply Hr0; now right).
      unfold h1, store_set.
      destruct (Nat.eqb_spec r0 r) as [->|_]; [|reflexivity].
      exfalso. apply Hr0. now left.
Qed.

Lemma split_on_distinct_references (h : ref -> pgroup param A)
  (arg : param_groups_arg) (refs : list ref) :
  input_groups arg = Some refs -> NoDup refs ->
  split_params_into_different_groups_for_optimizer env h arg
  = split_values env (map h refs).
Proof.
  intros Harg Hnd.
  assert (Hrun : split_params_into_different_groups_for_optimizer env h arg
                 = Py.bind (for_each refs (split_group env)
                              (h, initial_new_groups env))
                     (fun r => Ok (map (fst r) refs
                                   ++ filter (fun g => truthy (params g))
                                             (map snd (snd r))))).
  { destruct arg; simpl in Harg; try discriminate; injection Harg as <-;
      reflexivity. }
  rewrite Hrun. unfold split_values.
  pose proof (split_refs_values refs Hnd h (initial_new_groups env) []) as H.
  destruct (for_each (map h refs) (split_group_value env)
              ([], initial_new_groups env)) as [[done' d']|e].
  - destruct H as (h' & -> & -> & _). reflexivity.
  - rewrite H. reflexivity.
Qed.

End Facts.

End SplitFacts.

Import TrainUtils SplitFacts.

(** A dictionary listed twice is pruned in the first turn, and the second
    turn finds nothing more to move: the parameter [1] is in the new group
    once. *)
Example same_dictionary_twice :
  split_params_into_different_groups_for_optimizer
    {| is_norm_param := fun _ => false;
       is_gate_param := fun _ => false;
       is_moe_param := fun _ => false;
       is_float32 := fun p => p =? 1;
       group_name := fun _ => "none"%string;
       num_experts := 0;
       expert_parallel_group_names := [] |}
    (fun _ => {| name := None; params := [1; 2];
                 attrs := @nil (string * attr nat) |})
    (OfList [0; 0])
  = Ok [{| name := None; params := [2]; attrs := [] |};
        {| name := None; params := [2]; attrs := [] |};
        {| name := Some "fp32"%string; params := [1]; attrs := [] |}].
Proof. reflexivity. Qed.

(* ================================================================== *)
(** * What a constructor does with a topology *)
(* ================================================================== *)

Module OutcomeFacts.

Import Dist PGI Spec Vocabulary.
Import PyFacts InitFacts.

Lemma not_in_two (x y : nat) : ~ In 0 [x; y] -> x <> 0 /\ y <> 0.
Proof. simpl. intros H. split; intros ->; apply H; auto. Qed.

Lemma not_in_one (x : nat) : ~ In 0 [x] -> x <> 0.
Proof. simpl. intros H ->. apply H. auto. Qed.

Ltac settle :=
  unfold floordiv, modulo, ceildiv, assert;
  repeat (match goal with
          | H : ?x <> 0 |- context [Nat.eqb ?x 0] =>
              rewrite (proj2 (Nat.eqb_neq x 0) H)
          | H : ?x = 0 |- context [Nat.eqb ?x 0] =>
              rewrite (proj2 (Nat.eqb_eq x 0) H)
          end; cbn [Py.bind]);
  cbn [Py.bind].

(** X1.  The outcome of the constructor of every axis, decided by the topology
    alone.  If one of the numbers it divides by is zero it raises
    [ZeroDivisionError], whatever the conditions of its [assert]s: every
    division is evaluated before the first condition that could fail.
    Otherwise it raises [AssertionError] when a condition of its [assert]s
    fails, and returns an object that holds the arguments unchanged when
    they all hold. *)
Theorem construct_outcome (x : Axis) (a : ProcessGroupInitializer) :
  (In 0 (divisors x a) -> construct x a = Raise ZeroDivisionError)
  /\ (~ In 0 (divisors x a) -> asserts_hold x a = false ->
      construct x a = Raise AssertionError)
  /\ (~ In 0 (divisors x a) -> asserts_hold x a = true ->
      exists o, construct x a = Ok o /\ args o = a).
Proof.
  split; [|split].
  - intros Hz. destruct x; simpl in Hz; unfold construct, fmap.
    + destruct Hz as [Hz|[]]. unfold Initializer_Data.__init__. now settle.
    + destruct Hz as [Hz|[]]. unfold Initializer_Model.__init__. cbv zeta.
      now settle.
    + unfold Initializer_Pipeline.__init__.
      destruct (Nat.eq_dec (data_parallel_size a) 0) as [Hd|Hd]; [now settle|].
      destruct Hz as [Hz|[Hz|[]]]; [congruence|]. now settle.
    + destruct Hz as [Hz|[]]. unfold Initializer_Tensor.__init__. now settle.
    + unfold Initializer_Zero1.__init__.
      destruct (Nat.eq_dec (data_parallel_size a) 0) as [Hd|Hd]; [now settle|].
      destruct Hz as [Hz|[Hz|[]]]; [congruence|]. now settle.
    + destruct Hz as [Hz|[]]. unfold Initializer_Nettest.__init__. now settle.
    + unfold Initializer_Expert.__init__.
      destruct (Nat.eq_dec (expert_parallel_size a) 0) as [He|He]; [now settle|].
      destruct Hz as [Hz|[Hz|[]]]; [congruence|]. now settle.
    + destruct Hz as [Hz|[]]. unfold Initializer_Expert_Data.__init__. now settle.
  - intros Hz Hf. destruct x; simpl in Hz, Hf; try discriminate;
      unfold construct, fmap.
    + apply not_in_one in Hz. unfold Initializer_Data.__init__. settle.
      now rewrite Hf.
    + apply not_in_one in Hz. unfold Initializer_Model.__init__. cbv zeta.
      settle. now rewrite Hf.
    + apply not_in_two in Hz. destruct Hz as (Hd & Hp).
      unfold Initializer_Pipeline.__init__. settle.
      destruct (world_size a mod data_parallel_size a =? 0); [|reflexivity].
      simpl in Hf. cbn [Py.bind]. now rewrite Hf.
    + apply not_in_one in Hz. unfold Initializer_Tensor.__init__. settle.
      now rewrite Hf.
    + apply not_in_two in Hz. destruct Hz as (Hd & Hzz).
      unfold Initializer_Zero1.__init__. settle.
      destruct (world_size a mod data_parallel_size a =? 0); [|reflexivity].
      simpl in Hf. cbn [Py.bind]. now rewrite Hf.
    + apply not_in_two in Hz. destruct Hz as (He & Hn).
      unfold Initializer_Expert.__init__. settle.
      destruct (world_size a mod (world_size a / expert_parallel_size a) =? 0);
        [|reflexivity].
      simpl in Hf. cbn [Py.bind]. now rewrite Hf.
  - intros Hz Ht. destruct x; simpl in Hz, Ht; unfold construct, fmap.
    + apply not_in_one in Hz. unfold Initializer_Data.__init__. settle.
      rewrite Ht. cbn [Py.bind]. eauto.
    + apply not_in_one in Hz. unfold Initializer_Model.__init__. cbv zeta.
      settle. rewrite Ht. cbn [Py.bind]. eauto.
    + apply not_in_two in Hz. destruct Hz as (Hd & Hp).
      apply andb_true_iff in Ht. destruct Ht as (H1 & H2).
      unfold Initializer_Pipeline.__init__. settle.
      rewrite H1. cbn [Py.bind]. rewrite H2. cbn [Py.bind]. eauto.
    + apply not_in_one in Hz. unfold Initializer_Tensor.__init__. settle.
      rewrite Ht. cbn [Py.bind]. eauto.
    + apply not_in_two in Hz. destruct Hz as (Hd & Hzz).
      apply andb_true_iff in Ht. destruct Ht as (H1 & H2).
      unfold Initializer_Zero1.__init__. settle.
      rewrite H1. cbn [Py.bind]. rewrite H2. cbn [Py.bind]. eauto.
    + apply not_in_one in Hz. unfold Initializer_Nettest.__init__. settle. eauto.
    + apply not_in_two in Hz. destruct Hz as (He & Hn).
      apply andb_true_iff in Ht. destruct Ht as (H1 & H2).
      unfold Initializer_Expert.__init__. settle.
      rewrite H1. cbn [Py.bind]. rewrite H2. cbn [Py.bind]. eauto.
    + apply not_in_one in Hz. unfold Initializer_Expert_Data.__init__. settle.
      eauto.
Qed.

Lemma construct_outcome_witness :
  construct Pipeline (Build_ProcessGroupInitializer 0 8 3 0 1 1 1 1)
  = Raise ZeroDivisionError
  /\ construct Pipeline (Build_ProcessGroupInitializer 0 8 3 2 1 1 1 1)
     = Raise AssertionError
  /\ exists o,
       construct Pipeline (Build_ProcessGroupInitializer 0 8 2 2 1 1 1 1) = Ok o
       /\ args o = Build_ProcessGroupInitializer 0 8 2 2 1 1 1 1.
Proof.
  split; [|split].
  - apply (proj1 (construct_outcome Pipeline
                    (Build_ProcessGroupInitializer 0 8 3 0 1 1 1 1))).
    simpl. auto.
  - apply (proj1 (proj2 (construct_outcome Pipeline
                           (Build_ProcessGroupInitializer 0 8 3 2 1 1 1 1)))).
    + simpl. intros [H|[H|[]]]; discriminate.
    + reflexivity.
  - apply (proj2 (proj2 (construct_outcome Pipeline
                           (Build_ProcessGroupInitializer 0 8 2 2 1 1 1 1)))).
    + simpl. intros [H|[H|[]]]; discriminate.
    + reflexivity.
Defined.

End OutcomeFacts.

(* ================================================================== *)
(** * What a run hands to [new_group] *)
(* ================================================================== *)

Module MadeFacts.

Import Dist PGI Spec Vocabulary.
Import PyFacts InitFacts LoopFacts.

(** The primary calls of a run are made for the partitions of the families,
    family after family, in the order of the loops. *)
Lemma made_of_families (x : Axis) (a : ProcessGroupInitializer) (o : Initializer)
  (u : bool) (st : Transport) :
  construct x a = Ok o ->
  partitions_made x a u st = concat (families o).
Proof.
  intros H. unfold partitions_made, initialize. rewrite H.
  pose proof (init_dist_group_log o u st) as Hlog.
  destruct (init_dist_group o u st) as [infos st']. simpl in *. subst st'.
  rewrite new_calls_app. apply primary_of_calls.
Qed.

Lemma gloo_of_calls (u : bool) (b : string) (l : list (list nat)) :
  gloo_partitions (flat_map (calls_for u b) l)
  = if u && negb (String.eqb b "gloo") then l else [].
Proof.
  unfold gloo_partitions.
  induction l as [|rs l IH]; simpl; [now destruct (u && _)|].
  rewrite filter_app, map_app, IH.
  destruct (u && negb (String.eqb b "gloo")); reflexivity.
Qed.

Lemma Data_made a o u st :
  Initializer_Data.__init__ a = Ok o ->
  partitions_made Data a u st = Initializer_Data.partitions o.
Proof.
  intros H. rewrite (made_of_families Data a (OfData o)).
  - simpl. apply app_nil_r.
  - unfold construct, fmap. now rewrite H.
Qed.

Lemma Model_made a o u st :
  Initializer_Model.__init__ a = Ok o ->
  partitions_made Model a u st = Initializer_Model.partitions o.
Proof.
  intros H. rewrite (made_of_families Model a (OfModel o)).
  - simpl. apply app_nil_r.
  - unfold construct, fmap. now rewrite H.
Qed.

Lemma Pipeline_made a o u st :
  Initializer_Pipeline.__init__ a = Ok o ->
  partitions_made Pipeline a u st = Initializer_Pipeline.partitions o.
Proof.
  intros H. rewrite (made_of_families Pipeline a (OfPipeline o)).
  - simpl. apply app_nil_r.
  - unfold construct, fmap. now rewrite H.
Qed.

Lemma Tensor_made a o u st :
  Initializer_Tensor.__init__ a = Ok o ->
  partitions_made Tensor a u st = Initializer_Tensor.partitions o.
Proof.
  intros H. rewrite (made_of_families Tensor a (OfTensor o)).
  - simpl. apply app_nil_r.
  - unfold construct, fmap. now rewrite H.
Qed.

Lemma Zero1_made a o u st :
  Initializer_Zero1.__init__ a = Ok o ->
  partitions_made Zero1 a u st = Initializer_Zero1.partitions o.
Proof.
  intros H. rewrite (made_of_families Zero1 a (OfZero1 o)).
  - simpl. apply app_nil_r.
  - unfold construct, fmap. now rewrite H.
Qed.

Lemma Nettest_made a o u st :
  Initializer_Nettest.__init__ a = Ok o ->
  partitions_made Nettest a u st = Initializer_Nettest.partitions o.
Proof.
  intros H. rewrite (made_of_families Nettest a (OfNettest o)).
  - simpl. apply app_nil_r.
  - unfold construct, fmap. now rewrite H.
Qed.

Lemma Expert_made a o u st :
  Initializer_Expert.__init__ a = Ok o ->
  partitions_made Expert a u st = Initializer_Expert.partitions o.
Proof.
  intros H. rewrite (made_of_families Expert a (OfExpert o)).
  - simpl. apply app_nil_r.
  - unfold construct, fmap. now rewrite H.
Qed.

Lemma Expert_Data_made a o u st :
  Initializer_Expert_Data.__init__ a = Ok o ->
  partitions_made Expert_Data a u st
  = fst (Initializer_Expert_Data._get_expert_parallel_ranks o)
    ++ snd (Initializer_Expert_Data._get_expert_parallel_ranks o).
Proof.
  intros H. rewrite (made_of_families Expert_Data a (OfExpert_Data o)).
  - simpl. destruct (Initializer_Expert_Data._get_expert_parallel_ranks o).
    simpl. now rewrite app_nil_r.
  - unfold construct, fmap. now rewrite H.
Qed.

End MadeFacts.

(* ================================================================== *)
(** * The tuple of each initializer in closed form *)
(* ================================================================== *)

Module TupleFacts.

Import Dist PGI Spec Vocabulary.
Import PyFacts CoverFacts InitFacts PartitionFacts LoopFacts.

(** The loop of an initializer that returns one tuple, for a rank that is
    in one of the partitions: the variables describe a partition with the
    rank in it. *)
Lemma loop_keeps (parts : list (list nat)) (r : nat) (u : bool) (st : Transport) :
  (exists rs, In rs parts /\ In r rs) ->
  exists rs' k,
    In rs' parts
    /\ ranks_in_group (fst (Dist.for_each parts (visit r u) no_locals st)) = Some rs'
    /\ local_rank (fst (Dist.for_each parts (visit r u) no_locals st)) = Some k
    /\ nth_error rs' k = Some r
    /\ group_world_size (fst (Dist.for_each parts (visit r u) no_locals st))
       = Some (length rs').
Proof.
  intros Hm.
  destruct (visit_all parts r u parts no_locals st (incl_refl _)) as (Hkeep & _).
  destruct (Hkeep (or_intror Hm)) as (rs' & Hin & _ & Hd & _).
  destruct Hd as (Hranks & (k & Hk & Hnth & _) & Hsize).
  exists rs', k. auto.
Qed.

(** For a rank that is in none of the partitions the variables stay
    [None]. *)
Lemma loop_misses (parts : list (list nat)) (r : nat) (u : bool) (st : Transport) :
  (forall rs, In rs parts -> ~ In r rs) ->
  fst (Dist.for_each parts (visit r u) no_locals st) = no_locals.
Proof.
  intros Hno.
  destruct (visit_all parts r u parts no_locals st (incl_refl _)) as (_ & Hsame).
  now apply Hsame.
Qed.

Lemma nth_error_map_seq (f : nat -> nat) (c k x : nat) :
  nth_error (map f (seq 0 c)) k = Some x -> k < c /\ x = f k.
Proof.
  intros H.
  assert (Hk : k < c).
  { rewrite <- (length_seq c 0), <- (length_map f). apply nth_error_Some. congruence. }
  split; [exact Hk|].
  pose proof (nth_error_map_range f c k Hk) as E. unfold range in E.
  rewrite E in H. congruence.
Qed.

Lemma member_of_cover (ws r : nat) (parts : list (list nat)) :
  Permutation (concat parts) (seq 0 ws) -> r < ws ->
  exists rs, In rs parts /\ In r rs.
Proof.
  intros HP Hr. apply in_concat. eapply Permutation_in.
  - apply Permutation_sym. exact HP.
  - apply in_seq. lia.
Qed.

Lemma div_mod_unique (b q r x : nat) :
  r < b -> x = b * q + r -> x / b = q /\ x mod b = r.
Proof.
  intros Hr Hx. split.
  - symmetry. apply (Nat.div_unique x b q r); assumption.
  - symmetry. apply (Nat.mod_unique x b q r); assumption.
Qed.


(** ** Data, Model and Tensor *)

(** X2.  The data-parallel tuple of a rank below [world_size]: with [s =
    world_size // data_parallel_size], the group is the ranks congruent to
    the rank modulo [s], and the local rank is the rank divided by [s]. *)
Theorem Data_tuple (a : ProcessGroupInitializer) (o : Initializer_Data.t)
  (use_cpu : bool) (st : Transport) :
  Initializer_Data.__init__ a = Ok o ->
  rank a < world_size a ->
  let s := world_size a / data_parallel_size a in
  let t := fst (Initializer_Data.init_dist_group o use_cpu st) in
  snd t = DATA
  /\ ranks_in_group (fst t)
     = Some (map (fun j => rank a mod s + j * s) (seq 0 (data_parallel_size a)))
  /\ local_rank (fst t) = Some (rank a / s)
  /\ group_world_size (fst t) = Some (data_parallel_size a).
Proof.
  intros H Hr s t. unfold t. rewrite Data_loop.
  destruct (Data_ok H) as (Hb & Hn & Hdp & Hmod).
  destruct (member_of_cover _ _ _ (Data_cover a o H) Hr) as (rs & Hrs & Hin).
  destruct (loop_keeps (Initializer_Data.partitions o) (rank a) use_cpu st
              (ex_intro _ rs (conj Hrs Hin)))
    as (rs' & k & Hrs' & Hranks & Hk & Hnth & Hsize).
  rewrite Hb in *.
  destruct (Dist.for_each _ _ _ st) as [v st']. simpl in *.
  unfold Initializer_Data.partitions, range in Hrs'. rewrite Hb, Hn in Hrs'.
  fold s in Hrs'. apply in_map_iff in Hrs'. destruct Hrs' as (i & <- & Hi).
  apply in_seq in Hi. apply nth_error_map_seq in Hnth. destruct Hnth as (Hkd & E).
  destruct (div_mod_unique s k i (rank a)) as (Hdiv & Hmodr); [lia|lia|].
  rewrite Hranks, Hk, Hsize, length_map, length_seq, Hdiv, Hmodr. auto.
Qed.

Lemma Data_tuple_witness :
  let t := fst (Initializer_Data.init_dist_group
                  {| Initializer_Data.base :=
                       Build_ProcessGroupInitializer 5 16 4 2 2 2 3 4;
                     Initializer_Data.rank_num_per_dp_group := 4 |}
                  false {| backend := "nccl"; created := [] |}) in
  snd t = DATA
  /\ ranks_in_group (fst t) = Some [1; 5; 9; 13]
  /\ local_rank (fst t) = Some 1
  /\ group_world_size (fst t) = Some 4.
Proof.
  pose (a := Build_ProcessGroupInitializer 5 16 4 2 2 2 3 4).
  assert (Hr : rank a < world_size a) by (simpl; lia).
  exact (Data_tuple a _ false {| backend := "nccl"; created := [] |} eq_refl Hr).
Defined.

Lemma block_member (b r i k : nat) :
  nth_error (map (fun j => i * b + j) (seq 0 b)) k = Some r ->
  r / b = i /\ r mod b = k
  /\ map (fun j => i * b + j) (seq 0 b) = seq (r / b * b) b.
Proof.
  intros Hnth. apply nth_error_map_seq in Hnth. destruct Hnth as (Hk & E).
  destruct (div_mod_unique b i k r) as (Hdiv & Hmodr); [lia|lia|].
  split; [exact Hdiv|]. split; [exact Hmodr|].
  rewrite Hdiv, map_add_seq. f_equal. lia.
Qed.

(** X3.  The model-parallel tuple of a rank below [world_size]: the group is the
    block of [tensor_parallel_size * pipeline_parallel_size] consecutive
    ranks the rank lies in, and the local rank is its offset in the
    block. *)
Theorem Model_tuple (a : ProcessGroupInitializer) (o : Initializer_Model.t)
  (use_cpu : bool) (st : Transport) :
  Initializer_Model.__init__ a = Ok o ->
  rank a < world_size a ->
  let b := tensor_parallel_size a * pipeline_parallel_size a in
  let t := fst (Initializer_Model.init_dist_group o use_cpu st) in
  snd t = MODEL
  /\ ranks_in_group (fst t) = Some (seq (rank a / b * b) b)
  /\ local_rank (fst t) = Some (rank a mod b)
  /\ group_world_size (fst t) = Some b.
Proof.
  intros H Hr b t. unfold t. rewrite Model_loop.
  destruct (Model_ok H) as (Hb & Hper & Hn & Hnz & Hmod).
  assert (Hcover : Permutation (concat (Initializer_Model.partitions o))
                               (seq 0 (world_size a))).
  { now rewrite (Model_partitions_concat a). }
  destruct (member_of_cover _ _ _ Hcover Hr) as (rs & Hrs & Hin).
  destruct (loop_keeps (Initializer_Model.partitions o) (rank a) use_cpu st
              (ex_intro _ rs (conj Hrs Hin)))
    as (rs' & k & Hrs' & Hranks & Hk & Hnth & Hsize).
  rewrite Hb in *.
  destruct (Dist.for_each _ _ _ st) as [v st']. simpl in *.
  unfold Initializer_Model.partitions, range in Hrs'. rewrite Hper in Hrs'.
  fold b in Hrs'. apply in_map_iff in Hrs'. destruct Hrs' as (i & <- & _).
  destruct (block_member b (rank a) i k Hnth) as (_ & Hmodr & Hseq).
  rewrite Hranks, Hk, Hsize, length_map, length_seq, Hseq, Hmodr. auto.
Qed.

Lemma Model_tuple_witness :
  let t := fst (Initializer_Model.init_dist_group
                  {| Initializer_Model.base :=
                       Build_ProcessGroupInitializer 5 16 4 2 2 2 3 4;
                     Initializer_Model.rank_num_per_group := 4;
                     Initializer_Model.num_group := 4 |}
                  false {| backend := "nccl"; created := [] |}) in
  snd t = MODEL
  /\ ranks_in_group (fst t) = Some [4; 5; 6; 7]
  /\ local_rank (fst t) = Some 1
  /\ group_world_size (fst t) = Some 4.
Proof.
  pose (a := Build_ProcessGroupInitializer 5 16 4 2 2 2 3 4).
  assert (Hr : rank a < world_size a) by (simpl; lia).
  exact (Model_tuple a _ false {| backend := "nccl"; created := [] |} eq_refl Hr).
Defined.

(** X4.  The tensor-parallel tuple of a rank below [world_size]: the group is
    the block of [tensor_parallel_size] consecutive ranks the rank lies in,
    and the local rank is its offset in the block. *)
Theorem Tensor_tuple (a : ProcessGroupInitializer) (o : Initializer_Tensor.t)
  (use_cpu : bool) (st : Transport) :
  Initializer_Tensor.__init__ a = Ok o ->
  rank a < world_size a ->
  let b := tensor_parallel_size a in
  let t := fst (Initializer_Tensor.init_dist_group o use_cpu st) in
  snd t = TENSOR
  /\ ranks_in_group (fst t) = Some (seq (rank a / b * b) b)
  /\ local_rank (fst t) = Some (rank a mod b)
  /\ group_world_size (fst t) = Some b.
Proof.
  intros H Hr b t. unfold t. rewrite Tensor_loop.
  destruct (Tensor_ok H) as (Hb & Hn & Hnz & Hmod).
  assert (Hcover : Permutation (concat (Initializer_Tensor.partitions o))
                               (seq 0 (world_size a))).
  { now rewrite (Tensor_partitions_concat a). }
  destruct (member_of_cover _ _ _ Hcover Hr) as (rs & Hrs & Hin).
  destruct (loop_keeps (Initializer_Tensor.partitions o) (rank a) use_cpu st
              (ex_intro _ rs (conj Hrs Hin)))
    as (rs' & k & Hrs' & Hranks & Hk & Hnth & Hsize).
  rewrite Hb in *.
  destruct (Dist.for_each _ _ _ st) as [v st']. simpl in *.
  unfold Initializer_Tensor.partitions, range in Hrs'. rewrite Hb in Hrs'.
  fold b in Hrs'. apply in_map_iff in Hrs'. destruct Hrs' as (i & <- & _).
  destruct (block_member b (rank a) i k Hnth) as (_ & Hmodr & Hseq).
  rewrite Hranks, Hk, Hsize, length_map, length_seq, Hseq, Hmodr. auto.
Qed.

Lemma Tensor_tuple_witness :
  let t := fst (Initializer_Tensor.init_dist_group
                  {| Initializer_Tensor.base :=
                       Build_ProcessGroupInitializer 5 16 4 2 2 2 3 4;
                     Initializer_Tensor.num_tensor_parallel_group := 8 |}
                  false {| backend := "nccl"; created := [] |}) in
  snd t = TENSOR
  /\ ranks_in_group (fst t) = Some [4; 5]
  /\ local_rank (fst t) = Some 1
  /\ group_world_size (fst t) = Some 2.
Proof.
  pose (a := Build_ProcessGroupInitializer 5 16 4 2 2 2 3 4).
  assert (Hr : rank a < world_size a) by (simpl; lia).
  exact (Tensor_tuple a _ false {| backend := "nccl"; created := [] |} eq_refl Hr).
Defined.


(** ** Pipeline *)

(** X5.  The pipeline tuple of a rank below [world_size]: with blocks of [B =
    world_size // data_parallel_size] ranks and the stride [s = B //
    pipeline_parallel_size], the group is every [s]-th rank of the block of
    the rank, from the offset of the rank modulo [s]; the local rank, the
    pipeline stage, is the offset in the block divided by [s]. *)
Theorem Pipeline_tuple (a : ProcessGroupInitializer) (o : Initializer_Pipeline.t)
  (use_cpu : bool) (st : Transport) :
  Initializer_Pipeline.__init__ a = Ok o ->
  rank a < world_size a ->
  let B := world_size a / data_parallel_size a in
  let s := B / pipeline_parallel_size a in
  let t := fst (Initializer_Pipeline.init_dist_group o use_cpu st) in
  snd t = PIPELINE
  /\ ranks_in_group (fst t)
     = Some (map (fun k => rank a / B * B + (rank a mod B) mod s + k * s)
                 (seq 0 (pipeline_parallel_size a)))
  /\ local_rank (fst t) = Some ((rank a mod B) / s)
  /\ group_world_size (fst t) = Some (pipeline_parallel_size a).
Proof.
  intros H Hr B s t. unfold t. rewrite Pipeline_loop.
  destruct (Pipeline_ok H) as (Hb & Hn & Hs & Hdp & Hpp & Hmod & Hmod').
  destruct (member_of_cover _ _ _ (Pipeline_cover a o H) Hr) as (rs & Hrs & Hin).
  destruct (loop_keeps (Initializer_Pipeline.partitions o) (rank a) use_cpu st
              (ex_intro _ rs (conj Hrs Hin)))
    as (rs' & k & Hrs' & Hranks & Hk & Hnth & Hsize).
  rewrite Hb in *.
  destruct (Dist.for_each _ _ _ st) as [v st']. simpl in *.
  unfold Initializer_Pipeline.partitions, range in Hrs'. rewrite Hb, Hn, Hs in Hrs'.
  fold B in Hrs', Hmod'. fold s in Hrs'.
  assert (HB : B = pipeline_parallel_size a * s) by now apply exact_division.
  apply in_flat_map in Hrs'. destruct Hrs' as (i & _ & Hrs').
  apply in_map_iff in Hrs'. destruct Hrs' as (j & <- & Hj). apply in_seq in Hj.
  assert (Hlen : range_len (i * B + j) ((i + 1) * B) s = pipeline_parallel_size a).
  { replace ((i + 1) * B) with (i * B + s * pipeline_parallel_size a) by lia.
    apply range_len_shift; lia. }
  unfold range3 in Hnth, Hsize, Hranks. rewrite Hlen in Hnth, Hsize, Hranks.
  apply nth_error_map_seq in Hnth. destruct Hnth as (Hkp & E).
  assert (Hoff : j + k * s < B).
  { assert (k * s + s <= pipeline_parallel_size a * s) by nia. lia. }
  destruct (div_mod_unique B i (j + k * s) (rank a)) as (Hdiv & Hmodr); [lia|lia|].
  destruct (div_mod_unique s k j (rank a mod B)) as (Hdiv' & Hmod''); [lia|lia|].
  rewrite Hranks, Hk, Hsize, length_map, length_seq, Hdiv, Hdiv', Hmod''. auto.
Qed.

Lemma Pipeline_tuple_witness :
  let t := fst (Initializer_Pipeline.init_dist_group
                  {| Initializer_Pipeline.base :=
                       Build_ProcessGroupInitializer 7 16 4 2 2 2 3 4;
                     Initializer_Pipeline.rank_num_per_dp_group := 4;
                     Initializer_Pipeline.pipeline_stage_size := 2 |}
                  false {| backend := "nccl"; created := [] |}) in
  snd t = PIPELINE
  /\ ranks_in_group (fst t) = Some [5; 7]
  /\ local_rank (fst t) = Some 1
  /\ group_world_size (fst t) = Some 2.
Proof.
  pose (a := Build_ProcessGroupInitializer 7 16 4 2 2 2 3 4).
  assert (Hr : rank a < world_size a) by (simpl; lia).
  exact (Pipeline_tuple a _ false {| backend := "nccl"; created := [] |} eq_refl Hr).
Defined.

(** ** Zero1 *)

(** The groups of the Zero1 initializer hold each rank below [zero1_reach]
    once and no other rank, whether or not [zero1_parallel_size] divides
    [data_parallel_size]. *)
Lemma Zero1_reach_cover a o :
  Initializer_Zero1.__init__ a = Ok o ->
  Permutation (concat (Initializer_Zero1.partitions o)) (seq 0 (zero1_reach a)).
Proof.
  intros H.
  destruct (Zero1_ok H) as (Hb & Hn & Hg & Hdp & Hznz & Hmod & _).
  unfold Initializer_Zero1.partitions, range, zero1_reach. rewrite Hb, Hn, Hg.
  set (B := world_size a / data_parallel_size a).
  set (g := data_parallel_size a / zero1_parallel_size a).
  set (z := zero1_parallel_size a) in *.
  apply uniform_cover with (n := B * g) (c := z).
  - rewrite (length_flat_map_const g); [now rewrite length_seq|].
    intros i _. now rewrite length_map, length_seq.
  - intros p Hp. apply in_flat_map in Hp. destruct Hp as (i & _ & Hp).
    apply in_map_iff in Hp. destruct Hp as (j & <- & _).
    now rewrite length_map, length_seq.
  - lia.
  - intros r Hr.
    assert (HBnz : B <> 0) by (intros E; rewrite E in Hr; lia).
    pose proof (Nat.div_mod_eq r B) as Hdm.
    pose proof (Nat.mod_upper_bound r B HBnz) as Hlt.
    pose proof (Nat.div_mod_eq (r / B) z) as Hdm'.
    pose proof (Nat.mod_upper_bound (r / B) z Hznz) as Hlt'.
    assert (Hq : r / B < z * g).
    { apply Nat.Div0.div_lt_upper_bound. lia. }
    exists (map (fun k => r mod B + (r / B / z * z + k) * B) (seq 0 z)). split.
    + apply in_flat_map. exists (r mod B). split; [apply in_seq; lia|].
      apply in_map_iff. exists (r / B / z). split; [reflexivity|].
      apply in_seq. split; [lia|]. simpl.
      apply Nat.Div0.div_lt_upper_bound. lia.
    + apply in_map_iff. exists ((r / B) mod z). split; [|apply in_seq; lia].
      replace (r / B / z * z + (r / B) mod z) with (r / B) by lia. lia.
Qed.

Lemma zero1_reach_le a :
  data_parallel_size a <> 0 -> zero1_reach a <= world_size a.
Proof.
  intros Hdp. unfold zero1_reach.
  pose proof (Nat.Div0.mul_div_le (data_parallel_size a) (zero1_parallel_size a)).
  pose proof (Nat.Div0.mul_div_le (world_size a) (data_parallel_size a)).
  nia.
Qed.

Lemma zero1_reach_all a :
  world_size a mod data_parallel_size a = 0 ->
  data_parallel_size a mod zero1_parallel_size a = 0 ->
  zero1_reach a = world_size a.
Proof.
  intros H1 H2. unfold zero1_reach.
  rewrite <- (exact_division _ _ H2). rewrite Nat.mul_comm.
  symmetry. now apply exact_division.
Qed.

(** X6.  The Zero1 tuple.  With [B = world_size // data_parallel_size] and [z =
    zero1_parallel_size]: a rank below [zero1_reach] (all ranks, when [z]
    divides [data_parallel_size]) gets the group of the [z] ranks [B] apart
    that starts at the rank's slot in its run of [z * B] ranks, and its
    local rank is [(rank // B) % z]; a rank from [zero1_reach] on gets no
    group at all, every entry of its tuple is [None]. *)
Theorem Zero1_tuple (a : ProcessGroupInitializer) (o : Initializer_Zero1.t)
  (use_cpu : bool) (st : Transport) :
  Initializer_Zero1.__init__ a = Ok o ->
  let B := world_size a / data_parallel_size a in
  let z := zero1_parallel_size a in
  let t := fst (Initializer_Zero1.init_dist_group o use_cpu st) in
  snd t = ZERO1
  /\ (rank a < zero1_reach a ->
      ranks_in_group (fst t)
      = Some (map (fun k => rank a mod B + (rank a / B / z * z + k) * B) (seq 0 z))
      /\ local_rank (fst t) = Some ((rank a / B) mod z)
      /\ group_world_size (fst t) = Some z)
  /\ (zero1_reach a <= rank a -> fst t = no_locals)
  /\ (data_parallel_size a mod zero1_parallel_size a = 0 ->
      zero1_reach a = world_size a).
Proof.
  intros H B z t. unfold t. rewrite Zero1_loop.
  destruct (Zero1_ok H) as (Hb & Hn & Hg & Hdp & Hznz & Hmod & _).
  pose proof (Zero1_reach_cover a o H) as Hcover.
  split; [now destruct (Dist.for_each _ _ _ st)|]. split; [|split].
  - intros Hr.
    destruct (member_of_cover _ _ _ Hcover Hr) as (rs & Hrs & Hin).
    destruct (loop_keeps (Initializer_Zero1.partitions o) (rank a) use_cpu st
                (ex_intro _ rs (conj Hrs Hin)))
      as (rs' & k & Hrs' & Hranks & Hk & Hnth & Hsize).
    rewrite Hb in *.
    destruct (Dist.for_each _ _ _ st) as [v st']. simpl in *.
    unfold Initializer_Zero1.partitions, range in Hrs'. rewrite Hb, Hn, Hg in Hrs'.
    fold B in Hrs'. fold z in Hrs', Hznz.
    apply in_flat_map in Hrs'. destruct Hrs' as (i & Hi & Hrs').
    apply in_seq in Hi.
    apply in_map_iff in Hrs'. destruct Hrs' as (j & <- & _).
    apply nth_error_map_seq in Hnth. destruct Hnth as (Hkz & E).
    destruct (div_mod_unique B (j * z + k) i (rank a)) as (Hdiv & Hmodr);
      [lia|lia|].
    destruct (div_mod_unique z j k (rank a / B)) as (Hdiv' & Hmod'); [lia|lia|].
    rewrite Hranks, Hk, Hsize, length_map, length_seq, Hmodr, Hdiv', Hmod'. auto.
  - intros Hr. rewrite Hb.
    assert (Hm : fst (Dist.for_each (Initializer_Zero1.partitions o)
                        (visit (rank a) use_cpu) no_locals st) = no_locals).
    { apply loop_misses. intros rs Hrs Hin.
      assert (Hseq : In (rank a) (seq 0 (zero1_reach a))).
      { eapply Permutation_in; [exact Hcover|]. apply in_concat. eauto. }
      apply in_seq in Hseq. lia. }
    now destruct (Dist.for_each _ _ _ st).
  - intros Hz. now apply zero1_reach_all.
Qed.

Lemma Zero1_tuple_witness :
  let t := fst (Initializer_Zero1.init_dist_group
                  {| Initializer_Zero1.base :=
                       Build_ProcessGroupInitializer 13 16 4 2 2 2 3 4;
                     Initializer_Zero1.rank_num_per_dp_group := 4;
                     Initializer_Zero1.num_zero1_parallel_group := 2 |}
                  false {| backend := "nccl"; created := [] |}) in
  snd t = ZERO1
  /\ ranks_in_group (fst t) = Some [9; 13]
  /\ local_rank (fst t) = Some 1
  /\ group_world_size (fst t) = Some 2.
Proof.
  pose (a := Build_ProcessGroupInitializer 13 16 4 2 2 2 3 4).
  destruct (Zero1_tuple a _ false {| backend := "nccl"; created := [] |} eq_refl)
    as (Hmode & Hin & _ & _).
  assert (Hr : rank a < zero1_reach a) by (vm_compute; lia).
  exact (conj Hmode (Hin Hr)).
Defined.


(** ** NetTest *)

(** Chunk [i] of the network test, without the loop: the consecutive ranks
    from [i * nettest_parallel_size], cut at [world_size]. *)
Lemma Nettest_group_seq (o : Initializer_Nettest.t) (i : nat) :
  let a := Initializer_Nettest.base o in
  Initializer_Nettest.group_ranks o i
  = seq (i * nettest_parallel_size a)
        (Nat.min (nettest_parallel_size a)
                 (world_size a - i * nettest_parallel_size a)).
Proof.
  intros a. rewrite Nettest_group_ranks. fold a. unfold range.
  rewrite map_add_seq, Nat.add_0_r. apply filter_below_seq.
Qed.

(** X7.  The network-test tuple of a rank below [world_size]: the group is the
    chunk of [nettest_parallel_size] consecutive ranks the rank lies in, cut
    at [world_size] when it is the last one; the local rank is the offset in
    the chunk, and the group size is the length of the chunk as cut. *)
Theorem Nettest_tuple (a : ProcessGroupInitializer) (o : Initializer_Nettest.t)
  (use_cpu : bool) (st : Transport) :
  Initializer_Nettest.__init__ a = Ok o ->
  rank a < world_size a ->
  let n := nettest_parallel_size a in
  let start := rank a / n * n in
  let t := fst (Initializer_Nettest.init_dist_group o use_cpu st) in
  snd t = NETTEST
  /\ ranks_in_group (fst t) = Some (seq start (Nat.min n (world_size a - start)))
  /\ local_rank (fst t) = Some (rank a mod n)
  /\ group_world_size (fst t) = Some (Nat.min n (world_size a - start))
  /\ 0 < Nat.min n (world_size a - start).
Proof.
  intros H Hr n start t. unfold t. rewrite Nettest_loop.
  destruct (Nettest_ok H) as (Hb & Hn & Hnt).
  assert (Hcover : Permutation (concat (Initializer_Nettest.partitions o))
                               (seq 0 (world_size a))).
  { now rewrite (Nettest_partitions_concat a). }
  destruct (member_of_cover _ _ _ Hcover Hr) as (rs & Hrs & Hin).
  destruct (loop_keeps (Initializer_Nettest.partitions o) (rank a) use_cpu st
              (ex_intro _ rs (conj Hrs Hin)))
    as (rs' & k & Hrs' & Hranks & Hk & Hnth & Hsize).
  rewrite Hb in *.
  destruct (Dist.for_each _ _ _ st) as [v st']. simpl in *.
  unfold Initializer_Nettest.partitions in Hrs'.
  apply in_map_iff in Hrs'. destruct Hrs' as (i & <- & _).
  rewrite Nettest_group_seq, Hb in Hnth, Hranks, Hsize. fold n in Hnth, Hranks, Hsize.
  rewrite <- (Nat.add_0_r (i * n)) in Hnth at 1. rewrite <- map_add_seq in Hnth.
  apply nth_error_map_seq in Hnth. destruct Hnth as (Hkn & E).
  destruct (div_mod_unique n i k (rank a)) as (Hdiv & Hmodr); [lia|lia|].
  unfold start. rewrite Hranks, Hk, Hsize, length_seq, Hdiv, Hmodr.
  repeat split. lia.
Qed.

Lemma Nettest_tuple_witness :
  let t := fst (Initializer_Nettest.init_dist_group
                  {| Initializer_Nettest.base :=
                       Build_ProcessGroupInitializer 15 16 4 2 2 2 3 4;
                     Initializer_Nettest.num_nettest_group := 6 |}
                  false {| backend := "nccl"; created := [] |}) in
  snd t = NETTEST
  /\ ranks_in_group (fst t) = Some [15]
  /\ local_rank (fst t) = Some 0
  /\ group_world_size (fst t) = Some 1
  /\ 0 < 1.
Proof.
  pose (a := Build_ProcessGroupInitializer 15 16 4 2 2 2 3 4).
  assert (Hr : rank a < world_size a) by (simpl; lia).
  exact (Nettest_tuple a _ false {| backend := "nccl"; created := [] |} eq_refl Hr).
Defined.

(** ** Expert *)

(** X8.  The expert-parallel tuple of a rank below [world_size]: with [n =
    world_size // expert_parallel_size] groups, the group is the ranks
    congruent to the rank modulo [n], the local rank is the rank divided by
    [n], and the group has [world_size // n] members. *)
Theorem Expert_tuple (a : ProcessGroupInitializer) (o : Initializer_Expert.t)
  (use_cpu : bool) (st : Transport) :
  Initializer_Expert.__init__ a = Ok o ->
  rank a < world_size a ->
  let n := world_size a / expert_parallel_size a in
  let t := fst (Initializer_Expert.init_dist_group o use_cpu st) in
  snd t = EXPERT
  /\ ranks_in_group (fst t)
     = Some (map (fun k => rank a mod n + k * n) (seq 0 (world_size a / n)))
  /\ local_rank (fst t) = Some (rank a / n)
  /\ group_world_size (fst t) = Some (world_size a / n).
Proof.
  intros H Hr n t. unfold t. rewrite Expert_loop.
  destruct (Expert_ok H) as (Hb & Hn & Hep & Hnz & Hmod & _).
  fold n in Hn, Hnz, Hmod.
  destruct (member_of_cover _ _ _ (Expert_cover a o H) Hr) as (rs & Hrs & Hin).
  destruct (loop_keeps (Initializer_Expert.partitions o) (rank a) use_cpu st
              (ex_intro _ rs (conj Hrs Hin)))
    as (rs' & k & Hrs' & Hranks & Hk & Hnth & Hsize).
  rewrite Hb in *.
  destruct (Dist.for_each _ _ _ st) as [v st']. simpl in *.
  unfold Initializer_Expert.partitions, range in Hrs'. rewrite Hb, Hn in Hrs'.
  apply in_map_iff in Hrs'. destruct Hrs' as (i & <- & Hi). apply in_seq in Hi.
  assert (Hlen : range_len i (world_size a) n = world_size a / n).
  { rewrite (exact_division _ _ Hmod) at 1. apply range_len_exact; lia. }
  unfold range3 in Hnth, Hsize, Hranks. rewrite Hlen in Hnth, Hsize, Hranks.
  apply nth_error_map_seq in Hnth. destruct Hnth as (Hkm & E).
  destruct (div_mod_unique n k i (rank a)) as (Hdiv & Hmodr); [lia|lia|].
  rewrite Hranks, Hk, Hsize, length_map, length_seq, Hdiv, Hmodr. auto.
Qed.

Lemma Expert_tuple_witness :
  let t := fst (Initializer_Expert.init_dist_group
                  {| Initializer_Expert.base :=
                       Build_ProcessGroupInitializer 5 16 4 2 2 2 3 4;
                     Initializer_Expert.num_expert_parallel_group := 4 |}
                  false {| backend := "nccl"; created := [] |}) in
  snd t = EXPERT
  /\ ranks_in_group (fst t) = Some [1; 5; 9; 13]
  /\ local_rank (fst t) = Some 1
  /\ group_world_size (fst t) = Some 4.
Proof.
  pose (a := Build_ProcessGroupInitializer 5 16 4 2 2 2 3 4).
  assert (Hr : rank a < world_size a) by (simpl; lia).
  exact (Expert_tuple a _ false {| backend := "nccl"; created := [] |} eq_refl Hr).
Defined.

End TupleFacts.

(* ================================================================== *)
(** * No family holds a rank twice or a rank out of range *)
(* ================================================================== *)

Module WellFormedFacts.

Import Dist PGI Spec Vocabulary.
Import PyFacts CoverFacts InitFacts PartitionFacts LoopFacts TupleFacts.

Lemma NoDup_range3 (a b s : nat) : s <> 0 -> NoDup (range3 a b s).
Proof.
  intros Hs. unfold range3. apply NoDup_map_NoDup_ForallPairs; [|apply seq_NoDup].
  intros k k' _ _ E. nia.
Qed.

Lemma NoDup_concat_map_disjoint {X : Type} (f : X -> list nat) (l : list X) :
  NoDup l ->
  (forall x, In x l -> NoDup (f x)) ->
  (forall x y r, In x l -> In y l -> In r (f x) -> In r (f y) -> x = y) ->
  NoDup (concat (map f l)).
Proof.
  induction 1 as [|x l Hx Hl IH]; intros Hnd Hdis; simpl; [constructor|].
  apply NoDup_app.
  - apply Hnd. now left.
  - apply IH.
    + intros y Hy. apply Hnd. now right.
    + intros y y' r Hy Hy'. apply Hdis; now right.
  - intros r Hr Hin. apply in_concat in Hin. destruct Hin as (p & Hp & Hrp).
    apply in_map_iff in Hp. destruct Hp as (y & <- & Hy).
    assert (x = y)
      by (apply (Hdis x y r); [now left|now right|exact Hr|exact Hrp]).
    subst y. contradiction.
Qed.

(** Ranks [i, i+n, i+2n, ...] below any [ws], for [i] below [n]: every
    rank below [ws] once. *)
Lemma strided_cover_any (n ws : nat) :
  n <> 0 ->
  Permutation (concat (map (fun i => range3 i ws n) (range n))) (seq 0 ws).
Proof.
  intros Hn. unfold range. apply NoDup_Permutation.
  - apply NoDup_concat_map_disjoint.
    + apply seq_NoDup.
    + intros i _. now apply NoDup_range3.
    + intros i i' r Hi Hi' Hr Hr'. apply in_seq in Hi, Hi'.
      apply in_range3 in Hr, Hr'.
      destruct Hr as (k & E & _), Hr' as (k' & E' & _).
      destruct (div_mod_unique n k i r) as (_ & H1); [lia|lia|].
      destruct (div_mod_unique n k' i' r) as (_ & H2); [lia|lia|]. congruence.
  - apply seq_NoDup.
  - intros r. rewrite in_seq, in_concat. split.
    + intros (p & Hp & Hr). apply in_map_iff in Hp. destruct Hp as (i & <- & _).
      apply in_range3 in Hr. destruct Hr as (k & -> & Hk).
      apply range_len_bound in Hk. lia.
    + intros (_ & Hr). simpl in Hr.
      pose proof (Nat.div_mod_eq r n) as Hdm.
      pose proof (Nat.mod_upper_bound r n Hn) as Hlt.
      exists (range3 (r mod n) ws n). split.
      * apply in_map_iff. exists (r mod n). split; [reflexivity|apply in_seq; lia].
      * apply in_range3. exists (r / n). split; [lia|].
        apply range_len_lt; lia.
Qed.

(** [xs] is part of [ys]: what is in [xs] is in [ys], as many times at
    most. *)
Lemma part_NoDup {X : Type} (xs ys : list X) :
  (exists rest, Permutation (xs ++ rest) ys) ->
  NoDup ys -> NoDup xs /\ incl xs ys.
Proof.
  intros (rest & HP) Hnd. split.
  - apply (NoDup_app_remove_r xs rest).
    eapply Permutation_NoDup; [apply Permutation_sym; exact HP|exact Hnd].
  - intros x Hx. eapply Permutation_in; [exact HP|]. apply in_or_app. now left.
Qed.

Lemma part_trans {X : Type} (xs ys zs : list X) :
  (exists rest, Permutation (xs ++ rest) ys) ->
  (exists rest, Permutation (ys ++ rest) zs) ->
  exists rest, Permutation (xs ++ rest) zs.
Proof.
  intros (r1 & H1) (r2 & H2). exists (r1 ++ r2).
  rewrite app_assoc, H1. exact H2.
Qed.

Lemma part_flat_map {X Y : Type} (f g : X -> list Y) (l : list X) :
  (forall x, In x l -> exists rest, Permutation (f x ++ rest) (g x)) ->
  exists rest, Permutation (flat_map f l ++ rest) (flat_map g l).
Proof.
  induction l as [|x l IH]; intros H; simpl.
  - exists []. constructor.
  - destruct (H x (or_introl eq_refl)) as (r1 & H1).
    destruct IH as (r2 & H2); [intros y Hy; apply H; now right|].
    exists (r1 ++ r2). rewrite <- H1, <- H2.
    rewrite <- !app_assoc. apply Permutation_app_head.
    rewrite !app_assoc. apply Permutation_app_tail, Permutation_app_comm.
Qed.

Lemma zip_cons_part {X : Type} (l : list X) (rows : list (list X)) :
  exists rest, Permutation (concat (zip_cons l rows) ++ rest) (l ++ concat rows).
Proof.
  revert rows. induction l as [|x l IH]; intros rows.
  - exists (concat rows). reflexivity.
  - destruct rows as [|r rows].
    + exists (x :: l). simpl. now rewrite app_nil_r.
    + destruct (IH rows) as (rest & HP). exists rest. simpl.
      constructor. rewrite <- app_assoc, HP.
      rewrite !app_assoc. apply Permutation_app_tail, Permutation_app_comm.
Qed.

(** Transposing with truncation loses elements at most. *)
Lemma zip_star_part {X : Type} (ls : list (list X)) :
  exists rest, Permutation (concat (zip_star ls) ++ rest) (concat ls).
Proof.
  induction ls as [|l ls IH].
  - exists []. constructor.
  - destruct ls as [|l' ls].
    + exists []. simpl. rewrite !app_nil_r. clear. induction l; simpl; auto.
    + change (zip_star (l :: l' :: ls)) with (zip_cons l (zip_star (l' :: ls))).
      change (concat (l :: l' :: ls)) with (l ++ concat (l' :: ls)).
      destruct IH as (r2 & H2).
      destruct (zip_cons_part l (zip_star (l' :: ls))) as (r1 & H1).
      exists (r1 ++ r2). rewrite app_assoc, H1, <- app_assoc.
      now apply Permutation_app_head.
Qed.

Lemma chunks_part {X : Type} (d : list X) (dp ep : nat) :
  exists rest,
    Permutation (concat (map (fun i => slice d i (i + ep)) (range3 0 dp ep)) ++ rest) d.
Proof.
  unfold range3. rewrite slices_concat.
  exists (skipn (range_len 0 dp ep * ep) d). now rewrite firstn_skipn.
Qed.

(** The two families of the expert-data initializer are parts of the ranks
    below [world_size], whatever the sizes. *)
Lemma Expert_Data_parts (o : Initializer_Expert_Data.t) :
  let a := Initializer_Expert_Data.base o in
  (exists rest,
      Permutation
        (concat (fst (Initializer_Expert_Data._get_expert_parallel_ranks o)) ++ rest)
        (seq 0 (world_size a)))
  /\ (exists rest,
         Permutation
           (concat (snd (Initializer_Expert_Data._get_expert_parallel_ranks o)) ++ rest)
           (seq 0 (world_size a))).
Proof.
  intros a. rewrite Expert_Data_families. fold a. simpl fst. simpl snd.
  set (mp := pipeline_parallel_size a * tensor_parallel_size a).
  set (chunks := fun d : list nat =>
         map (fun i => slice d i (i + expert_parallel_size a))
             (range3 0 (data_parallel_size a) (expert_parallel_size a))).
  set (groups := map (fun i => range3 i (world_size a) mp) (range mp)).
  assert (Hgroups : exists rest,
             Permutation (flat_map (fun d : list nat => d) groups ++ rest)
                         (seq 0 (world_size a))).
  { rewrite flat_map_concat_map, map_id. unfold groups.
    destruct (Nat.eq_dec mp 0) as [E|Hmp].
    - rewrite E. exists (seq 0 (world_size a)). reflexivity.
    - exists []. rewrite app_nil_r. now apply strided_cover_any. }
  assert (He : exists rest,
             Permutation (concat (flat_map chunks groups) ++ rest)
                         (seq 0 (world_size a))).
  { apply part_trans with (ys := flat_map (fun d : list nat => d) groups);
      [|exact Hgroups].
    rewrite concat_flat_map. apply part_flat_map. intros d _. apply chunks_part. }
  split; [exact He|].
  apply part_trans with (ys := concat (flat_map chunks groups)); [|exact He].
  rewrite !concat_flat_map. apply part_flat_map. intros d _. apply zip_star_part.
Qed.

(** Every family of every initializer that its constructor returns is part
    of the ranks below [world_size]: together with some rest it is a
    rearrangement of [0 .. world_size - 1]. *)
Lemma families_part
  (x : Axis) (a : ProcessGroupInitializer) (o : Initializer)
  (fam : list (list nat)) :
  construct x a = Ok o -> In fam (families o) ->
  exists rest, Permutation (concat fam ++ rest) (seq 0 (world_size a)).
Proof.
  intros H Hfam.
  destruct x; unfold construct, fmap, Py.bind in H;
    match type of H with
    | match ?i with _ => _ end = _ => destruct i as [o'|] eqn:E
    end; try discriminate; injection H as <-; simpl in Hfam.
  - destruct Hfam as [<-|[]]. exists []. rewrite app_nil_r. now apply Data_cover.
  - destruct Hfam as [<-|[]]. exists [].
    now rewrite app_nil_r, (Model_partitions_concat a).
  - destruct Hfam as [<-|[]]. exists []. rewrite app_nil_r. now apply Pipeline_cover.
  - destruct Hfam as [<-|[]]. exists [].
    now rewrite app_nil_r, (Tensor_partitions_concat a).
  - destruct Hfam as [<-|[]].
    destruct (Zero1_ok E) as (_ & _ & _ & Hdp & _).
    exists (seq (zero1_reach a) (world_size a - zero1_reach a)).
    pose proof (zero1_reach_le a Hdp) as Hle.
    rewrite (Zero1_reach_cover a o' E), <- seq_app.
    now replace (zero1_reach a + (world_size a - zero1_reach a))
      with (world_size a) by lia.
  - destruct Hfam as [<-|[]]. exists [].
    now rewrite app_nil_r, (Nettest_partitions_concat a).
  - destruct Hfam as [<-|[]]. exists []. rewrite app_nil_r. now apply Expert_cover.
  - destruct (Expert_Data_ok E) as (Hb & _).
    destruct (Expert_Data_parts o') as (He & Hd). rewrite Hb in He, Hd.
    destruct (Initializer_Expert_Data._get_expert_parallel_ranks o') as [e d].
    destruct Hfam as [<-|[<-|[]]]; assumption.
Qed.

Import MadeFacts.

(** X9.  The rank lists that a run of [init_dist_group] hands to
    [new_group] are the lists its loops go through, in their order, and
    they never overlap and never leave the world: in every run of
    every initializer its constructor returns, no list holds a rank twice or
    a rank that is not below [world_size], and no rank is in two lists;
    for the expert-data initializer, whose run goes through the expert
    groups and then the expert-data groups of [_get_expert_parallel_ranks],
    no rank is in two lists of the same kind.  This holds for every accepted
    topology, also those in which ranks are left without a group. *)
Theorem families_never_overlap
  (x : Axis) (a : ProcessGroupInitializer) (o : Initializer)
  (use_cpu : bool) (st : Transport) :
  construct x a = Ok o ->
  let made := partitions_made x a use_cpu st in
  made = concat (families o)
  /\ (forall p r, In p made -> In r p -> r < world_size a)
  /\ (forall p, In p made -> NoDup p)
  /\ (x <> Expert_Data -> NoDup (concat made))
  /\ (forall oe, o = OfExpert_Data oe ->
        let g := Initializer_Expert_Data._get_expert_parallel_ranks oe in
        made = fst g ++ snd g
        /\ NoDup (concat (fst g)) /\ NoDup (concat (snd g))).
Proof.
  intros H made. unfold made. rewrite (made_of_families x a o _ _ H).
  assert (Hfam : forall fam, In fam (families o) ->
                   NoDup (concat fam)
                   /\ forall r, In r (concat fam) -> r < world_size a).
  { intros fam Hin.
    destruct (families_part x a o fam H Hin) as (rest & Hperm).
    assert (Hall : NoDup (concat fam ++ rest)).
    { apply (Permutation_NoDup (Permutation_sym Hperm)), seq_NoDup. }
    split; [exact (NoDup_app_remove_r _ _ Hall)|].
    intros r Hr.
    assert (Hseq : In r (seq 0 (world_size a))).
    { apply (Permutation_in r Hperm), in_or_app. now left. }
    apply in_seq in Hseq. lia. }
  assert (Hin : forall p, In p (concat (families o)) ->
                  exists fam, In fam (families o) /\ In p fam).
  { intros p Hp. apply in_concat in Hp. destruct Hp as (fam & Hf & Hp). eauto. }
  split; [reflexivity|]. split; [|split; [|split]].
  - intros p r Hp Hr. destruct (Hin p Hp) as (fam & Hf & Hpf).
    apply (proj2 (Hfam fam Hf)). apply in_concat. eauto.
  - intros p Hp. destruct (Hin p Hp) as (fam & Hf & Hpf).
    exact (NoDup_concat_member fam p (proj1 (Hfam fam Hf)) Hpf).
  - intros Hx.
    destruct (init_dist_group_shape o) as
      [(parts & mode & Ef & _)|(e & d & Ef & _)].
    + rewrite Ef in *. simpl. rewrite app_nil_r.
      apply (Hfam parts). now left.
    + exfalso. apply Hx.
      destruct x; unfold construct, fmap, Py.bind in H;
        match type of H with
        | match ?i with _ => _ end = _ => destruct i as [o'|]
        end; try discriminate; injection H as <-; simpl in Ef;
        try discriminate; reflexivity.
  - intros oe ->. cbv zeta. simpl in *.
    destruct (Initializer_Expert_Data._get_expert_parallel_ranks oe) as [e d].
    simpl. rewrite app_nil_r. split; [reflexivity|]. split.
    + apply (Hfam e). now left.
    + apply (Hfam d). right. now left.
Qed.

Lemma families_never_overlap_witness :
  NoDup (concat (partitions_made Zero1
                   (Build_ProcessGroupInitializer 0 12 6 1 2 4 1 1) false
                   {| backend := "nccl"; created := [] |}))
  /\ partitions_made Zero1 (Build_ProcessGroupInitializer 0 12 6 1 2 4 1 1) false
       {| backend := "nccl"; created := [] |}
     = [[0; 2; 4; 6]; [1; 3; 5; 7]].
Proof.
  pose (a := Build_ProcessGroupInitializer 0 12 6 1 2 4 1 1).
  pose (o := OfZero1
               {| Initializer_Zero1.base := a;
                  Initializer_Zero1.rank_num_per_dp_group := 2;
                  Initializer_Zero1.num_zero1_parallel_group := 1 |}).
  assert (Hc : construct Zero1 a = Ok o) by reflexivity.
  destruct (families_never_overlap Zero1 a o false
              {| backend := "nccl"; created := [] |} Hc)
    as (_ & _ & _ & Hnd & _).
  split; [apply Hnd; discriminate|reflexivity].
Defined.

End WellFormedFacts.

(* ================================================================== *)
(** * What a run costs and what a stranger gets *)
(* ================================================================== *)

Module RunFacts.

Import Dist PGI Spec Vocabulary.
Import PyFacts CoverFacts InitFacts PartitionFacts LoopFacts TupleFacts
       WellFormedFacts.

(** The tuples that a loop of the expert-data initializer appends: one for
    each partition with the rank in it, in the order of the partitions,
    each with the mode of the loop. *)
Lemma visit_append_tuples (r : nat) (u : bool) (mode : ParallelMode) :
  forall l s st,
    exists added,
      snd (fst (Dist.for_each l (Initializer_Expert_Data.visit_append r u mode) s st))
      = snd s ++ added
      /\ map (fun info : Info => ranks_in_group (fst info)) added
         = map Some (filter (contains r) l)
      /\ map (fun info : Info => local_rank (fst info)) added
         = map (index r) (filter (contains r) l)
      /\ map (fun info : Info => group_world_size (fst info)) added
         = map (fun rs => Some (length rs)) (filter (contains r) l)
      /\ map snd added = map (fun _ => mode) (filter (contains r) l).
Proof.
  induction l as [|rs l IH]; intros s st.
  - exists []. simpl. now rewrite app_nil_r.
  - simpl Dist.for_each. unfold Dist.bind. rewrite visit_append_run.
    set (st1 := {| backend := backend st;
                   created := created st ++ calls_for u (backend st) rs |}).
    simpl filter. destruct (contains r rs) eqn:Hc.
    + cbv zeta.
      set (v := assign rs r (handles_for u (backend st) (length (created st)))).
      destruct (IH (v, snd s ++ [(v, mode)]) st1) as (added & Hres & H1 & H2 & H3 & H4).
      exists ((v, mode) :: added). simpl in Hres. simpl.
      rewrite Hres, <- app_assoc, H1, H2, H3, H4. auto.
    + destruct (IH s st1) as (added & Hres & H1 & H2 & H3 & H4).
      exists added. auto.
Qed.

Lemma filter_contains_none (r : nat) (l : list (list nat)) :
  (forall rs, In rs l -> ~ In r rs) -> filter (contains r) l = [].
Proof.
  induction l as [|rs l IH]; intros H; simpl; [reflexivity|].
  destruct (contains r rs) eqn:Hc.
  - apply contains_In in Hc. exfalso. apply (H rs); [now left|exact Hc].
  - apply IH. intros rs' Hin. apply H. now right.
Qed.

(** X10.  A process whose rank is not below [world_size] gets no group from any
    initializer: the one tuple of the seven initializers that return a
    tuple has [None] in every entry, and the expert-data initializer returns
    the empty list. *)
Theorem stranger_gets_no_group
  (x : Axis) (a : ProcessGroupInitializer) (o : Initializer)
  (use_cpu : bool) (st : Transport) :
  construct x a = Ok o ->
  world_size a <= rank a ->
  (forall info, In info (fst (init_dist_group o use_cpu st)) ->
                fst info = no_locals)
  /\ (x = Expert_Data -> fst (init_dist_group o use_cpu st) = [])
  /\ (x <> Expert_Data -> length (fst (init_dist_group o use_cpu st)) = 1).
Proof.
  intros Hc Hr.
  assert (Hout : forall fam rs, In fam (families o) -> In rs fam ->
                                ~ In (rank (args o)) rs).
  { intros fam rs Hfam Hrs Hin. rewrite (construct_args x a o Hc) in Hin.
    destruct (families_part x a o fam Hc Hfam) as (rest & Hperm).
    assert (Hseq : In (rank a) (seq 0 (world_size a))).
    { apply (Permutation_in (rank a) Hperm), in_or_app. left.
      apply in_concat. eauto. }
    apply in_seq in Hseq. lia. }
  assert (Hx : x = Expert_Data <-> exists e d, families o = [e; d]).
  { destruct x; unfold construct, fmap, Py.bind in Hc;
      match type of Hc with
      | match ?i with _ => _ end = _ => destruct i as [o'|] eqn:E
      end; try discriminate; injection Hc as <-; simpl;
      try (split; [discriminate|intros (e & d & Hf); discriminate]).
    split; [|reflexivity]. intros _.
    destruct (Initializer_Expert_Data._get_expert_parallel_ranks o') as [e d].
    eauto. }
  destruct (init_dist_group_shape o) as
    [(parts & mode & Ef & E)|(e & d & Ef & E)]; rewrite E.
  - assert (Hm : fst (Dist.for_each parts (visit (rank (args o)) use_cpu)
                        no_locals st) = no_locals).
    { apply loop_misses. intros rs Hrs. apply (Hout parts); [|exact Hrs].
      rewrite Ef. now left. }
    destruct (Dist.for_each parts _ _ st) as [v st']. simpl in *. subst v.
    split; [intros info [<-|[]]; reflexivity|]. split; [|reflexivity].
    intros Hx'. apply Hx in Hx'. destruct Hx' as (e & d & Hf). congruence.
  - destruct (visit_append_tuples (rank (args o)) use_cpu EXPERT e
                (no_locals, []) st) as (ae & Hae & He & _).
    destruct (Dist.for_each e _ _ st) as [s st']. simpl in Hae.
    destruct (visit_append_tuples (rank (args o)) use_cpu EXPERT_DATA d
                s st') as (ad & Had & Hd & _).
    destruct (Dist.for_each d _ s st') as [s' st'']. simpl in Had |- *.
    rewrite filter_contains_none in He
      by (intros rs Hrs; apply (Hout e); [rewrite Ef; now left|exact Hrs]).
    rewrite filter_contains_none in Hd
      by (intros rs Hrs; apply (Hout d);
          [rewrite Ef; right; now left|exact Hrs]).
    destruct ae; [|discriminate]. destruct ad; [|discriminate].
    rewrite Had, Hae. simpl.
    split; [intros info []|]. split; [reflexivity|].
    intros Hx'. exfalso. apply Hx'. apply Hx. eauto.
Qed.

Lemma stranger_gets_no_group_witness :
  Forall (fun info : Info => fst info = no_locals)
         (fst (init_dist_group
                 (OfData
                    {| Initializer_Data.base :=
                         Build_ProcessGroupInitializer 20 16 4 2 2 2 3 4;
                       Initializer_Data.rank_num_per_dp_group := 4 |})
                 false {| backend := "nccl"; created := [] |}))
  /\ length (fst (init_dist_group
                    (OfData
                       {| Initializer_Data.base :=
                            Build_ProcessGroupInitializer 20 16 4 2 2 2 3 4;
                          Initializer_Data.rank_num_per_dp_group := 4 |})
                    false {| backend := "nccl"; created := [] |})) = 1.
Proof.
  pose (a := Build_ProcessGroupInitializer 20 16 4 2 2 2 3 4).
  pose (o := OfData {| Initializer_Data.base := a;
                       Initializer_Data.rank_num_per_dp_group := 4 |}).
  assert (Hc : construct Data a = Ok o) by reflexivity.
  assert (Hr : world_size a <= rank a) by (simpl; lia).
  destruct (stranger_gets_no_group Data a o false
              {| backend := "nccl"; created := [] |} Hc Hr)
    as (Hnone & _ & Hone).
  split.
  - apply Forall_forall. exact Hnone.
  - apply Hone. discriminate.
Defined.

(** ** Counting groups and calls *)

Lemma calls_for_length (u : bool) (b : string) (rs : list nat) :
  length (calls_for u b rs) = calls_per_partition u b.
Proof.
  unfold calls_for, calls_per_partition.
  now destruct (u && negb (String.eqb b "gloo")).
Qed.

(** X11.  A run of [init_dist_group] makes one [new_group] call for each
    partition of each family, and a second one for each when [use_cpu] is
    set and the active backend is not gloo; it leaves the active backend as
    it was and the groups made before in place. *)
Theorem calls_of_a_run
  (x : Axis) (a : ProcessGroupInitializer) (o : Initializer)
  (use_cpu : bool) (st : Transport) :
  construct x a = Ok o ->
  let st' := snd (init_dist_group o use_cpu st) in
  length (new_calls st st')
  = length (concat (families o)) * calls_per_partition use_cpu (backend st)
  /\ backend st' = backend st
  /\ firstn (length (created st)) (created st') = created st.
Proof.
  intros _ st'. unfold st'. rewrite init_dist_group_log. simpl.
  rewrite new_calls_app. split; [|split; [reflexivity|]].
  - apply length_flat_map_const. intros rs _. apply calls_for_length.
  - rewrite firstn_app, Nat.sub_diag, firstn_all. simpl. now rewrite app_nil_r.
Qed.

Lemma calls_of_a_run_witness :
  length (new_calls
            {| backend := "nccl"; created := [] |}
            (snd (init_dist_group
                    (OfData
                       {| Initializer_Data.base :=
                            Build_ProcessGroupInitializer 5 16 4 2 2 2 3 4;
                          Initializer_Data.rank_num_per_dp_group := 4 |})
                    true {| backend := "nccl"; created := [] |})))
  = 8.
Proof.
  pose (a := Build_ProcessGroupInitializer 5 16 4 2 2 2 3 4).
  pose (o := OfData {| Initializer_Data.base := a;
                       Initializer_Data.rank_num_per_dp_group := 4 |}).
  assert (Hc : construct Data a = Ok o) by reflexivity.
  exact (proj1 (calls_of_a_run Data a o true
                  {| backend := "nccl"; created := [] |} Hc)).
Defined.

End RunFacts.

(* ================================================================== *)
(** * The two tuples of the expert-data initializer *)
(* ================================================================== *)

Module ExpertDataFacts.

Import Dist PGI Spec Vocabulary.
Import PyFacts CoverFacts InitFacts PartitionFacts LoopFacts TupleFacts
       WellFormedFacts RunFacts.

Lemma one_partition_holds (r : nat) (l : list (list nat)) (rs : list nat) :
  NoDup (concat l) -> In rs l -> In r rs -> filter (contains r) l = [rs].
Proof.
  induction l as [|p l IH]; intros Hnd Hrs Hr; [easy|].
  simpl in Hnd. simpl filter. destruct (contains r p) eqn:Hc.
  - apply contains_In in Hc.
    assert (Hno : forall rs', In rs' l -> ~ In r rs').
    { intros rs' Hin Hr'. apply (NoDup_app_disjoint _ _ r Hnd Hc).
      apply in_concat. eauto. }
    rewrite (filter_contains_none r l Hno).
    destruct Hrs as [->|Hrs]; [reflexivity|]. exfalso. now apply (Hno rs).
  - destruct Hrs as [->|Hrs].
    + apply contains_In in Hr. congruence.
    + apply IH; auto. eapply NoDup_app_remove_l; eauto.
Qed.

Lemma firstn_seq_prefix (n s len : nat) :
  n <= len -> firstn n (seq s len) = seq s n.
Proof.
  intros H. replace len with (n + (len - n)) by lia.
  rewrite seq_app. rewrite <- (length_seq n s) at 1.
  rewrite <- (Nat.add_0_r (length (seq s n))), firstn_app_2. simpl.
  apply app_nil_r.
Qed.

(** A slice of a list given by a formula. *)
Lemma slice_map_seq (f : nat -> nat) (n i m : nat) :
  i + m <= n ->
  slice (map f (seq 0 n)) i (i + m) = map (fun o => f (i + o)) (seq 0 m).
Proof.
  intros H. unfold slice. replace (i + m - i) with m by lia.
  rewrite skipn_map, skipn_seq, firstn_map, firstn_seq_prefix by lia.
  rewrite (Nat.add_comm 0 i), <- map_add_seq, map_map. reflexivity.
Qed.

Lemma zip_cons_map {X Y : Type} (g : X -> Y) (h : X -> list Y) (l : list X) :
  zip_cons (map g l) (map h l) = map (fun x => g x :: h x) l.
Proof. induction l as [|x l IH]; simpl; [reflexivity|]. now rewrite IH. Qed.

(** Transposing a table given by a formula. *)
Lemma zip_star_table {Y : Type} (f : nat -> nat -> Y) (m n s : nat) :
  n <> 0 ->
  zip_star (map (fun c => map (fun o => f c o) (seq 0 m)) (seq s n))
  = map (fun o => map (fun c => f c o) (seq s n)) (seq 0 m).
Proof.
  intros Hn. revert s. induction n as [|n IH]; intros s; [contradiction|].
  destruct n as [|n].
  - simpl. now rewrite map_map.
  - change (seq s (S (S n))) with (s :: seq (S s) (S n)).
    rewrite map_cons.
    change (zip_star (?l :: map ?g (seq (S s) (S n))))
      with (zip_cons l (zip_star (map g (seq (S s) (S n))))).
    rewrite IH by discriminate. rewrite zip_cons_map. reflexivity.
Qed.

Lemma flat_map_ext_in {X Y : Type} (f g : X -> list Y) (l : list X) :
  (forall x, In x l -> f x = g x) -> flat_map f l = flat_map g l.
Proof.
  induction l as [|x l IH]; intros H; simpl; [reflexivity|].
  rewrite (H x (or_introl eq_refl)), IH; auto. intros y Hy. apply H. now right.
Qed.

Lemma flat_map_of_map {X Y Z : Type} (f : Y -> list Z) (g : X -> Y) (l : list X) :
  flat_map f (map g l) = flat_map (fun x => f (g x)) l.
Proof. now rewrite !flat_map_concat_map, map_map. Qed.

(** The two families as tables, for a topology in which [world_size =
    data_parallel_size * pipeline_parallel_size * tensor_parallel_size] and
    [expert_parallel_size] divides [data_parallel_size]: rank [i + (c * ep
    + k) * mp] is member [k] of expert group [c] of data-parallel group
    [i], and member [c] of its expert-data group [k]. *)
Lemma Expert_Data_tables a o :
  Initializer_Expert_Data.__init__ a = Ok o ->
  world_size a
  = data_parallel_size a * (pipeline_parallel_size a * tensor_parallel_size a) ->
  data_parallel_size a mod expert_parallel_size a = 0 ->
  data_parallel_size a <> 0 ->
  let mp := pipeline_parallel_size a * tensor_parallel_size a in
  let ep := expert_parallel_size a in
  let Q := data_parallel_size a / ep in
  Initializer_Expert_Data._get_expert_parallel_ranks o
  = (flat_map (fun i =>
                 map (fun c => map (fun k => i + (c * ep + k) * mp) (seq 0 ep))
                     (seq 0 Q)) (range mp),
     flat_map (fun i =>
                 map (fun k => map (fun c => i + (c * ep + k) * mp) (seq 0 Q))
                     (seq 0 ep)) (range mp)).
Proof.
  intros H Hws Hdiv Hdp mp ep Q.
  destruct (Expert_Data_ok H) as (Hb & _ & Hep). fold ep in Hep.
  pose proof (exact_division _ _ Hdiv) as HQ. fold ep in HQ. fold Q in HQ.
  assert (HQnz : Q <> 0) by (intros E; rewrite E in HQ; lia).
  rewrite Expert_Data_families, Hb. fold mp. fold ep.
  assert (Hchunks : forall i, In i (range mp) ->
             map (fun c' => slice (range3 i (world_size a) mp) c' (c' + ep))
                 (range3 0 (data_parallel_size a) ep)
             = map (fun c => map (fun k => i + (c * ep + k) * mp) (seq 0 ep))
                   (seq 0 Q)).
  { intros i Hi. apply in_seq in Hi.
    assert (Hg : range3 i (world_size a) mp
                 = map (fun j => i + j * mp) (seq 0 (data_parallel_size a))).
    { unfold range3. f_equal. f_equal.
      replace (world_size a) with (mp * data_parallel_size a) by lia.
      apply range_len_exact; lia. }
    assert (Hr : range3 0 (data_parallel_size a) ep
                 = map (fun c => 0 + c * ep) (seq 0 Q)).
    { unfold range3. f_equal. f_equal. rewrite HQ at 1.
      apply range_len_exact; lia. }
    rewrite Hg, Hr, map_map. apply map_ext_in. intros c Hc. apply in_seq in Hc.
    rewrite slice_map_seq by nia. apply map_ext. intros k. f_equal. }
  f_equal.
  - rewrite flat_map_of_map. now apply flat_map_ext_in.
  - rewrite flat_map_of_map. apply flat_map_ext_in. intros i Hi.
    rewrite (Hchunks i Hi). now apply zip_star_table.
Qed.

(** X12.  The expert-data initializer on a topology with [world_size =
    data_parallel_size * pipeline_parallel_size * tensor_parallel_size] in
    which [expert_parallel_size] divides [data_parallel_size], for a rank
    below [world_size]: it returns exactly two tuples, the expert-parallel
    one and then the expert-data one.  With [mp = pipeline_parallel_size *
    tensor_parallel_size] and [q = rank // mp] the position of the rank in
    its data-parallel group, the expert group is the chunk of
    [expert_parallel_size] members of that group around position [q] and
    the local rank in it is [q % expert_parallel_size]; the expert-data
    group takes the member at that offset from every chunk, and the local
    rank in it is [q // expert_parallel_size]. *)
Theorem Expert_Data_tuples
  (a : ProcessGroupInitializer) (o : Initializer_Expert_Data.t)
  (use_cpu : bool) (st : Transport) :
  Initializer_Expert_Data.__init__ a = Ok o ->
  world_size a
  = data_parallel_size a * (pipeline_parallel_size a * tensor_parallel_size a) ->
  data_parallel_size a mod expert_parallel_size a = 0 ->
  rank a < world_size a ->
  let mp := pipeline_parallel_size a * tensor_parallel_size a in
  let ep := expert_parallel_size a in
  let Q := data_parallel_size a / ep in
  let q := rank a / mp in
  exists v1 v2,
    fst (Initializer_Expert_Data.init_dist_group o use_cpu st)
    = [(v1, EXPERT); (v2, EXPERT_DATA)]
    /\ ranks_in_group v1
       = Some (map (fun k => rank a mod mp + (q / ep * ep + k) * mp) (seq 0 ep))
    /\ local_rank v1 = Some (q mod ep)
    /\ group_world_size v1 = Some ep
    /\ ranks_in_group v2
       = Some (map (fun c => rank a mod mp + (c * ep + q mod ep) * mp) (seq 0 Q))
    /\ local_rank v2 = Some (q / ep)
    /\ group_world_size v2 = Some Q.
Proof.
  intros H Hws Hdiv Hr mp ep Q q.
  destruct (Expert_Data_ok H) as (Hb & _ & Hep). fold ep in Hep.
  assert (Hdp : data_parallel_size a <> 0) by (intros E; rewrite E in Hws; lia).
  destruct (Expert_Data_cover a o H Hws Hdiv) as (Hce & Hcd).
  pose proof (Expert_Data_tables a o H Hws Hdiv Hdp) as Htab.
  fold mp in Htab. fold ep in Htab. fold Q in Htab.
  unfold Initializer_Expert_Data.init_dist_group, Dist.bind, Dist.ret.
  rewrite Htab in *. simpl fst in Hce. simpl snd in Hcd. rewrite Hb.
  set (e := flat_map _ (range mp)) in *.
  set (d := flat_map _ (range mp)) in Hcd |- *.
  destruct (member_of_cover _ _ _ Hce Hr) as (rs1 & Hrs1 & Hin1).
  destruct (member_of_cover _ _ _ Hcd Hr) as (rs2 & Hrs2 & Hin2).
  assert (Hnd1 : NoDup (concat e)).
  { eapply Permutation_NoDup; [apply Permutation_sym; exact Hce|apply seq_NoDup]. }
  assert (Hnd2 : NoDup (concat d)).
  { eapply Permutation_NoDup; [apply Permutation_sym; exact Hcd|apply seq_NoDup]. }
  destruct (visit_append_tuples (rank a) use_cpu EXPERT e (no_locals, []) st)
    as (ae & Hae & He1 & He2 & He3 & He4).
  destruct (Dist.for_each e _ _ st) as [s st']. simpl in Hae.
  destruct (visit_append_tuples (rank a) use_cpu EXPERT_DATA d s st')
    as (ad & Had & Hd1 & Hd2 & Hd3 & Hd4).
  destruct (Dist.for_each d _ s st') as [s' st'']. simpl in Had |- *.
  rewrite (one_partition_holds _ _ _ Hnd1 Hrs1 Hin1) in He1, He2, He3, He4.
  rewrite (one_partition_holds _ _ _ Hnd2 Hrs2 Hin2) in Hd1, Hd2, Hd3, Hd4.
  destruct ae as [|[v1 m1] [|? ?]]; try discriminate.
  destruct ad as [|[v2 m2] [|? ?]]; try discriminate.
  simpl in *.
  injection He1 as He1. injection He2 as He2. injection He3 as He3.
  injection He4 as ->.
  injection Hd1 as Hd1. injection Hd2 as Hd2. injection Hd3 as Hd3.
  injection Hd4 as ->.
  exists v1, v2. rewrite Had, Hae. split; [reflexivity|].
  destruct (index_first _ _ Hin1) as (k1 & Hk1 & Hnth1 & _).
  destruct (index_first _ _ Hin2) as (k2 & Hk2 & Hnth2 & _).
  unfold e in Hrs1. apply in_flat_map in Hrs1. destruct Hrs1 as (i1 & Hi1 & Hrs1).
  apply in_seq in Hi1. apply in_map_iff in Hrs1. destruct Hrs1 as (c1 & <- & Hc1).
  apply nth_error_map_seq in Hnth1. destruct Hnth1 as (Hk1e & E1).
  destruct (div_mod_unique mp (c1 * ep + k1) i1 (rank a)) as (Hq1 & Hm1);
    [lia|lia|].
  destruct (div_mod_unique ep c1 k1 (rank a / mp)) as (Hc1' & Hk1'); [lia|lia|].
  unfold d in Hrs2. apply in_flat_map in Hrs2. destruct Hrs2 as (i2 & Hi2 & Hrs2).
  apply in_seq in Hi2. apply in_map_iff in Hrs2. destruct Hrs2 as (o2 & <- & Ho2).
  apply in_seq in Ho2.
  apply nth_error_map_seq in Hnth2. destruct Hnth2 as (Hk2q & E2).
  destruct (div_mod_unique mp (k2 * ep + o2) i2 (rank a)) as (Hq2 & Hm2);
    [lia|lia|].
  destruct (div_mod_unique ep k2 o2 (rank a / mp)) as (Hc2' & Hk2'); [lia|lia|].
  unfold q. rewrite He1, He2, He3, Hd1, Hd2, Hd3, Hk1, Hk2, !length_map, !length_seq.
  rewrite <- Hm1, <- Hc1', <- Hk1', <- Hm2, <- Hc2', <- Hk2'. auto 10.
Qed.

Lemma Expert_Data_tuples_witness :
  exists v1 v2,
    fst (Initializer_Expert_Data.init_dist_group
           {| Initializer_Expert_Data.base :=
                Build_ProcessGroupInitializer 13 16 4 2 2 2 3 2;
              Initializer_Expert_Data.num_expert_parallel_group := 8 |}
           false {| backend := "nccl"; created := [] |})
    = [(v1, EXPERT); (v2, EXPERT_DATA)]
    /\ ranks_in_group v1 = Some [9; 13]
    /\ local_rank v1 = Some 1
    /\ group_world_size v1 = Some 2
    /\ ranks_in_group v2 = Some [5; 13]
    /\ local_rank v2 = Some 1
    /\ group_world_size v2 = Some 2.
Proof.
  pose (a := Build_ProcessGroupInitializer 13 16 4 2 2 2 3 2).
  assert (Hws : world_size a
                = data_parallel_size a
                  * (pipeline_parallel_size a * tensor_parallel_size a))
    by reflexivity.
  assert (Hep : data_parallel_size a mod expert_parallel_size a = 0)
    by reflexivity.
  assert (Hr : rank a < world_size a) by (simpl; lia).
  exact (Expert_Data_tuples a _ false {| backend := "nccl"; created := [] |}
           eq_refl Hws Hep Hr).
Defined.

End ExpertDataFacts.

(* ================================================================== *)
(** * How the axes fit together *)
(* ================================================================== *)

Module GridFacts.

Import Dist PGI Spec Vocabulary.
Import PyFacts CoverFacts InitFacts PartitionFacts LoopFacts MadeFacts TupleFacts
       WellFormedFacts RunFacts ExpertDataFacts.

(** X13.  With the equality that the Expert initializer asserts, and [world_size
    = data_parallel_size * pipeline_parallel_size * tensor_parallel_size]:
    a run of the Expert initializer hands [world_size //
    expert_parallel_size] rank lists to [new_group]; a run of the
    expert-data initializer hands over the very same lists first, in the
    same order, which are the expert groups of [_get_expert_parallel_ranks],
    and after them only lists of a single rank. *)
Theorem Expert_and_Expert_Data_agree
  (a : ProcessGroupInitializer)
  (oe : Initializer_Expert.t) (od : Initializer_Expert_Data.t)
  (u1 u2 : bool) (st1 st2 : Transport) :
  Initializer_Expert.__init__ a = Ok oe ->
  Initializer_Expert_Data.__init__ a = Ok od ->
  world_size a
  = data_parallel_size a * (pipeline_parallel_size a * tensor_parallel_size a) ->
  let groups := partitions_made Expert a u1 st1 in
  let both := partitions_made Expert_Data a u2 st2 in
  length groups = world_size a / expert_parallel_size a
  /\ firstn (length groups) both = groups
  /\ Forall (fun g => length g = 1) (skipn (length groups) both)
  /\ fst (Initializer_Expert_Data._get_expert_parallel_ranks od) = groups.
Proof.
  intros He Hd Hws groups both. unfold groups, both.
  rewrite (Expert_made a oe u1 st1 He), (Expert_Data_made a od u2 st2 Hd).
  assert (Hsame : fst (Initializer_Expert_Data._get_expert_parallel_ranks od)
                  = Initializer_Expert.partitions oe
                  /\ Forall (fun g => length g = 1)
                            (snd (Initializer_Expert_Data._get_expert_parallel_ranks od))).
  {
    destruct (Expert_ok He) as (Hb & Hn & Hep & Hnz & Hmod & Heq).
    assert (Hdiv : data_parallel_size a mod expert_parallel_size a = 0).
    { rewrite Heq. apply Nat.Div0.mod_same. }
    assert (Hdp : data_parallel_size a <> 0) by congruence.
    rewrite (Expert_Data_tables a od Hd Hws Hdiv Hdp). simpl fst. simpl snd.
    set (mp := pipeline_parallel_size a * tensor_parallel_size a) in *.
    set (ep := expert_parallel_size a) in *.
    assert (HQ : data_parallel_size a / ep = 1).
    { rewrite Heq. now apply Nat.div_same. }
    assert (Hnmp : world_size a / ep = mp).
    { rewrite Hws, Heq, Nat.mul_comm. now apply Nat.div_mul. }
    rewrite HQ. split.
    - unfold Initializer_Expert.partitions. rewrite Hb, Hn, Hnmp.
      assert (E : forall l : list nat,
                 flat_map (fun i => map (fun c => map (fun k => i + (c * ep + k) * mp)
                                                      (seq 0 ep)) (seq 0 1)) l
                 = map (fun i => map (fun k => i + k * mp) (seq 0 ep)) l).
      { induction l as [|i l IH]; [reflexivity|].
        simpl. now f_equal. }
      rewrite E. apply map_ext_in. intros i Hi. apply in_seq in Hi.
      unfold range3. f_equal. f_equal. symmetry.
      replace (world_size a) with (mp * ep) by lia.
      apply range_len_exact; lia.
    - apply Forall_forall. intros g Hg. apply in_flat_map in Hg.
      destruct Hg as (i & _ & Hg). apply in_map_iff in Hg.
      destruct Hg as (k & <- & _). reflexivity.
  }
  destruct Hsame as (Hfst & Hsnd). rewrite Hfst.
  split; [|split; [|split; [|reflexivity]]].
  - destruct (Expert_ok He) as (_ & Hn & _).
    unfold Initializer_Expert.partitions, range.
    now rewrite length_map, length_seq.
  - now rewrite firstn_app, Nat.sub_diag, firstn_all, app_nil_r.
  - now rewrite skipn_app, Nat.sub_diag, skipn_all, app_nil_l.
Qed.

Lemma Expert_and_Expert_Data_agree_witness :
  firstn 4 (partitions_made Expert_Data
              (Build_ProcessGroupInitializer 0 8 2 2 2 1 1 2) false
              {| backend := "nccl"; created := [] |})
  = partitions_made Expert (Build_ProcessGroupInitializer 0 8 2 2 2 1 1 2) true
      {| backend := "gloo"; created := [] |}.
Proof.
  pose (a := Build_ProcessGroupInitializer 0 8 2 2 2 1 1 2).
  assert (Hws : world_size a
                = data_parallel_size a
                  * (pipeline_parallel_size a * tensor_parallel_size a))
    by reflexivity.
  exact (proj1 (proj2 (Expert_and_Expert_Data_agree a _ _ true false
                         {| backend := "gloo"; created := [] |}
                         {| backend := "nccl"; created := [] |}
                         eq_refl eq_refl Hws))).
Defined.

(** X14.  With [world_size = data_parallel_size * tensor_parallel_size *
    pipeline_parallel_size]: every rank below [world_size] is in a rank
    list that a run of the Data initializer hands to [new_group] and in one
    that a run of the Model initializer hands over, and any list of the one
    run has exactly one rank in common with any list of the other. *)
Theorem Data_meets_Model_once
  (a : ProcessGroupInitializer)
  (od : Initializer_Data.t) (om : Initializer_Model.t)
  (u1 u2 : bool) (st1 st2 : Transport) :
  Initializer_Data.__init__ a = Ok od ->
  Initializer_Model.__init__ a = Ok om ->
  world_size a
  = data_parallel_size a * (tensor_parallel_size a * pipeline_parallel_size a) ->
  let dgs := partitions_made Data a u1 st1 in
  let mgs := partitions_made Model a u2 st2 in
  (forall r, r < world_size a ->
     exists dg mg, In dg dgs /\ In mg mgs /\ In r dg /\ In r mg)
  /\ (forall dg mg, In dg dgs -> In mg mgs ->
        exists r, forall y, In y dg /\ In y mg <-> y = r).
Proof.
  intros Hd Hm Hws dgs mgs. unfold dgs, mgs.
  rewrite (Data_made a od u1 st1 Hd), (Model_made a om u2 st2 Hm).
  split.
  { intros r Hr.
    destruct (member_of_cover (world_size a) r _ (Data_cover a od Hd) Hr)
      as (dg & Hdg & Hrd).
    assert (Hpm : Permutation (concat (Initializer_Model.partitions om))
                              (seq 0 (world_size a)))
      by now rewrite (Model_partitions_concat a om Hm).
    destruct (member_of_cover (world_size a) r _ Hpm Hr) as (mg & Hmg & Hrm).
    exists dg, mg. auto. }
  intros dg mg Hdg Hmg.
  destruct (Data_ok Hd) as (Hb & Hn & Hdp & _).
  destruct (Model_ok Hm) as (Hb' & Hper & Hng & Hnz & _).
  set (b := tensor_parallel_size a * pipeline_parallel_size a) in *.
  assert (Hs : world_size a / data_parallel_size a = b).
  { rewrite Hws, Nat.mul_comm. now apply Nat.div_mul. }
  assert (Hg : world_size a / b = data_parallel_size a).
  { rewrite Hws. now apply Nat.div_mul. }
  unfold Initializer_Data.partitions, range in Hdg. rewrite Hb, Hn, Hs in Hdg.
  apply in_map_iff in Hdg. destruct Hdg as (i & <- & Hi). apply in_seq in Hi.
  unfold Initializer_Model.partitions, range in Hmg. rewrite Hper, Hng, Hg in Hmg.
  apply in_map_iff in Hmg. destruct Hmg as (m & <- & Hm'). apply in_seq in Hm'.
  exists (i + m * b). intros y. rewrite !in_map_iff. split.
  - intros ((j & <- & Hj) & (j' & E & Hj')). apply in_seq in Hj, Hj'.
    destruct (div_mod_unique b j i (i + j * b)) as (H1 & _); [lia|lia|].
    destruct (div_mod_unique b m j' (i + j * b)) as (H2 & _); [lia|lia|].
    congruence.
  - intros ->. split.
    + exists m. split; [reflexivity|apply in_seq; lia].
    + exists i. split; [lia|apply in_seq; lia].
Qed.

Lemma Data_meets_Model_once_witness :
  exists r, forall y, In y [1; 5; 9; 13] /\ In y [4; 5; 6; 7] <-> y = r.
Proof.
  pose (a := Build_ProcessGroupInitializer 5 16 4 2 2 2 3 4).
  pose (st := {| backend := "nccl"; created := [] |}).
  assert (Hws : world_size a
                = data_parallel_size a
                  * (tensor_parallel_size a * pipeline_parallel_size a))
    by reflexivity.
  assert (Hd : In [1; 5; 9; 13] (partitions_made Data a false st))
    by (right; left; reflexivity).
  assert (Hm : In [4; 5; 6; 7] (partitions_made Model a true st))
    by (right; left; reflexivity).
  exact (proj2 (Data_meets_Model_once a _ _ false true st st
                  eq_refl eq_refl Hws) _ _ Hd Hm).
Defined.

(** X15.  A run of the Tensor initializer hands [world_size //
    tensor_parallel_size] rank lists to [new_group], and every one of them
    lies within a rank list that a run of the Model initializer hands
    over. *)
Theorem Tensor_within_Model
  (a : ProcessGroupInitializer)
  (ot : Initializer_Tensor.t) (om : Initializer_Model.t)
  (u1 u2 : bool) (st1 st2 : Transport) :
  Initializer_Tensor.__init__ a = Ok ot ->
  Initializer_Model.__init__ a = Ok om ->
  let tgs := partitions_made Tensor a u1 st1 in
  let mgs := partitions_made Model a u2 st2 in
  length tgs = world_size a / tensor_parallel_size a
  /\ (forall tg, In tg tgs -> exists mg, In mg mgs /\ incl tg mg).
Proof.
  intros Ht Hm tgs mgs. unfold tgs, mgs.
  rewrite (Tensor_made a ot u1 st1 Ht), (Model_made a om u2 st2 Hm).
  split.
  { destruct (Tensor_ok Ht) as (_ & Hn & _).
    unfold Initializer_Tensor.partitions, range.
    now rewrite length_map, length_seq. }
  intros tg Htg.
  destruct (Tensor_ok Ht) as (Hb & Hn & Htp & Hmodt).
  destruct (Model_ok Hm) as (Hb' & Hper & Hng & Hnz & Hmodm).
  set (tp := tensor_parallel_size a) in *.
  set (pp := pipeline_parallel_size a) in *.
  assert (Hpp : pp <> 0) by (intros E; rewrite E in Hnz; lia).
  unfold Initializer_Tensor.partitions, range in Htg. rewrite Hb, Hn in Htg.
  fold tp in Htg. apply in_map_iff in Htg. destruct Htg as (t & <- & Ht').
  apply in_seq in Ht'.
  pose proof (exact_division _ _ Hmodt) as Hwt.
  pose proof (exact_division _ _ Hmodm) as Hwm.
  pose proof (Nat.div_mod_eq t pp) as Hdm.
  pose proof (Nat.mod_upper_bound t pp Hpp) as Hlt.
  exists (map (fun j => t / pp * (tp * pp) + j) (seq 0 (tp * pp))). split.
  - unfold Initializer_Model.partitions, range. rewrite Hper, Hng.
    apply in_map_iff. exists (t / pp). split; [reflexivity|].
    apply in_seq. split; [lia|]. simpl.
    apply Nat.Div0.div_lt_upper_bound.
    assert (t * tp < world_size a) by nia.
    assert (t / pp * (tp * pp) <= t * tp) by nia. nia.
  - intros y Hy. apply in_map_iff in Hy. destruct Hy as (j & <- & Hj).
    apply in_seq in Hj. apply in_map_iff.
    exists (t mod pp * tp + j). split; [nia|].
    apply in_seq. split; [lia|]. simpl.
    assert (t mod pp * tp + tp <= pp * tp) by nia. lia.
Qed.

Lemma Tensor_within_Model_witness :
  exists mg,
    In mg (partitions_made Model (Build_ProcessGroupInitializer 5 16 4 2 2 2 3 4)
             false {| backend := "nccl"; created := [] |})
    /\ incl [6; 7] mg.
Proof.
  pose (a := Build_ProcessGroupInitializer 5 16 4 2 2 2 3 4).
  pose (st := {| backend := "nccl"; created := [] |}).
  assert (Ht : In [6; 7] (partitions_made Tensor a true st))
    by (do 3 right; left; reflexivity).
  exact (proj2 (Tensor_within_Model a _ _ true false st st eq_refl eq_refl) _ Ht).
Defined.

(** X16.  A run of the Zero1 initializer hands [(world_size //
    data_parallel_size) * (data_parallel_size // zero1_parallel_size)] rank
    lists to [new_group], and every one of them lies within a rank list
    that a run of the Data initializer hands over. *)
Theorem Zero1_within_Data
  (a : ProcessGroupInitializer)
  (oz : Initializer_Zero1.t) (od : Initializer_Data.t)
  (u1 u2 : bool) (st1 st2 : Transport) :
  Initializer_Zero1.__init__ a = Ok oz ->
  Initializer_Data.__init__ a = Ok od ->
  let zgs := partitions_made Zero1 a u1 st1 in
  let dgs := partitions_made Data a u2 st2 in
  length zgs
  = world_size a / data_parallel_size a
    * (data_parallel_size a / zero1_parallel_size a)
  /\ (forall zg, In zg zgs -> exists dg, In dg dgs /\ incl zg dg).
Proof.
  intros Hz Hd zgs dgs. unfold zgs, dgs.
  rewrite (Zero1_made a oz u1 st1 Hz), (Data_made a od u2 st2 Hd).
  split.
  { destruct (Zero1_ok Hz) as (_ & Hn & Hg & _).
    unfold Initializer_Zero1.partitions, range.
    rewrite (length_flat_map_const (Initializer_Zero1.num_zero1_parallel_group oz)).
    - now rewrite length_seq, Hn, Hg.
    - intros i _. now rewrite length_map, length_seq. }
  intros zg Hzg.
  destruct (Zero1_ok Hz) as (Hb & Hn & Hg & Hdp & Hznz & _).
  destruct (Data_ok Hd) as (Hb' & Hn' & _).
  set (B := world_size a / data_parallel_size a) in *.
  set (z := zero1_parallel_size a) in *.
  unfold Initializer_Zero1.partitions, range in Hzg. rewrite Hb, Hn, Hg in Hzg.
  fold z in Hzg. apply in_flat_map in Hzg. destruct Hzg as (i & Hi & Hzg).
  apply in_map_iff in Hzg. destruct Hzg as (j & <- & Hj).
  apply in_seq in Hj. simpl in Hj.
  pose proof (Nat.Div0.mul_div_le (data_parallel_size a) z) as Hle.
  exists (map (fun j' => i + j' * B) (seq 0 (data_parallel_size a))). split.
  - unfold Initializer_Data.partitions, range. rewrite Hb', Hn'.
    apply in_map_iff. eauto.
  - intros y Hy. apply in_map_iff in Hy. destruct Hy as (k & <- & Hk).
    apply in_seq in Hk. apply in_map_iff. exists (j * z + k). split; [reflexivity|].
    apply in_seq. split; [lia|]. simpl.
    assert (j * z + z <= data_parallel_size a / z * z) by nia. lia.
Qed.

Lemma Zero1_within_Data_witness :
  exists dg,
    In dg (partitions_made Data (Build_ProcessGroupInitializer 5 16 4 2 2 2 3 4)
             false {| backend := "nccl"; created := [] |})
    /\ incl [8; 12] dg.
Proof.
  pose (a := Build_ProcessGroupInitializer 5 16 4 2 2 2 3 4).
  pose (st := {| backend := "nccl"; created := [] |}).
  assert (Hz : In [8; 12] (partitions_made Zero1 a true st))
    by (right; left; reflexivity).
  exact (proj2 (Zero1_within_Data a _ _ true false st st eq_refl eq_refl) _ Hz).
Defined.

(** X17.  With [world_size = data_parallel_size * tensor_parallel_size *
    pipeline_parallel_size]: a run of the Pipeline initializer hands
    [data_parallel_size * tensor_parallel_size] rank lists to [new_group];
    every one of them lies within a rank list that a run of the Model
    initializer hands over, and has at most one rank in common with any
    rank list that a run of the Tensor initializer hands over. *)
Theorem Pipeline_crosses_Tensor
  (a : ProcessGroupInitializer)
  (op : Initializer_Pipeline.t) (om : Initializer_Model.t)
  (ot : Initializer_Tensor.t)
  (u1 u2 u3 : bool) (st1 st2 st3 : Transport) :
  Initializer_Pipeline.__init__ a = Ok op ->
  Initializer_Model.__init__ a = Ok om ->
  Initializer_Tensor.__init__ a = Ok ot ->
  world_size a
  = data_parallel_size a * (tensor_parallel_size a * pipeline_parallel_size a) ->
  let pgs := partitions_made Pipeline a u1 st1 in
  let mgs := partitions_made Model a u2 st2 in
  let tgs := partitions_made Tensor a u3 st3 in
  length pgs = data_parallel_size a * tensor_parallel_size a
  /\ (forall pg, In pg pgs ->
        (exists mg, In mg mgs /\ incl pg mg)
        /\ (forall tg y y', In tg tgs ->
              In y pg -> In y' pg -> In y tg -> In y' tg -> y = y')).
Proof.
  intros Hp Hm Ht Hws pgs mgs tgs. unfold pgs, mgs, tgs.
  rewrite (Pipeline_made a op u1 st1 Hp), (Model_made a om u2 st2 Hm),
    (Tensor_made a ot u3 st3 Ht).
  split.
  { destruct (Pipeline_ok Hp) as (Hb & Hn & Hs & Hdp & Hpp & _ & _).
    assert (HB : world_size a / data_parallel_size a
                 = tensor_parallel_size a * pipeline_parallel_size a).
    { rewrite Hws, Nat.mul_comm. now apply Nat.div_mul. }
    unfold Initializer_Pipeline.partitions, range.
    rewrite (length_flat_map_const (Initializer_Pipeline.pipeline_stage_size op)).
    - rewrite length_seq, Hb, Hs, HB. now rewrite Nat.div_mul.
    - intros i _. now rewrite length_map, length_seq. }
  intros pg Hpg.
  destruct (Pipeline_ok Hp) as (Hb & Hn & Hs & Hdp & Hpp & _ & _).
  destruct (Model_ok Hm) as (Hb' & Hper & Hng & Hnz & _).
  destruct (Tensor_ok Ht) as (Hb'' & Hnt & Htp & _).
  set (tp := tensor_parallel_size a) in *.
  set (pp := pipeline_parallel_size a) in *.
  assert (HB : world_size a / data_parallel_size a = tp * pp).
  { rewrite Hws, Nat.mul_comm. now apply Nat.div_mul. }
  assert (Hst : tp * pp / pp = tp) by now apply Nat.div_mul.
  assert (Hg : world_size a / (tp * pp) = data_parallel_size a).
  { rewrite Hws. now apply Nat.div_mul. }
  unfold Initializer_Pipeline.partitions, range in Hpg.
  rewrite Hb, Hn, Hs, HB, Hst in Hpg.
  apply in_flat_map in Hpg. destruct Hpg as (i & Hi & Hpg). apply in_seq in Hi.
  apply in_map_iff in Hpg. destruct Hpg as (j & <- & Hj). apply in_seq in Hj.
  assert (Hmem : forall y, In y (range3 (i * (tp * pp) + j) ((i + 1) * (tp * pp)) tp) ->
                 exists k, y = i * (tp * pp) + j + k * tp /\ j + k * tp < tp * pp).
  { intros y Hy. apply in_range3 in Hy. destruct Hy as (k & -> & Hk).
    apply range_len_bound in Hk. exists k. split; [reflexivity|lia]. }
  split.
  - exists (map (fun j' => i * (tp * pp) + j') (seq 0 (tp * pp))). split.
    + unfold Initializer_Model.partitions, range. rewrite Hper, Hng.
      apply in_map_iff. exists i. split; [reflexivity|apply in_seq; lia].
    + intros y Hy. destruct (Hmem y Hy) as (k & -> & Hk).
      apply in_map_iff. exists (j + k * tp). split; [lia|apply in_seq; lia].
  - intros tg y y' Htg Hy Hy' Hyt Hyt'.
    unfold Initializer_Tensor.partitions, range in Htg. rewrite Hb'' in Htg.
    fold tp in Htg. apply in_map_iff in Htg. destruct Htg as (t & <- & _).
    apply in_map_iff in Hyt, Hyt'.
    destruct Hyt as (c & E & Hc), Hyt' as (c' & E' & Hc').
    apply in_seq in Hc, Hc'.
    destruct (Hmem y Hy) as (k & Ey & _), (Hmem y' Hy') as (k' & Ey' & _).
    destruct (div_mod_unique tp (i * pp + k) j y) as (H1 & H2); [lia|nia|].
    destruct (div_mod_unique tp (i * pp + k') j y') as (H1' & H2'); [lia|nia|].
    destruct (div_mod_unique tp t c y) as (H3 & H4); [lia|lia|].
    destruct (div_mod_unique tp t c' y') as (H3' & H4'); [lia|lia|].
    assert (Ek : k = k') by lia. rewrite Ey, Ey', Ek. reflexivity.
Qed.

Lemma Pipeline_crosses_Tensor_witness :
  exists mg,
    In mg (partitions_made Model (Build_ProcessGroupInitializer 5 16 4 2 2 2 3 4)
             false {| backend := "nccl"; created := [] |})
    /\ incl [5; 7] mg.
Proof.
  pose (a := Build_ProcessGroupInitializer 5 16 4 2 2 2 3 4).
  pose (st := {| backend := "nccl"; created := [] |}).
  assert (Hws : world_size a
                = data_parallel_size a
                  * (tensor_parallel_size a * pipeline_parallel_size a))
    by reflexivity.
  assert (Hp : In [5; 7] (partitions_made Pipeline a true st))
    by (do 3 right; left; reflexivity).
  exact (proj1 (proj2 (Pipeline_crosses_Tensor a _ _ _ true false false st st st
                         eq_refl eq_refl eq_refl Hws) _ Hp)).
Defined.

End GridFacts.

(* ================================================================== *)
(** * The splitting of parameter groups in closed form *)
(* ================================================================== *)

Module SplitClosedFacts.

Import TrainUtils SplitVocabulary SplitFacts.

Section Facts.

Context {param A : Type} (env : Imports param).

Implicit Types (d : list (string * pgroup param A)) (g : pgroup param A)
         (p : param) (k : string).

(** *** Keys *)

Lemma has_key_In {V : Type} k (d : list (string * V)) :
  has_key k d = true <-> In k (map fst d).
Proof.
  unfold has_key. rewrite existsb_exists. split.
  - intros (k' & Hin & E). apply String.eqb_eq in E. now subst.
  - intros H. exists k. split; [exact H|apply String.eqb_refl].
Qed.

Lemma dict_set_keys {V : Type} k (v : V) (d : list (string * V)) :
  map fst (dict_set k v d)
  = if has_key k d then map fst d else map fst d ++ [k].
Proof.
  induction d as [|[k' v'] d IH]; [reflexivity|].
  simpl dict_set. rewrite has_key_cons, (String.eqb_sym k k').
  destruct (String.eqb k' k) eqn:E; simpl.
  - apply String.eqb_eq in E. now subst.
  - rewrite IH. now destruct (has_key k d).
Qed.

Lemma dict_set_NoDup {V : Type} k (v : V) (d : list (string * V)) :
  NoDup (map fst d) -> NoDup (map fst (dict_set k v d)).
Proof.
  intros H. rewrite dict_set_keys. destruct (has_key k d) eqn:E; [exact H|].
  apply NoDup_app; [exact H|repeat constructor; intros []|].
  intros k' Hin [<-|[]]. apply has_key_In in Hin. congruence.
Qed.

(** The keys of the new groups are distinct: they are those of a Python
    dictionary. *)
Lemma initial_new_groups_NoDup :
  NoDup (map fst (initial_new_groups (A := A) env)).
Proof.
  unfold initial_new_groups.
  assert (H0 : NoDup (map fst (dict_set "fp32"
                                 {| name := Some "fp32"%string;
                                    params := @nil param;
                                    attrs := @nil (string * attr A) |} []))).
  { apply dict_set_NoDup. constructor. }
  destruct (1 <? num_experts env); [|exact H0].
  assert (Hfold : forall (f : string -> pgroup param A) keys d,
             NoDup (map fst d) ->
             NoDup (map fst (fold_left (fun d key => dict_set key (f key) d) keys d))).
  { induction keys as [|key keys IH]; intros d Hd; simpl; [exact Hd|].
    apply IH, dict_set_NoDup, Hd. }
  apply (Hfold (fun key => {| name := Some key; params := [];
                              attrs := [("moe"%string, PyTrue)] |})).
  apply (Hfold (fun key => {| name := Some key; params := [];
                              attrs := [(key, PyTrue)] |})).
  exact H0.
Qed.

(** *** One parameter *)

Lemma append_param_no_key k p d :
  has_key k d = false -> append_param k p d = Raise KeyError.
Proof.
  induction d as [|[k' g] d IH]; simpl; [reflexivity|].
  rewrite has_key_cons, String.eqb_sym.
  destruct (String.eqb k' k); simpl; [discriminate|].
  intros H. now rewrite (IH H).
Qed.

Lemma append_param_map k p d :
  NoDup (map fst d) -> has_key k d = true ->
  append_param k p d
  = Ok (map (fun e => if String.eqb (fst e) k
                      then (fst e, set_params (snd e) (params (snd e) ++ [p]))
                      else e) d).
Proof.
  induction d as [|[k' g] d IH]; intros Hnd Hk; [discriminate|].
  simpl in Hnd. inversion Hnd as [|? ? Hnot Hnd']; subst.
  simpl. destruct (String.eqb_spec k' k) as [->|Hne].
  - f_equal. f_equal. symmetry. rewrite <- (map_id d) at 2.
    apply map_ext_in. intros [k' g'] Hin. simpl.
    destruct (String.eqb_spec k' k) as [->|_]; [|reflexivity].
    exfalso. apply Hnot. apply in_map_iff. exists (k, g'). auto.
  - rewrite has_key_cons, String.eqb_sym in Hk.
    apply String.eqb_neq in Hne. rewrite Hne in Hk. simpl in Hk.
    now rewrite (IH Hnd' Hk).
Qed.

(** *** The loop over the parameters of one group *)

Lemma set_params_same g : set_params g (params g) = g.
Proof. now destruct g. Qed.

Lemma map_same {X : Type} (f : X -> X) (l : list X) :
  (forall x, f x = x) -> map f l = l.
Proof. intros H. rewrite <- (map_id l) at 2. now apply map_ext. Qed.

Lemma sent_to_destination k p :
  destination env p = Some k ->
  forall k', sent_to env k' p = String.eqb k k'.
Proof. intros H k'. unfold sent_to. now rewrite H. Qed.

Lemma sent_to_stays p :
  destination env p = None -> forall k, sent_to env k p = false.
Proof. intros H k. unfold sent_to. now rewrite H. Qed.

Lemma place_all_closed ps :
  forall (o : list param) d,
    NoDup (map fst d) ->
    for_each ps (place env) (o, d)
    = if forallb (fun p => match destination env p with
                           | Some k => has_key k d
                           | None => true
                           end) ps
      then Ok (o ++ filter (stays env) ps,
               map (fun e => (fst e,
                              set_params (snd e)
                                (params (snd e)
                                 ++ filter (sent_to env (fst e)) ps))) d)
      else Raise KeyError.
Proof.
  induction ps as [|p ps IH]; intros o d Hnd.
  - simpl. rewrite app_nil_r. f_equal. f_equal. symmetry.
    apply map_same. intros [k g]. simpl.
    now rewrite app_nil_r, set_params_same.
  - rewrite for_each_cons, place_destination. simpl forallb. unfold stays at 1.
    simpl filter. destruct (destination env p) as [k|] eqn:Hdest.
    + destruct (has_key k d) eqn:Hk; simpl;
        [|now rewrite (append_param_no_key k p d Hk)].
      rewrite (append_param_map k p d Hnd Hk). simpl.
      set (d1 := map _ d).
      assert (Hkeys : map fst d1 = map fst d).
      { unfold d1. rewrite map_map. apply map_ext. intros e.
        now destruct (String.eqb (fst e) k). }
      rewrite IH by (rewrite Hkeys; exact Hnd).
      unfold has_key. rewrite Hkeys.
      destruct (forallb _ ps); [|reflexivity].
      f_equal. f_equal. unfold d1. rewrite map_map. apply map_ext.
      intros [k' g]. simpl.
      rewrite (sent_to_destination k p Hdest), (String.eqb_sym k k').
      destruct (String.eqb k' k); simpl; [|reflexivity].
      unfold set_params. simpl. now rewrite <- app_assoc.
    + simpl. rewrite IH by exact Hnd.
      destruct (forallb _ ps); [|reflexivity].
      f_equal. f_equal; [now rewrite <- app_assoc|].
      apply map_ext. intros [k' g]. simpl.
      now rewrite (sent_to_stays p Hdest).
Qed.

(** *** The loop over the groups *)

Lemma copy_attrs_map g d :
  copy_attrs g d
  = map (fun e => (fst e,
                   {| name := name (snd e);
                      params := params (snd e);
                      attrs := set_all (attrs g) (attrs (snd e)) |})) d.
Proof.
  unfold copy_attrs, set_all. generalize (attrs g) as kvs. intros kvs. revert d.
  induction kvs as [|kv kvs IH]; intros d; simpl.
  - symmetry. apply map_same. now intros [k [n ps a]].
  - rewrite IH, map_map. reflexivity.
Qed.

Lemma split_all_closed (gs : list (pgroup param A)) :
  forall (done : list (pgroup param A)) d,
    NoDup (map fst d) ->
    for_each gs (split_group_value env) (done, d)
    = if forallb (fun p => match destination env p with
                           | Some k => has_key k d
                           | None => true
                           end) (all_params gs)
      then Ok (done ++ map (prune env) gs,
               map (fun e => (fst e,
                              {| name := name (snd e);
                                 params := params (snd e)
                                           ++ filter (sent_to env (fst e))
                                                     (all_params gs);
                                 attrs := set_all (flat_map attrs gs)
                                                  (attrs (snd e)) |})) d)
      else Raise KeyError.
Proof.
  induction gs as [|g gs IH]; intros done d Hnd.
  - simpl. rewrite app_nil_r. f_equal. f_equal. symmetry.
    apply map_same. intros [k [n ps a]]. simpl.
    now rewrite app_nil_r.
  - rewrite for_each_cons, split_group_value_run.
    unfold all_params. simpl flat_map. rewrite forallb_app.
    fold (all_params gs).
    assert (Hkeys : map fst (copy_attrs g d) = map fst d).
    { rewrite copy_attrs_map, map_map. reflexivity. }
    rewrite place_all_closed by (rewrite Hkeys; exact Hnd).
    unfold has_key at 1. rewrite Hkeys. fold (@has_key (pgroup param A)).
    destruct (forallb _ (params g)); simpl; [|reflexivity].
    set (d1 := map _ (copy_attrs g d)).
    assert (Hkeys1 : map fst d1 = map fst d).
    { unfold d1. rewrite map_map. simpl. exact Hkeys. }
    rewrite IH by (rewrite Hkeys1; exact Hnd).
    unfold has_key. rewrite Hkeys1.
    destruct (forallb _ (all_params gs)); [|reflexivity].
    f_equal. f_equal; [now rewrite <- app_assoc|].
    unfold d1. rewrite copy_attrs_map, !map_map. apply map_ext.
    intros [k [n ps a]]. simpl. unfold set_all.
    now rewrite filter_app, fold_left_app, <- app_assoc.
Qed.

(** The pass on values, loops gone. *)
Lemma split_values_closed (gs : list (pgroup param A)) :
  split_values env gs
  = if lookups_succeed (A := A) env (all_params gs)
    then Ok (split_closed_form env gs)
    else Raise KeyError.
Proof.
  unfold split_values, lookups_succeed, split_closed_form.
  rewrite split_all_closed by apply initial_new_groups_NoDup.
  destruct (forallb _ (all_params gs)); [|reflexivity].
  simpl. f_equal. f_equal. f_equal. rewrite map_map. apply map_ext_in.
  intros [k g] Hin. unfold filled. simpl.
  pose proof (initial_new_groups_sorted (A := A) env) as Hs.
  pose proof (initial_new_groups_Forall (A := A) env
                (fun e => params (snd e) = [])
                (fun _ _ => eq_refl)) as He.
  unfold sorted_by_destination in Hs. rewrite Forall_forall in Hs, He.
  destruct (Hs _ Hin) as (Hname & _). specialize (He _ Hin). simpl in *.
  now rewrite Hname, He.
Qed.

End Facts.

(** ** The function in closed form *)

(** X18.  For an argument of an accepted type that lists no dictionary twice,
    the function raises [KeyError] when a parameter asks for a new group
    that was not created, and otherwise returns the original groups, pruned,
    followed by the new groups that are not empty, in the order of their
    creation; a new group holds the parameters sent to its key in the order
    in which the input lists them, and the attributes of the input groups
    assigned over its own.  For an argument of another type it raises
    [ValueError]. *)
Theorem split_in_closed_form
  {param A : Type} (env : Imports param) (h : ref -> pgroup param A)
  (arg : param_groups_arg) :
  match input_groups arg with
  | None =>
      split_params_into_different_groups_for_optimizer env h arg
      = Raise ValueError
  | Some refs =>
      NoDup refs ->
      split_params_into_different_groups_for_optimizer env h arg
      = if lookups_succeed (A := A) env (all_params (map h refs))
        then Ok (split_closed_form env (map h refs))
        else Raise KeyError
  end.
Proof.
  destruct (input_groups arg) as [refs|] eqn:Harg.
  - intros Hnd. rewrite (split_on_distinct_references env h arg refs Harg Hnd).
    apply split_values_closed.
  - destruct arg; try discriminate. reflexivity.
Qed.

Lemma split_in_closed_form_witness :
  split_params_into_different_groups_for_optimizer
    {| is_norm_param := fun _ => false;
       is_gate_param := fun _ => false;
       is_moe_param := fun _ => false;
       is_float32 := fun p => Nat.odd p;
       group_name := fun _ => "none"%string;
       num_experts := 0;
       expert_parallel_group_names := [] |}
    (fun r => {| name := None; params := [10 * r + 1; 10 * r + 2; 10 * r + 3];
                 attrs := [("lr"%string, Given r)] |})
    (OfTuple [1; 2])
  = Ok [{| name := None; params := [12]; attrs := [("lr"%string, Given 1)] |};
        {| name := None; params := [22]; attrs := [("lr"%string, Given 2)] |};
        {| name := Some "fp32"%string; params := [11; 13; 21; 23];
           attrs := [("lr"%string, Given 2)] |}].
Proof.
  assert (Hnd : NoDup [1; 2]).
  { repeat constructor; simpl; intuition discriminate. }
  exact (split_in_closed_form
           {| is_norm_param := fun _ => false;
              is_gate_param := fun _ => false;
              is_moe_param := fun _ => false;
              is_float32 := fun p => Nat.odd p;
              group_name := fun _ => "none"%string;
              num_experts := 0;
              expert_parallel_group_names := [] |}
           (fun r => {| name := None;
                        params := [10 * r + 1; 10 * r + 2; 10 * r + 3];
                        attrs := [("lr"%string, Given r)] |})
           (OfTuple [1; 2]) Hnd).
Defined.

(** ** Without MoE *)

Lemma for_each_same {X S : Type} (body body' : X -> S -> result S)
  (l : list X) (s : S) :
  (forall x s, body x s = body' x s) ->
  for_each l body s = for_each l body' s.
Proof.
  intros E. revert s. induction l as [|x l IH]; intros s; [reflexivity|].
  rewrite !for_each_cons, E. destruct (body' x s); simpl; auto.
Qed.

Lemma forallb_refuted {X : Type} (f : X -> bool) (l : list X) (x : X) :
  In x l -> f x = false -> forallb f l = false.
Proof.
  intros Hin Hf. destruct (forallb f l) eqn:E; [|reflexivity].
  rewrite forallb_forall in E. rewrite (E x Hin) in Hf. discriminate.
Qed.

(** The same imports with another classifier of norm parameters. *)
Lemma place_without_moe {param A : Type} (env : Imports param)
  (f : param -> bool) (p : param)
  (s : list param * list (string * pgroup param A)) :
  num_experts env <= 1 ->
  place {| is_norm_param := f;
           is_gate_param := is_gate_param env;
           is_moe_param := is_moe_param env;
           is_float32 := is_float32 env;
           group_name := group_name env;
           num_experts := num_experts env;
           expert_parallel_group_names := expert_parallel_group_names env |} p s
  = place env p s.
Proof.
  intros Hn. unfold place. simpl.
  assert (E : (1 <? num_experts env) = false) by (apply Nat.ltb_ge; lia).
  rewrite E. reflexivity.
Qed.

(** X19.  When [num_experts] is not above 1: the classifier of norm parameters
    is not consulted, whatever it answers; a gate parameter makes the
    function raise [KeyError], since no gate group was created; and when the
    function returns, the output is the pruned original groups and, if a
    parameter was sent there, the one new group ["fp32"]. *)
Theorem split_without_moe
  {param A : Type} (env : Imports param) (h : ref -> pgroup param A)
  (arg : param_groups_arg) (refs : list ref) :
  num_experts env <= 1 ->
  input_groups arg = Some refs ->
  NoDup refs ->
  let gs := map h refs in
  (forall f,
      split_params_into_different_groups_for_optimizer
        {| is_norm_param := f;
           is_gate_param := is_gate_param env;
           is_moe_param := is_moe_param env;
           is_float32 := is_float32 env;
           group_name := group_name env;
           num_experts := num_experts env;
           expert_parallel_group_names := expert_parallel_group_names env |}
        h arg
      = split_params_into_different_groups_for_optimizer env h arg)
  /\ ((exists p, In p (all_params gs) /\ is_gate_param env p = true) ->
      split_params_into_different_groups_for_optimizer env h arg = Raise KeyError)
  /\ (forall out,
         split_params_into_different_groups_for_optimizer env h arg = Ok out ->
         out = map (prune env) gs
               ++ match filter (sent_to env "fp32") (all_params gs) with
                  | [] => []
                  | l => [{| name := Some "fp32"%string;
                             params := l;
                             attrs := set_all (flat_map attrs gs) [] |}]
                  end).
Proof.
  intros Hn Harg Hnd gs.
  assert (E : (1 <? num_experts env) = false) by (apply Nat.ltb_ge; lia).
  split; [|split].
  - intros f.
    set (env' := {| is_norm_param := f;
                    is_gate_param := is_gate_param env;
                    is_moe_param := is_moe_param env;
                    is_float32 := is_float32 env;
                    group_name := group_name env;
                    num_experts := num_experts env;
                    expert_parallel_group_names := expert_parallel_group_names env |}).
    assert (Hloop : forall l s,
               for_each l (split_group (A := A) env') s
               = for_each l (split_group env) s).
    { intros l s. apply for_each_same. intros r [h' d]. unfold split_group.
      rewrite (for_each_same (place env') (place env)); [reflexivity|].
      intros p s'. now apply place_without_moe. }
    unfold split_params_into_different_groups_for_optimizer.
    change (initial_new_groups (A := A) env') with (initial_new_groups (A := A) env).
    destruct arg; cbv beta iota delta [Py.bind]; try reflexivity;
      now rewrite Hloop.
  - intros (p & Hp & Hgate).
    rewrite (split_on_distinct_references env h arg refs Harg Hnd).
    fold gs. rewrite split_values_closed.
    unfold lookups_succeed. rewrite (forallb_refuted _ _ p Hp); [reflexivity|].
    unfold destination, initial_new_groups. rewrite E, Hgate. reflexivity.
  - intros out.
    rewrite (split_on_distinct_references env h arg refs Harg Hnd).
    fold gs. rewrite split_values_closed.
    destruct (lookups_succeed env (all_params gs)); [|discriminate].
    intros Hout. injection Hout as <-.
    unfold split_closed_form, initial_new_groups. rewrite E.
    f_equal. cbn [dict_set map]. unfold filled. cbn [fst snd filter params attrs].
    now destruct (filter (sent_to env "fp32") (all_params gs)).
Qed.

Lemma split_without_moe_witness :
  split_params_into_different_groups_for_optimizer
    {| is_norm_param := fun _ => true;
       is_gate_param := fun p => p =? 7;
       is_moe_param := fun _ => false;
       is_float32 := fun _ => false;
       group_name := fun _ => "none"%string;
       num_experts := 1;
       expert_parallel_group_names := [] |}
    (fun _ => {| name := None; params := [3; 7];
                 attrs := @nil (string * attr nat) |})
    (OfDict 0)
  = Raise KeyError.
Proof.
  pose (env := {| is_norm_param := fun _ : nat => true;
                  is_gate_param := fun p => p =? 7;
                  is_moe_param := fun _ => false;
                  is_float32 := fun _ => false;
                  group_name := fun _ => "none"%string;
                  num_experts := 1;
                  expert_parallel_group_names := [] |}).
  pose (h := fun _ : ref => {| name := None; params := [3; 7];
                               attrs := @nil (string * attr nat) |}).
  assert (Hnd : NoDup [0]) by (constructor; [intros []|constructor]).
  destruct (split_without_moe env h (OfDict 0) [0] (le_n 1) eq_refl Hnd)
    as (_ & Hgate & _).
  apply Hgate. exists 7. split; [simpl; tauto|reflexivity].
Defined.

(** ** [create_param_groups] *)

Lemma dict_get_set_same {V : Type} (k : string) (v : V) (d : list (string * V)) :
  dict_get k (dict_set k v d) = Some v.
Proof.
  induction d as [|[k' v'] d IH]; simpl.
  - now rewrite String.eqb_refl.
  - destruct (String.eqb k' k) eqn:E; simpl.
    + now rewrite String.eqb_refl.
    + now rewrite E.
Qed.

(** X20.  When [create_param_groups] returns, the first group is the one it
    built, named ["default"], with the parameters that no test sends
    elsewhere, in their order; every group after it is a new group with at
    least one parameter; and every group of the output carries the weight
    decay of the call. *)
Theorem create_param_groups_result
  {param A : Type} (env : Imports param) (ps : list param) (wd : A)
  (out : list (pgroup param A)) :
  create_param_groups env ps wd = Ok out ->
  (exists news,
      out = {| name := Some "default"%string;
               params := filter (stays env) ps;
               attrs := [("weight_decay"%string, Given wd)] |} :: news
      /\ Forall (fun g => params g <> []) news)
  /\ (forall g, In g out ->
        dict_get "weight_decay" (attrs g) = Some (Given wd)).
Proof.
  unfold create_param_groups. intros H.
  assert (Hnd : NoDup [0]) by (constructor; [intros []|constructor]).
  rewrite (split_on_distinct_references env _ (OfDict 0) [0] eq_refl Hnd) in H.
  rewrite split_values_closed in H.
  destruct (lookups_succeed env _); [|discriminate].
  injection H as <-. unfold split_closed_form. simpl map at 1.
  split.
  - eexists. split; [reflexivity|].
    apply Forall_forall. intros g Hg. apply filter_In in Hg.
    destruct Hg as (_ & Ht) . intros E. rewrite E in Ht. discriminate.
  - intros g [<-|Hg]; [reflexivity|].
    apply filter_In in Hg. destruct Hg as (Hg & _).
    apply in_map_iff in Hg. destruct Hg as (e & <- & _).
    unfold filled, set_all. simpl. apply dict_get_set_same.
Qed.

Lemma create_param_groups_result_witness :
  Forall (fun g : pgroup nat nat =>
            dict_get "weight_decay" (attrs g) = Some (Given 5))
         [{| name := Some "default"%string; params := [2; 4];
             attrs := [("weight_decay"%string, Given 5)] |};
          {| name := Some "fp32"%string; params := [1; 3];
             attrs := [("weight_decay"%string, Given 5)] |}].
Proof.
  pose (env := {| is_norm_param := fun _ : nat => false;
                  is_gate_param := fun _ => false;
                  is_moe_param := fun _ => false;
                  is_float32 := fun p => Nat.odd p;
                  group_name := fun _ => "none"%string;
                  num_experts := 0;
                  expert_parallel_group_names := [] |}).
  apply Forall_forall.
  exact (proj2 (create_param_groups_result env [1; 2; 3; 4] 5 _ eq_refl)).
Defined.

(** ** Which keys exist *)

Lemma dict_set_key_In {V : Type} (k k' : string) (v : V) (d : list (string * V)) :
  In k (map fst (dict_set k' v d)) <-> k = k' \/ In k (map fst d).
Proof.
  rewrite dict_set_keys. destruct (has_key k' d) eqn:E.
  - apply has_key_In in E. split; [auto|]. intros [->|H]; auto.
  - rewrite in_app_iff. simpl. split.
    + intros [H|[->|[]]]; auto.
    + intros [->|H]; auto.
Qed.

Lemma fold_dict_set_key_In {V : Type} (f : string -> V) (k : string)
  (keys : list string) (d : list (string * V)) :
  In k (map fst (fold_left (fun d key => dict_set key (f key) d) keys d))
  <-> In k keys \/ In k (map fst d).
Proof.
  revert d. induction keys as [|key keys IH]; intros d; simpl.
  - tauto.
  - rewrite IH, dict_set_key_In. intuition congruence.
Qed.

(** The keys of [new_groups]: ["fp32"], and with more than one expert also
    ["gate"], ["norm"] and the names of the expert-parallel groups. *)
Lemma initial_new_groups_keys {param A : Type} (env : Imports param) (k : string) :
  In k (map fst (initial_new_groups (A := A) env))
  <-> k = "fp32"%string
      \/ (1 < num_experts env
          /\ (k = "gate"%string \/ k = "norm"%string
              \/ In k (expert_parallel_group_names env))).
Proof.
  unfold initial_new_groups. destruct (Nat.ltb_spec 1 (num_experts env)) as [Hn|Hn].
  - rewrite (fold_dict_set_key_In
               (fun key => {| name := Some key; params := @nil param;
                              attrs := [("moe"%string, @PyTrue A)] |})).
    rewrite (fold_dict_set_key_In
               (fun key => {| name := Some key; params := @nil param;
                              attrs := [(key, @PyTrue A)] |})).
    simpl. intuition congruence.
  - simpl. split; [intros [<-|[]]; auto|]. intros [->|(H & _)]; [auto|lia].
Qed.

(** X21.  For an argument of an accepted type that lists no dictionary twice, the
    function returns exactly when every parameter that the cascade of tests
    sends to a new group is sent to a key that exists: ["fp32"], or, with
    more than one expert, ["gate"], ["norm"] or the name of an
    expert-parallel group; otherwise it raises [KeyError]. *)
Theorem split_returns_iff
  {param A : Type} (env : Imports param) (h : ref -> pgroup param A)
  (arg : param_groups_arg) (refs : list ref) :
  input_groups arg = Some refs ->
  NoDup refs ->
  let known k :=
    k = "fp32"%string
    \/ (1 < num_experts env
        /\ (k = "gate"%string \/ k = "norm"%string
            \/ In k (expert_parallel_group_names env))) in
  ((exists out,
       split_params_into_different_groups_for_optimizer env h arg = Ok out)
   <-> forall p k, In p (all_params (map h refs)) ->
                   destination env p = Some k -> known k)
  /\ ((exists p k, In p (all_params (map h refs))
                   /\ destination env p = Some k /\ ~ known k) ->
      split_params_into_different_groups_for_optimizer env h arg = Raise KeyError).
Proof.
  intros Harg Hnd known.
  rewrite (split_on_distinct_references env h arg refs Harg Hnd).
  rewrite split_values_closed. unfold lookups_succeed.
  assert (Hkey : forall k, has_key k (initial_new_groups (A := A) env) = true
                           <-> known k).
  { intros k. rewrite has_key_In. apply initial_new_groups_keys. }
  split.
  - destruct (forallb _ (all_params (map h refs))) eqn:E.
    + split; [|eauto]. intros _ p k Hp Hd.
      rewrite forallb_forall in E. specialize (E p Hp). rewrite Hd in E.
      now apply Hkey.
    + split; [intros (out & H); discriminate|]. intros Hall. exfalso.
      assert (Ht : forallb (fun p => match destination env p with
                                     | Some k => has_key k (initial_new_groups (A := A) env)
                                     | None => true
                                     end) (all_params (map h refs)) = true).
      { apply forallb_forall. intros p Hp.
        destruct (destination env p) as [k|] eqn:Hd; [|reflexivity].
        apply Hkey. eauto. }
      congruence.
  - intros (p & k & Hp & Hd & Hno).
    rewrite (forallb_refuted _ _ p Hp); [reflexivity|].
    rewrite Hd. destruct (has_key k (initial_new_groups (A := A) env)) eqn:E;
      [|reflexivity].
    exfalso. apply Hno, Hkey, E.
Qed.

Lemma split_returns_iff_witness :
  exists out,
    split_params_into_different_groups_for_optimizer
      {| is_norm_param := fun p => p =? 1;
         is_gate_param := fun p => p =? 2;
         is_moe_param := fun p => p =? 3;
         is_float32 := fun _ => false;
         group_name := fun _ => "moe_ep_size_2"%string;
         num_experts := 4;
         expert_parallel_group_names := ["moe_ep_size_2"%string] |}
      (fun _ => {| name := None; params := [0; 1; 2; 3];
                   attrs := @nil (string * attr nat) |})
      (OfList [0])
    = Ok out.
Proof.
  pose (env := {| is_norm_param := fun p => p =? 1;
                  is_gate_param := fun p => p =? 2;
                  is_moe_param := fun p => p =? 3;
                  is_float32 := fun _ : nat => false;
                  group_name := fun _ => "moe_ep_size_2"%string;
                  num_experts := 4;
                  expert_parallel_group_names := ["moe_ep_size_2"%string] |}).
  pose (h := fun _ : ref => {| name := None; params := [0; 1; 2; 3];
                               attrs := @nil (string * attr nat) |}).
  assert (Hnd : NoDup [0]) by (constructor; [intros []|constructor]).
  destruct (split_returns_iff env h (OfList [0]) [0] eq_refl Hnd) as (Hiff & _).
  apply Hiff. intros p k Hp Hd. simpl in Hp.
  destruct Hp as [<-|[<-|[<-|[<-|[]]]]]; vm_compute in Hd;
    try discriminate; injection Hd as <-.
  - right. split; [simpl; lia|]. right. now left.
  - right. split; [simpl; lia|]. now left.
  - right. split; [simpl; lia|]. right. right. now left.
Defined.

End SplitClosedFacts.

(* ================================================================== *)
(** * A dictionary listed more than once *)
(* ================================================================== *)

Module SplitAliasFacts.

Import TrainUtils SplitVocabulary SplitFacts SplitClosedFacts.

Section Facts.

Context {param A : Type} (env : Imports param).

Lemma seen_In (r : ref) (seen : list ref) :
  existsb (Nat.eqb r) seen = true <-> In r seen.
Proof.
  rewrite existsb_exists. split.
  - intros (x & Hx & E). apply Nat.eqb_eq in E. now subst.
  - intros H. exists r. split; [exact H|apply Nat.eqb_refl].
Qed.

Lemma first_occurrences_In (refs : list ref) :
  forall seen r,
    In r (first_occurrences seen refs) <-> In r refs /\ ~ In r seen.
Proof.
  induction refs as [|r0 l IH]; intros seen r; simpl; [tauto|].
  destruct (existsb (Nat.eqb r0) seen) eqn:E.
  - apply seen_In in E. rewrite IH. split; [tauto|].
    intros ([<-|H] & Hn); [contradiction|tauto].
  - assert (Hn : ~ In r0 seen) by (rewrite <- seen_In, E; discriminate).
    simpl. rewrite IH. simpl. split.
    + intros [<-|(H & Hs)]; [tauto|]. split; [tauto|]. intros H'. apply Hs. now right.
    + intros ([<-|H] & Hs); [now left|].
      destruct (Nat.eq_dec r0 r) as [->|Hne]; [now left|].
      right. split; [exact H|]. intros [E'|H']; [congruence|contradiction].
Qed.

(** *** What a second visit finds *)

Lemma stays_lookups (d : list (string * pgroup param A)) (ps : list param) :
  forallb (fun p => match destination env p with
                    | Some k => has_key k d
                    | None => true
                    end) (filter (stays env) ps) = true.
Proof.
  apply forallb_forall. intros p Hp. apply filter_In in Hp.
  destruct Hp as (_ & Hs). unfold stays in Hs.
  now destruct (destination env p).
Qed.

Lemma stays_twice (ps : list param) :
  filter (stays env) (filter (stays env) ps) = filter (stays env) ps.
Proof.
  induction ps as [|p ps IH]; simpl; [reflexivity|].
  destruct (stays env p) eqn:E; simpl; [rewrite E|]; now rewrite IH.
Qed.

Lemma stays_not_sent (k : string) (ps : list param) :
  filter (sent_to env k) (filter (stays env) ps) = [].
Proof.
  induction ps as [|p ps IH]; simpl; [reflexivity|].
  destruct (stays env p) eqn:E; simpl; [|exact IH].
  unfold stays in E. destruct (destination env p) eqn:Hd; [discriminate|].
  now rewrite (sent_to_stays env p Hd), IH.
Qed.

Lemma prune_twice (g : pgroup param A) : prune env (prune env g) = prune env g.
Proof. unfold prune, set_params. simpl. now rewrite stays_twice. Qed.

Lemma set_all_app {V : Type} (l1 l2 : list (string * V)) (d : list (string * V)) :
  set_all (l1 ++ l2) d = set_all l2 (set_all l1 d).
Proof. unfold set_all. apply fold_left_app. Qed.

Lemma lookups_keys (d1 d : list (string * pgroup param A)) (ps : list param) :
  map fst d1 = map fst d ->
  forallb (fun p => match destination env p with
                    | Some k => has_key k d1
                    | None => true
                    end) ps
  = forallb (fun p => match destination env p with
                      | Some k => has_key k d
                      | None => true
                      end) ps.
Proof. intros H. unfold has_key. now rewrite H. Qed.

Lemma split_group_run (r : ref) (h : ref -> pgroup param A) d :
  split_group env r (h, d)
  = Py.bind (for_each (params (h r)) (place env) ([], copy_attrs (h r) d))
      (fun s => Ok (store_set h r (set_params (h r) (fst s)), snd s)).
Proof. reflexivity. Qed.

(** *** The loop over the references *)

(** The loop over the store from a state in which the dictionaries of
    [seen] are pruned already and the others are as [h0] has them. *)
Lemma split_store_closed (h0 : ref -> pgroup param A) (refs : list ref) :
  forall (seen : list ref) (h : ref -> pgroup param A) d,
    NoDup (map fst d) ->
    (forall r, In r seen -> h r = prune env (h0 r)) ->
    (forall r, ~ In r seen -> h r = h0 r) ->
    let ps := all_params (map h0 (first_occurrences seen refs)) in
    let ok := forallb (fun p => match destination env p with
                                | Some k => has_key k d
                                | None => true
                                end) ps in
    match for_each refs (split_group env) (h, d) with
    | Ok (h', d') =>
        ok = true
        /\ (forall r, In r (refs ++ seen) -> h' r = prune env (h0 r))
        /\ (forall r, ~ In r (refs ++ seen) -> h' r = h0 r)
        /\ d' = map (fun e => (fst e,
                               {| name := name (snd e);
                                  params := params (snd e)
                                            ++ filter (sent_to env (fst e)) ps;
                                  attrs := set_all (flat_map attrs (map h0 refs))
                                                   (attrs (snd e)) |})) d
    | Raise e => e = KeyError /\ ok = false
    end.
Proof.
  induction refs as [|r l IH]; intros seen h d Hnd Hin Hout; cbv zeta.
  - simpl. split; [reflexivity|]. split; [exact Hin|]. split; [exact Hout|].
    symmetry. apply map_same. intros [k [n ps a]]. simpl.
    now rewrite app_nil_r.
  - rewrite for_each_cons, split_group_run.
    assert (Hkeys : map fst (copy_attrs (h r) d) = map fst d).
    { rewrite copy_attrs_map, map_map. reflexivity. }
    rewrite place_all_closed by (rewrite Hkeys; exact Hnd).
    simpl first_occurrences.
    destruct (existsb (Nat.eqb r) seen) eqn:Eseen.
    + (* the dictionary was pruned by an earlier turn *)
      apply seen_In in Eseen. pose proof (Hin r Eseen) as Hr.
      assert (Hps : params (h r) = filter (stays env) (params (h0 r)))
        by (rewrite Hr; reflexivity).
      assert (Hat : attrs (h r) = attrs (h0 r)) by (rewrite Hr; reflexivity).
      rewrite Hps, stays_lookups, stays_twice. cbn [Py.bind fst snd app].
      match goal with
      | |- context [for_each l (split_group env) (?hh, ?dd)] =>
          remember hh as h1 eqn:Eh1; remember dd as d1 eqn:Ed1
      end.
      assert (Hkeys1 : map fst d1 = map fst d).
      { rewrite Ed1, map_map. simpl. exact Hkeys. }
      assert (Hin1 : forall r', In r' seen -> h1 r' = prune env (h0 r')).
      { intros r' Hr'. rewrite Eh1. unfold store_set.
        destruct (Nat.eqb_spec r' r) as [->|_]; [|now apply Hin].
        rewrite Hr. unfold prune, set_params. simpl. reflexivity. }
      assert (Hout1 : forall r', ~ In r' seen -> h1 r' = h0 r').
      { intros r' Hr'. rewrite Eh1. unfold store_set.
        destruct (Nat.eqb_spec r' r) as [->|_]; [contradiction|now apply Hout]. }
      specialize (IH seen h1 d1).
      rewrite Hkeys1 in IH. specialize (IH Hnd Hin1 Hout1). cbv zeta in IH.
      rewrite (lookups_keys d1 d _ Hkeys1) in IH.
      unfold store in *. revert IH.
      match goal with
      | |- match ?t with _ => _ end -> _ => destruct t as [[h' d']|e]
      end; intros IH; [|exact IH].
      destruct IH as (Hok & Hin' & Hout' & Hd').
      split; [exact Hok|]. split; [|split].
      * intros r' [<-|Hr']; apply Hin'; apply in_or_app; [now right|].
        apply in_app_or in Hr'. tauto.
      * intros r' Hr'. apply Hout'. intros H. apply Hr'. now right.
      * rewrite Hd', Ed1, copy_attrs_map, !map_map.
        apply map_ext. intros [k [n ps a]]. simpl.
        now rewrite stays_not_sent, app_nil_r, Hat, set_all_app.
    + (* the first visit *)
      assert (Hnot : ~ In r seen) by (rewrite <- seen_In, Eseen; discriminate).
      pose proof (Hout r Hnot) as Hr. rewrite Hr in *.
      rewrite (lookups_keys _ d _ Hkeys).
      simpl map. unfold all_params. simpl flat_map. rewrite forallb_app.
      fold (all_params (map h0 (first_occurrences (r :: seen) l))).
      destruct (forallb _ (params (h0 r))); cbn [Py.bind andb];
        [|split; reflexivity].
      cbn [fst snd app].
      match goal with
      | |- context [for_each l (split_group env) (?hh, ?dd)] =>
          remember hh as h1 eqn:Eh1; remember dd as d1 eqn:Ed1
      end.
      assert (Hkeys0 : map fst (copy_attrs (h0 r) d) = map fst d).
      { rewrite copy_attrs_map, map_map. reflexivity. }
      assert (Hkeys1 : map fst d1 = map fst d).
      { rewrite Ed1, map_map. simpl. exact Hkeys0. }
      assert (Hin1 : forall r', In r' (r :: seen) -> h1 r' = prune env (h0 r')).
      { intros r' Hr'. rewrite Eh1. unfold store_set.
        destruct (Nat.eqb_spec r' r) as [->|Hne]; [reflexivity|].
        apply Hin. destruct Hr' as [E|Hr']; [congruence|exact Hr']. }
      assert (Hout1 : forall r', ~ In r' (r :: seen) -> h1 r' = h0 r').
      { intros r' Hr'. rewrite Eh1. unfold store_set.
        destruct (Nat.eqb_spec r' r) as [->|_]; [exfalso; apply Hr'; now left|].
        apply Hout. intros H. apply Hr'. now right. }
      specialize (IH (r :: seen) h1 d1).
      rewrite Hkeys1 in IH. specialize (IH Hnd Hin1 Hout1). cbv zeta in IH.
      rewrite (lookups_keys d1 d _ Hkeys1) in IH.
      unfold store in *. revert IH.
      match goal with
      | |- match ?t with _ => _ end -> _ => destruct t as [[h' d']|e]
      end; intros IH; [|exact IH].
      destruct IH as (Hok & Hin' & Hout' & Hd').
      split; [exact Hok|]. split; [|split].
      * intros r' Hr'. apply Hin'. apply in_or_app. simpl in *.
        destruct Hr' as [<-|Hr']; [right; now left|].
        apply in_app_or in Hr'. destruct Hr'; [now left|right; now right].
      * intros r' Hr'. apply Hout'. intros H. apply Hr'. simpl.
        apply in_app_or in H. destruct H as [H|[<-|H]];
          [right; apply in_or_app; now left|now left|
           right; apply in_or_app; now right].
      * rewrite Hd', Ed1, copy_attrs_map, !map_map.
        apply map_ext. intros [k [n ps a]]. simpl.
        now rewrite filter_app, app_assoc, set_all_app.
Qed.

Lemma lookups_of_first_occurrences (h : ref -> pgroup param A) (refs : list ref) :
  lookups_succeed (A := A) env (all_params (map h (first_occurrences [] refs)))
  = lookups_succeed (A := A) env (all_params (map h refs)).
Proof.
  unfold lookups_succeed.
  assert (Hsame : forall p,
             In p (all_params (map h (first_occurrences [] refs)))
             <-> In p (all_params (map h refs))).
  { intros p. unfold all_params. rewrite !in_flat_map. split.
    - intros (g & Hg & Hp). apply in_map_iff in Hg. destruct Hg as (r & <- & Hr).
      apply first_occurrences_In in Hr. exists (h r). split; [|exact Hp].
      apply in_map. tauto.
    - intros (g & Hg & Hp). apply in_map_iff in Hg. destruct Hg as (r & <- & Hr).
      exists (h r). split; [|exact Hp]. apply in_map.
      apply first_occurrences_In. split; [exact Hr|intros []]. }
  set (f := fun p => _).
  destruct (forallb f (all_params (map h refs))) eqn:E.
  - apply forallb_forall. intros p Hp. rewrite forallb_forall in E.
    apply E, Hsame, Hp.
  - destruct (forallb f (all_params (map h (first_occurrences [] refs)))) eqn:E';
      [|reflexivity].
    rewrite <- E. symmetry. apply forallb_forall. intros p Hp.
    rewrite forallb_forall in E'. apply E', Hsame, Hp.
Qed.

End Facts.

(** X22.  The function on any argument of an accepted type, a dictionary
    listed more than once included.  It raises [KeyError] when a parameter
    asks for a new group that was not created.  Otherwise the returned
    tuple shows, at every position of the input, the dictionary pruned, so
    that the positions of one dictionary show the same; a new group holds
    the parameters sent to its key from each dictionary once, in the order
    of the first occurrences, and the attributes of the input assigned
    over its own at every occurrence, a later assignment winning. *)
Theorem split_with_repeats
  {param A : Type} (env : Imports param) (h : ref -> pgroup param A)
  (arg : param_groups_arg) (refs : list ref) :
  input_groups arg = Some refs ->
  split_params_into_different_groups_for_optimizer env h arg
  = if lookups_succeed (A := A) env (all_params (map h refs))
    then Ok (split_closed_form_refs env h refs)
    else Raise KeyError.
Proof.
  intros Harg.
  assert (Hrun : split_params_into_different_groups_for_optimizer env h arg
                 = Py.bind (for_each refs (split_group env)
                              (h, initial_new_groups env))
                     (fun r => Ok (map (fst r) refs
                                   ++ filter (fun g => truthy (params g))
                                             (map snd (snd r))))).
  { destruct arg; simpl in Harg; try discriminate; injection Harg as <-;
      reflexivity. }
  rewrite Hrun, <- lookups_of_first_occurrences.
  pose proof (split_store_closed env h refs [] h (initial_new_groups env)
                (initial_new_groups_NoDup env)
                (fun r (H : In r []) => match H with end)
                (fun r _ => eq_refl)) as H.
  cbv zeta in H. unfold lookups_succeed.
  unfold store in *. revert H.
  match goal with
  | |- match ?t with _ => _ end -> _ => destruct t as [[h' d']|e]
  end; intros H.
  - destruct H as (-> & Hin & _ & ->). cbn [Py.bind fst snd].
    unfold split_closed_form_refs. f_equal. f_equal.
    + apply map_ext_in. intros r Hr. apply Hin, in_or_app. now left.
    + f_equal. rewrite map_map. apply map_ext_in. intros [k g] Hk. simpl.
      pose proof (initial_new_groups_sorted (A := A) env) as Hs.
      pose proof (initial_new_groups_Forall (A := A) env
                    (fun e => params (snd e) = [])
                    (fun _ _ => eq_refl)) as He.
      unfold sorted_by_destination in Hs. rewrite Forall_forall in Hs, He.
      destruct (Hs _ Hk) as (Hname & _). specialize (He _ Hk). simpl in *.
      now rewrite Hname, He.
  - destruct H as (-> & ->). reflexivity.
Qed.

Lemma split_with_repeats_witness :
  split_params_into_different_groups_for_optimizer
    {| is_norm_param := fun _ => false;
       is_gate_param := fun _ => false;
       is_moe_param := fun _ => false;
       is_float32 := fun p => Nat.odd p;
       group_name := fun _ => "none"%string;
       num_experts := 0;
       expert_parallel_group_names := [] |}
    (fun r => {| name := None; params := [10 * r + 1; 10 * r + 2];
                 attrs := [("lr"%string, Given r)] |})
    (OfList [1; 2; 1])
  = Ok [{| name := None; params := [12]; attrs := [("lr"%string, Given 1)] |};
        {| name := None; params := [22]; attrs := [("lr"%string, Given 2)] |};
        {| name := None; params := [12]; attrs := [("lr"%string, Given 1)] |};
        {| name := Some "fp32"%string; params := [11; 21];
           attrs := [("lr"%string, Given 1)] |}].
Proof.
  exact (split_with_repeats
           {| is_norm_param := fun _ => false;
              is_gate_param := fun _ => false;
              is_moe_param := fun _ => false;
              is_float32 := fun p => Nat.odd p;
              group_name := fun _ => "none"%string;
              num_experts := 0;
              expert_parallel_group_names := [] |}
           (fun r => {| name := None; params := [10 * r + 1; 10 * r + 2];
                        attrs := [("lr"%string, Given r)] |})
           (OfList [1; 2; 1]) [1; 2; 1] eq_refl).
Defined.

End SplitAliasFacts.

(* ================================================================== *)
(** * When a family carves up the ranks *)
(* ================================================================== *)

Module CoverConditionFacts.

Import Dist PGI Spec Vocabulary.
Import PyFacts CoverFacts InitFacts PartitionFacts LoopFacts MadeFacts TupleFacts
       WellFormedFacts.

(** A family that is part of the ranks below [ws] carves them up exactly
    when no rank below [ws] is missing from it. *)
Lemma cover_iff_members (ws : nat) (parts : list (list nat)) :
  (exists rest, Permutation (concat parts ++ rest) (seq 0 ws)) ->
  exact_cover ws parts <-> forall r, r < ws -> In r (concat parts).
Proof.
  intros (rest & Hperm). split.
  - intros (Hc & _) r Hr. destruct (Hc r Hr) as (i & (p & Hn & Hin) & _).
    apply in_concat. exists p. split; [eapply nth_error_In; eauto|exact Hin].
  - intros Hall. apply permutation_exact_cover, cover_by_counting.
    + apply Permutation_length in Hperm.
      rewrite length_app, length_seq in Hperm. lia.
    + intros r Hr. pose proof (Hall r Hr) as Hin. apply in_concat in Hin.
      destruct Hin as (p & Hp & Hin). eauto.
Qed.

(** The loops of the Zero1 initializer reach every rank exactly when there
    is no rank at all or [zero1_parallel_size] divides
    [data_parallel_size]. *)
Lemma zero1_reach_iff a :
  data_parallel_size a <> 0 -> zero1_parallel_size a <> 0 ->
  world_size a mod data_parallel_size a = 0 ->
  zero1_reach a = world_size a
  <-> world_size a = 0 \/ data_parallel_size a mod zero1_parallel_size a = 0.
Proof.
  intros Hdp Hz Hmod. unfold zero1_reach.
  pose proof (exact_division _ _ Hmod) as Hws.
  pose proof (Nat.div_mod_eq (data_parallel_size a) (zero1_parallel_size a)) as Hd.
  set (B := world_size a / data_parallel_size a) in *.
  set (q := data_parallel_size a / zero1_parallel_size a) in *.
  split.
  - intros E. destruct (Nat.eq_dec B 0) as [HB|HB]; [left; nia|right].
    assert (zero1_parallel_size a * q = data_parallel_size a) by nia. lia.
  - intros [H0|Hdiv].
    + assert (B = 0) by nia. nia.
    + rewrite Hdiv in Hd. nia.
Qed.

(** A list without repetition lies within its first [n] members exactly
    when it has no more than [n]. *)
Lemma firstn_covers_iff (d : list nat) (n : nat) :
  NoDup d ->
  (forall x, In x d -> In x (firstn n d)) <-> length d <= n.
Proof.
  intros Hnd. split.
  - intros Hall. destruct (Nat.le_gt_cases (length d) n) as [Hle|Hgt]; [exact Hle|].
    exfalso.
    destruct (nth_error d n) as [x|] eqn:Ex;
      [|apply nth_error_None in Ex; lia].
    rewrite <- (firstn_skipn n d) in Hnd.
    assert (Hin : In x (skipn n d)).
    { apply (nth_error_In _ 0). now rewrite nth_error_skipn, Nat.add_0_r. }
    apply (NoDup_app_disjoint _ _ x Hnd); [|exact Hin].
    apply Hall. eapply nth_error_In; eauto.
  - intros Hle x Hx. now rewrite firstn_all2.
Qed.

(** ** The columns of [zip] *)

Lemma zip_cons_nth {X : Type} (l : list X) :
  forall (cols : list (list X)) (t : nat) (c : list X),
    nth_error (zip_cons l cols) t = Some c ->
    exists y col, nth_error l t = Some y /\ nth_error cols t = Some col
                  /\ c = y :: col.
Proof.
  induction l as [|x l IH]; intros cols t c H.
  - destruct t; discriminate H.
  - destruct cols as [|col cols]; [destruct t; discriminate H|].
    destruct t as [|t]; simpl in H.
    + injection H as <-. exists x, col. auto.
    + apply IH in H. exact H.
Qed.

(** Column [t] of [zip] exists only where every row has a member at [t],
    and holds nothing but the members of the rows at [t]. *)
Lemma zip_star_column {X : Type} (rows : list (list X)) :
  forall (t : nat) (col : list X),
    nth_error (zip_star rows) t = Some col ->
    (forall row, In row rows -> t < length row)
    /\ (forall y, In y col -> exists row, In row rows /\ nth_error row t = Some y).
Proof.
  induction rows as [|l rows IH]; intros t col H.
  - destruct t; discriminate H.
  - destruct rows as [|l2 ls].
    + simpl in H. rewrite nth_error_map in H.
      destruct (nth_error l t) as [x|] eqn:Ex; [|discriminate H].
      injection H as <-. split.
      * intros row [<-|[]]. apply nth_error_Some. congruence.
      * intros y [<-|[]]. exists l. split; [now left|exact Ex].
    + change (zip_star (l :: l2 :: ls)) with (zip_cons l (zip_star (l2 :: ls))) in H.
      apply zip_cons_nth in H. destruct H as (y & col' & Hy & Hcol & ->).
      destruct (IH t col' Hcol) as (Hlen & Hmem). split.
      * intros row [<-|Hrow]; [apply nth_error_Some; congruence|now apply Hlen].
      * intros y' [<-|Hy'].
        -- exists l. split; [now left|exact Hy].
        -- destruct (Hmem y' Hy') as (row & Hrow & Hn).
           exists row. split; [now right|exact Hn].
Qed.

(** ** The chunks of a data-parallel group *)

Lemma slice_nth {X : Type} (d : list X) (i j t : nat) (x : X) :
  nth_error (slice d i j) t = Some x ->
  t < j - i /\ nth_error d (i + t) = Some x.
Proof.
  unfold slice. rewrite nth_error_firstn, nth_error_skipn.
  destruct (Nat.ltb_spec t (j - i)); [auto|discriminate].
Qed.

Lemma slice_length {X : Type} (d : list X) (i ep : nat) :
  length (slice d i (i + ep)) = Nat.min ep (length d - i).
Proof.
  unfold slice. rewrite length_firstn, length_skipn. f_equal. lia.
Qed.

(** A member of a column of the transposed chunks: the member at offset
    [t] of a chunk [c], where every chunk has a member at offset [t]. *)
Lemma chunk_column_member (d : list nat) (ep C x : nat) :
  In x (concat (zip_star
                  (map (fun i => slice d i (i + ep))
                       (map (fun k => 0 + k * ep) (seq 0 C))))) ->
  exists c t, c < C /\ t < ep /\ nth_error d (c * ep + t) = Some x
              /\ forall c', c' < C -> c' * ep + t < length d.
Proof.
  intros H. apply in_concat in H. destruct H as (col & Hcol & Hx).
  apply In_nth_error in Hcol. destruct Hcol as (t & Hcol).
  destruct (zip_star_column _ t col Hcol) as (Hlen & Hmem).
  destruct (Hmem x Hx) as (row & Hrow & Hn).
  apply in_map_iff in Hrow. destruct Hrow as (i & <- & Hi).
  apply in_map_iff in Hi. destruct Hi as (c & <- & Hc). apply in_seq in Hc.
  apply slice_nth in Hn. destruct Hn as (Ht & Hn).
  exists c, t. split; [lia|]. split; [lia|]. split; [exact Hn|].
  intros c' Hc'.
  assert (Hr : t < length (slice d (0 + c' * ep) (0 + c' * ep + ep))).
  { apply Hlen. apply in_map_iff. exists (0 + c' * ep). split; [reflexivity|].
    apply in_map_iff. exists c'. split; [reflexivity|apply in_seq; lia]. }
  rewrite slice_length in Hr. lia.
Qed.

(** The chunks of a group hold the whole group exactly when the group has
    no more members than the chunks reach. *)
Lemma chunks_cover_iff (d : list nat) (ep C : nat) :
  NoDup d ->
  (forall x, In x d ->
     In x (concat (map (fun i => slice d i (i + ep))
                       (map (fun k => 0 + k * ep) (seq 0 C)))))
  <-> length d <= C * ep.
Proof.
  intros Hnd. rewrite slices_concat. now apply firstn_covers_iff.
Qed.

(** The transposed chunks of a group hold the whole group exactly when the
    group is empty, or fills every chunk, or fits into the one chunk there
    is: [zip] stops at the shortest chunk. *)
Lemma zip_chunks_cover_iff (d : list nat) (ep C : nat) :
  NoDup d -> ep <> 0 ->
  (forall x, In x d ->
     In x (concat (zip_star
                     (map (fun i => slice d i (i + ep))
                          (map (fun k => 0 + k * ep) (seq 0 C))))))
  <-> (length d = 0 \/ length d = C * ep \/ (C = 1 /\ length d <= ep)).
Proof.
  intros Hnd Hep. pose proof (proj1 (NoDup_nth_error d) Hnd) as Hinj. split.
  - intros Hall.
    destruct (Nat.eq_dec (length d) 0) as [H0|H0]; [now left|right].
    assert (Hat : forall p, p < length d ->
                    exists c t, c < C /\ t < ep /\ c * ep + t = p
                                /\ (C - 1) * ep + t < length d).
    { intros p Hp. destruct (nth_error d p) as [x|] eqn:Ex;
        [|apply nth_error_None in Ex; lia].
      destruct (chunk_column_member d ep C x
                  (Hall x (nth_error_In _ _ Ex))) as (c & t & Hc & Ht & Hn & Hmin).
      exists c, t. split; [exact Hc|]. split; [exact Ht|]. split.
      - symmetry. apply Hinj; [exact Hp|congruence].
      - apply Hmin. lia. }
    destruct (Hat 0 ltac:(lia)) as (c0 & t0 & Hc0 & _ & _ & Hlast).
    assert (Hle : length d <= C * ep).
    { destruct (Nat.le_gt_cases (length d) (C * ep)) as [Hle|Hgt]; [exact Hle|].
      destruct (Hat (C * ep) Hgt) as (c & t & Hc & Ht & E & _). nia. }
    destruct (Nat.eq_dec (length d) (C * ep)) as [E|Hne]; [now left|right].
    destruct (Nat.eq_dec C 1) as [->|HC]; [split; [reflexivity|lia]|].
    exfalso.
    assert (HK : C * ep = (C - 1) * ep + ep) by nia.
    assert (Hep' : ep <= (C - 1) * ep) by nia.
    set (K := (C - 1) * ep) in *.
    assert (Hm : length d - K < length d) by lia.
    destruct (Hat (length d - K) Hm) as (c & t & Hc & Ht & E & Hl).
    destruct c as [|c]; [lia|]. nia.
  - intros [H0|[HL|(-> & HL)]] x Hx.
    + destruct d; [destruct Hx|discriminate H0].
    + set (rows := map _ (map _ (seq 0 C))).
      assert (Hrows : forall p, In p rows -> length p = ep).
      { intros p Hp. apply in_map_iff in Hp. destruct Hp as (i & <- & Hi).
        apply in_map_iff in Hi. destruct Hi as (c & <- & Hc). apply in_seq in Hc.
        rewrite slice_length. nia. }
      apply (Permutation_in x (Permutation_sym (zip_star_concat ep rows Hrows))).
      unfold rows. rewrite slices_concat, firstn_all2 by lia. exact Hx.
    + simpl. unfold slice. simpl. rewrite Nat.sub_0_r, firstn_all2 by exact HL.
      apply in_concat. exists [x]. split; [|now left].
      apply in_map_iff. eauto.
Qed.

(** ** Families selected from the data-parallel groups *)

(** The data-parallel groups are [range(j, ws, mp)] for [j] below [mp].  A
    family that takes from every group some of its members holds every
    rank below [ws] exactly when it takes every member of every group (and
    there is a group at all, unless there is no rank). *)
Lemma selection_cover_iff (F : list nat -> list (list nat)) (ws mp : nat) :
  (forall d, incl (concat (F d)) d) ->
  (forall r, r < ws ->
     In r (concat (flat_map F (map (fun i => range3 i ws mp) (range mp)))))
  <-> ((mp = 0 -> ws = 0)
       /\ forall j, j < mp ->
            forall x, In x (range3 j ws mp) -> In x (concat (F (range3 j ws mp)))).
Proof.
  intros Hsub. split.
  - intros Hall. split.
    + intros ->. destruct ws as [|ws]; [reflexivity|].
      destruct (Hall 0 ltac:(lia)).
    + intros j Hj x Hx.
      pose proof Hx as Hx'. apply in_range3 in Hx'.
      destruct Hx' as (k & Ek & Hk). apply range_len_bound in Hk.
      assert (Hin : In x (concat (flat_map F (map (fun i => range3 i ws mp)
                                                  (range mp)))))
        by (apply Hall; lia).
      rewrite concat_flat_map in Hin. apply in_flat_map in Hin.
      destruct Hin as (d & Hd & Hin). apply in_map_iff in Hd.
      destruct Hd as (j' & <- & Hj'). apply in_seq in Hj'.
      pose proof (Hsub _ _ Hin) as Hx2. apply in_range3 in Hx2.
      destruct Hx2 as (k' & Ek' & _).
      destruct (div_mod_unique mp k j x) as (_ & H1); [lia|lia|].
      destruct (div_mod_unique mp k' j' x) as (_ & H2); [lia|lia|].
      assert (E : j' = j) by congruence. rewrite E in Hin. exact Hin.
  - intros (Hmp & Hall) r Hr.
    assert (Hnz : mp <> 0) by (intros E; specialize (Hmp E); lia).
    pose proof (Nat.div_mod_eq r mp) as Hdm.
    pose proof (Nat.mod_upper_bound r mp Hnz) as Hlt.
    rewrite concat_flat_map. apply in_flat_map.
    exists (range3 (r mod mp) ws mp). split.
    + apply in_map_iff. exists (r mod mp). split; [reflexivity|].
      apply in_seq. lia.
    + apply Hall; [exact Hlt|]. apply in_range3. exists (r / mp). split; [lia|].
      apply range_len_lt; lia.
Qed.

End CoverConditionFacts.

(* ================================================================== *)
(** * The claims about the groups of a run *)
(* ================================================================== *)

Module RunClaims.

Import Dist PGI Spec Vocabulary.
Import PyFacts CoverFacts InitFacts PartitionFacts LoopFacts MadeFacts TupleFacts
       WellFormedFacts CoverConditionFacts.

(** C1, as amended.  The rank lists that a run of [init_dist_group] hands
    to [new_group], for a topology that the constructor accepts.  For the
    Data, Model, Tensor, Pipeline, NetTest and Expert initializers they
    carve up the ranks [0 .. world_size-1]: every rank lies in exactly one
    list (for NetTest the lists are the chunks of [nettest_parallel_size]
    consecutive ranks, the last one cut at [world_size]).  For the Zero1
    initializer they do so exactly when there is no rank at all or
    [zero1_parallel_size] divides [data_parallel_size].  The run of the
    expert-data initializer goes through the expert groups and then the
    expert-data groups of [_get_expert_parallel_ranks]; with the
    data-parallel groups [range(j, world_size, mp)] for [j] below [mp =
    pipeline_parallel_size * tensor_parallel_size], cut into [chunks =
    len(range(0, data_parallel_size, expert_parallel_size))] chunks of
    [expert_parallel_size] members, the expert groups carve up the ranks
    exactly when no data-parallel group has more members than the chunks
    reach, and the expert-data groups exactly when every data-parallel
    group is empty, or fills every chunk, or fits into the one chunk there
    is (and in either case there is a data-parallel group at all, unless
    there is no rank). *)
Theorem families_carve_up_the_ranks
  (x : Axis) (a : ProcessGroupInitializer) (o : Initializer)
  (use_cpu : bool) (st : Transport) :
  construct x a = Ok o ->
  let ws := world_size a in
  let made := partitions_made x a use_cpu st in
  (x <> Zero1 -> x <> Expert_Data -> exact_cover ws made)
  /\ (x = Zero1 ->
      (exact_cover ws made
       <-> ws = 0 \/ data_parallel_size a mod zero1_parallel_size a = 0))
  /\ (x = Expert_Data ->
      exists oe,
        o = OfExpert_Data oe
        /\ let g := Initializer_Expert_Data._get_expert_parallel_ranks oe in
           let mp := pipeline_parallel_size a * tensor_parallel_size a in
           let ep := expert_parallel_size a in
           let chunks := length (range3 0 (data_parallel_size a) ep) in
           let len := fun j => length (range3 j ws mp) in
           made = fst g ++ snd g
           /\ (exact_cover ws (fst g)
               <-> (mp = 0 -> ws = 0)
                   /\ forall j, j < mp -> len j <= chunks * ep)
           /\ (exact_cover ws (snd g)
               <-> (mp = 0 -> ws = 0)
                   /\ forall j, j < mp ->
                        len j = 0 \/ len j = chunks * ep
                        \/ (chunks = 1 /\ len j <= ep))).
Proof.
  intros Hc ws made. subst ws made. split; [|split].
  - intros Hz Hed. rewrite (made_of_families x a o _ _ Hc).
    apply permutation_exact_cover.
    destruct x; try congruence; unfold construct, fmap, Py.bind in Hc;
      match type of Hc with
      | match ?i with _ => _ end = _ => destruct i as [o'|] eqn:E
      end; try discriminate; injection Hc as <-; simpl; rewrite app_nil_r.
    + now apply Data_cover.
    + now rewrite (Model_partitions_concat a).
    + now apply Pipeline_cover.
    + now rewrite (Tensor_partitions_concat a).
    + now rewrite (Nettest_partitions_concat a).
    + now apply Expert_cover.
  - intros ->. unfold construct, fmap, Py.bind in Hc.
    destruct (Initializer_Zero1.__init__ a) as [oz|] eqn:E; [|discriminate].
    rewrite (Zero1_made a oz _ _ E).
    destruct (Zero1_ok E) as (_ & _ & _ & Hdp & Hz & Hmod & _).
    rewrite <- (zero1_reach_iff a Hdp Hz Hmod).
    pose proof (Zero1_reach_cover a oz E) as Hperm.
    pose proof (zero1_reach_le a Hdp) as Hle.
    split.
    + intros (Hcov & _).
      destruct (Nat.eq_dec (zero1_reach a) (world_size a)) as [Heq|Hne];
        [exact Heq|exfalso].
      assert (Hlt : zero1_reach a < world_size a) by lia.
      destruct (Hcov (zero1_reach a) Hlt) as (i & (p & Hn & Hp) & _).
      assert (Hin : In (zero1_reach a) (seq 0 (zero1_reach a))).
      { apply (Permutation_in _ Hperm), in_concat. exists p.
        split; [eapply nth_error_In; eauto|exact Hp]. }
      apply in_seq in Hin. lia.
    + intros Heq. apply permutation_exact_cover.
      rewrite <- Heq. exact Hperm.
  - intros ->. unfold construct, fmap, Py.bind in Hc.
    destruct (Initializer_Expert_Data.__init__ a) as [oe|] eqn:E; [|discriminate].
    injection Hc as <-. exists oe. split; [reflexivity|]. cbv zeta.
    destruct (Expert_Data_ok E) as (Hb & _ & Hep).
    split; [now apply Expert_Data_made|].
    destruct (Expert_Data_parts oe) as (Hpe & Hpd). rewrite Hb in Hpe, Hpd.
    pose proof (Expert_Data_families oe) as Hfam. cbv zeta in Hfam.
    rewrite Hb in Hfam. rewrite Hfam in *. simpl fst in *. simpl snd in *.
    set (mp := pipeline_parallel_size a * tensor_parallel_size a) in *.
    set (ep := expert_parallel_size a) in *.
    assert (HC : length (range3 0 (data_parallel_size a) ep)
                 = range_len 0 (data_parallel_size a) ep)
      by apply range3_length.
    rewrite HC.
    set (C := range_len 0 (data_parallel_size a) ep) in *.
    set (chunk := fun d : list nat =>
                    map (fun i => slice d i (i + ep))
                        (map (fun k => 0 + k * ep) (seq 0 C))).
    set (groups := map (fun i => range3 i (world_size a) mp) (range mp)) in *.
    assert (Hsub1 : forall d, incl (concat (chunk d)) d).
    { intros d y Hy. unfold chunk in Hy. rewrite slices_concat in Hy.
      rewrite <- (firstn_skipn (C * ep) d). apply in_or_app. now left. }
    assert (Hsub2 : forall d, incl (concat (zip_star (chunk d))) d).
    { intros d y Hy. apply Hsub1.
      destruct (zip_star_part (chunk d)) as (rest & Hperm).
      apply (Permutation_in y Hperm), in_or_app. now left. }
    assert (Hnd : forall j, j < mp -> NoDup (range3 j (world_size a) mp)).
    { intros j Hj. apply NoDup_range3. lia. }
    pose proof (cover_iff_members (world_size a) (flat_map chunk groups) Hpe)
      as Hm1.
    pose proof (cover_iff_members (world_size a)
                  (flat_map (fun d => zip_star (chunk d)) groups) Hpd) as Hm2.
    pose proof (selection_cover_iff chunk (world_size a) mp Hsub1) as Hs1.
    pose proof (selection_cover_iff (fun d => zip_star (chunk d))
                  (world_size a) mp Hsub2) as Hs2.
    fold groups in Hs1, Hs2.
    assert (H1 : exact_cover (world_size a) (flat_map chunk groups)
                 <-> (mp = 0 -> world_size a = 0)
                     /\ forall j, j < mp ->
                          length (range3 j (world_size a) mp) <= C * ep).
    { rewrite Hm1, Hs1.
      split; intros (Hmp & Hall); (split; [exact Hmp|]); intros j Hj.
      - apply (chunks_cover_iff _ ep C (Hnd j Hj)). now apply Hall.
      - apply (chunks_cover_iff _ ep C (Hnd j Hj)). now apply Hall. }
    assert (H2 : exact_cover (world_size a)
                   (flat_map (fun d => zip_star (chunk d)) groups)
                 <-> (mp = 0 -> world_size a = 0)
                     /\ forall j, j < mp ->
                          length (range3 j (world_size a) mp) = 0
                          \/ length (range3 j (world_size a) mp) = C * ep
                          \/ (C = 1
                              /\ length (range3 j (world_size a) mp) <= ep)).
    { rewrite Hm2, Hs2.
      split; intros (Hmp & Hall); (split; [exact Hmp|]); intros j Hj.
      - apply (zip_chunks_cover_iff _ ep C (Hnd j Hj) Hep). now apply Hall.
      - apply (zip_chunks_cover_iff _ ep C (Hnd j Hj) Hep). now apply Hall. }
    split; [exact H1|exact H2].
Qed.

Lemma families_carve_up_the_ranks_witness :
  (exact_cover 8 [[0; 2]; [4; 6]; [1; 3]; [5; 7]]
   /\ exact_cover 8 [[0; 4]; [2; 6]; [1; 5]; [3; 7]])
  /\ exact_cover 12 [[0; 2; 4; 6]; [8; 10]; [1; 3; 5; 7]; [9; 11]].
Proof.
  pose (st := {| backend := "nccl"%string; created := [] |}).
  split.
  - pose (a := Build_ProcessGroupInitializer 5 8 4 1 2 1 3 2).
    pose (o := OfExpert_Data
                 {| Initializer_Expert_Data.base := a;
                    Initializer_Expert_Data.num_expert_parallel_group := 4 |}).
    destruct (families_carve_up_the_ranks Expert_Data a o false st eq_refl)
      as (_ & _ & Hed).
    destruct (Hed eq_refl) as (oe & Hoe & _ & He & Hd).
    injection Hoe as <-. split.
    + apply (proj2 He). split; [intros H; discriminate H|].
      intros j Hj. destruct j as [|[|j]]; [vm_compute; lia|vm_compute; lia|].
      simpl in Hj. lia.
    + apply (proj2 Hd). split; [intros H; discriminate H|].
      intros j Hj. destruct j as [|[|j]];
        [right; left; reflexivity|right; left; reflexivity|].
      simpl in Hj. lia.
  - pose (a := Build_ProcessGroupInitializer 0 12 6 1 2 1 1 4).
    pose (o := OfExpert_Data
                 {| Initializer_Expert_Data.base := a;
                    Initializer_Expert_Data.num_expert_parallel_group := 3 |}).
    destruct (families_carve_up_the_ranks Expert_Data a o false st eq_refl)
      as (_ & _ & Hed).
    destruct (Hed eq_refl) as (oe & Hoe & _ & He & _).
    injection Hoe as <-.
    apply (proj2 He). split; [intros H; discriminate H|].
    intros j Hj. destruct j as [|[|j]]; [vm_compute; lia|vm_compute; lia|].
    simpl in Hj. lia.
Defined.

Ltac no_partition_holds Hn Hin :=
  repeat match type of Hn with
    | nth_error _ ?i = Some _ =>
        destruct i as [|i]; simpl in Hn;
        [injection Hn as <-; simpl in Hin; intuition lia|]
    end;
  try discriminate Hn.

(** C1, as stated, fails: three topologies that satisfy every check of
    their constructor, and the rank lists that the run hands to
    [new_group] leave ranks out.  Zero1 with [world_size = 12],
    [data_parallel_size = 6], [zero1_parallel_size = 4] makes two groups
    that stop at rank 7; the expert-data initializer, which checks nothing,
    with [world_size = 8], [data_parallel_size = 2], two ranks per model
    and [expert_parallel_size = 2] leaves ranks 4 to 7 out of its expert
    groups, and with [world_size = 12], [data_parallel_size = 6], two ranks
    per model and [expert_parallel_size = 4] leaves ranks 4 to 7 out of its
    expert-data groups. *)
Lemma accepted_topologies_that_omit_ranks :
  (asserts_hold Zero1 (Build_ProcessGroupInitializer 0 12 6 1 2 4 1 1) = true
   /\ resolve Zero1 (Build_ProcessGroupInitializer 0 12 6 1 2 4 1 1)
      = Ok [[[0; 2; 4; 6]; [1; 3; 5; 7]]]
   /\ partitions_made Zero1 (Build_ProcessGroupInitializer 0 12 6 1 2 4 1 1)
        false {| backend := "nccl"; created := [] |}
      = [[0; 2; 4; 6]; [1; 3; 5; 7]]
   /\ ~ exact_cover 12 [[0; 2; 4; 6]; [1; 3; 5; 7]])
  /\ (resolve Expert_Data (Build_ProcessGroupInitializer 0 8 2 1 2 1 1 2)
      = Ok [[[0; 2]; [1; 3]]; [[0]; [2]; [1]; [3]]]
      /\ partitions_made Expert_Data (Build_ProcessGroupInitializer 0 8 2 1 2 1 1 2)
           false {| backend := "nccl"; created := [] |}
         = [[0; 2]; [1; 3]] ++ [[0]; [2]; [1]; [3]]
      /\ ~ exact_cover 8 [[0; 2]; [1; 3]])
  /\ (resolve Expert_Data (Build_ProcessGroupInitializer 0 12 6 1 2 1 1 4)
      = Ok [[[0; 2; 4; 6]; [8; 10]; [1; 3; 5; 7]; [9; 11]];
            [[0; 8]; [2; 10]; [1; 9]; [3; 11]]]
      /\ partitions_made Expert_Data
           (Build_ProcessGroupInitializer 0 12 6 1 2 1 1 4)
           false {| backend := "nccl"; created := [] |}
         = [[0; 2; 4; 6]; [8; 10]; [1; 3; 5; 7]; [9; 11]]
           ++ [[0; 8]; [2; 10]; [1; 9]; [3; 11]]
      /\ ~ exact_cover 12 [[0; 8]; [2; 10]; [1; 9]; [3; 11]]).
Proof.
  repeat split; try reflexivity.
  - intros (Hc & _). destruct (Hc 8) as (i & (p & Hn & Hin) & _); [lia|].
    no_partition_holds Hn Hin. destruct i; discriminate Hn.
  - intros (Hc & _). destruct (Hc 4) as (i & (p & Hn & Hin) & _); [lia|].
    no_partition_holds Hn Hin. destruct i; discriminate Hn.
  - intros (Hc & _). destruct (Hc 4) as (i & (p & Hn & Hin) & _); [lia|].
    no_partition_holds Hn Hin. destruct i; discriminate Hn.
Qed.

(** C5.  With [world_size = 8] and [expert_parallel_size = 4] a run of the
    Expert initializer hands exactly [0,2,4,6] and [1,3,5,7] to
    [new_group], in that order, whatever the rank, the other sizes, the
    [use_cpu] flag and the state of the transport.  In every topology its
    constructor accepts the run makes [n = world_size //
    expert_parallel_size] groups, and group [i] is [i, i+n, i+2n, ...], the
    ranks below [world_size] that are [i] more than a multiple of [n]; with
    more than one group no two ranks of a group are neighbours, so no group
    is a block of consecutive ranks. *)
Theorem expert_groups_are_interleaved :
  (forall r pp tp z nt use_cpu st,
      partitions_made Expert (Build_ProcessGroupInitializer r 8 4 pp tp z nt 4)
        use_cpu st
      = [[0; 2; 4; 6]; [1; 3; 5; 7]])
  /\ (forall a o use_cpu st,
         Initializer_Expert.__init__ a = Ok o ->
         let n := world_size a / expert_parallel_size a in
         let made := partitions_made Expert a use_cpu st in
         length made = n
         /\ (forall i, i < n ->
               nth_error made i
               = Some (map (fun k => i + k * n) (seq 0 (world_size a / n))))
         /\ (1 < n -> forall p r, In p made -> In r p -> ~ In (r + 1) p)).
Proof.
  split.
  - intros r pp tp z nt use_cpu st.
    now rewrite (Expert_made (Build_ProcessGroupInitializer r 8 4 pp tp z nt 4)
                   _ use_cpu st eq_refl).
  - intros a o use_cpu st H n made. unfold made.
    rewrite (Expert_made a o use_cpu st H).
    destruct (Expert_ok H) as (Hb & Hn & Hep & Hnz & Hmod & _).
    fold n in Hn, Hnz, Hmod.
    unfold Initializer_Expert.partitions. rewrite Hb, Hn.
    split; [|split].
    + unfold range. now rewrite length_map, length_seq.
    + intros i Hi. rewrite nth_error_map_range by exact Hi. f_equal.
      unfold range3. f_equal. f_equal.
      rewrite (exact_division _ _ Hmod) at 1. apply range_len_exact; lia.
    + intros Hmany p r Hp Hr Hnext.
      apply in_map_iff in Hp. destruct Hp as (i & <- & _).
      apply in_range3 in Hr. destruct Hr as (k & -> & _).
      apply in_range3 in Hnext. destruct Hnext as (k' & E & _).
      destruct (Nat.le_gt_cases k' k) as [Hle|Hgt].
      * pose proof (Nat.mul_le_mono_r _ _ n Hle). lia.
      * pose proof (Nat.mul_le_mono_r (S k) k' n Hgt) as Hstep.
        simpl in Hstep. lia.
Qed.

Lemma expert_groups_are_interleaved_witness :
  nth_error (partitions_made Expert (Build_ProcessGroupInitializer 0 8 4 1 2 1 1 4)
               true {| backend := "nccl"; created := [] |}) 1
  = Some [1; 3; 5; 7]
  /\ ~ In (5 + 1) [1; 3; 5; 7].
Proof.
  pose (a := Build_ProcessGroupInitializer 0 8 4 1 2 1 1 4).
  pose (st := {| backend := "nccl"; created := [] |}).
  destruct (proj2 expert_groups_are_interleaved a _ true st eq_refl)
    as (_ & Hnth & Hgap).
  assert (Hone : 1 < world_size a / expert_parallel_size a) by (simpl; lia).
  split.
  - exact (Hnth 1 Hone).
  - apply (Hgap Hone [1; 3; 5; 7] 5); [right; left; reflexivity|simpl; tauto].
Defined.

(** C6.  With [world_size = 8], [data_parallel_size = 2] and
    [pipeline_parallel_size = 2] (blocks of four ranks, stage stride two) a
    run of the Pipeline initializer hands to [new_group] the lists [0,2]
    and [1,3], of the first data block, and then [4,6] and [5,7], of the
    second, each of [pipeline_parallel_size] members, whatever the rank,
    the other sizes, the [use_cpu] flag and the state of the transport. *)
Theorem pipeline_worked_example (r tp z nt ep : nat) (use_cpu : bool)
  (st : Transport) :
  let a := Build_ProcessGroupInitializer r 8 2 2 tp z nt ep in
  let made := partitions_made Pipeline a use_cpu st in
  made = [[0; 2]; [1; 3]; [4; 6]; [5; 7]]
  /\ Forall (fun p => length p = pipeline_parallel_size a) made
  /\ Forall (fun p => Forall (fun q => q < 4) p) (firstn 2 made)
  /\ Forall (fun p => Forall (fun q => 4 <= q < 8) p) (skipn 2 made).
Proof.
  intros a made.
  assert (E : made = [[0; 2]; [1; 3]; [4; 6]; [5; 7]]).
  { unfold made. now rewrite (Pipeline_made a _ use_cpu st eq_refl). }
  rewrite E. split; [reflexivity|]. split; [repeat constructor|].
  split; repeat constructor.
Qed.

(** C9.  The constructor of the Expert initializer returns exactly when
    [expert_parallel_size] and [world_size // expert_parallel_size] are not
    zero, [world_size % (world_size // expert_parallel_size) == 0] and
    [data_parallel_size == expert_parallel_size]; that [expert_parallel_size]
    divide [world_size] is not asked: [world_size = 10] with
    [expert_parallel_size = 4] is accepted, and the run hands two lists of
    five ranks to [new_group].  In every accepted topology the run makes
    [world_size // expert_parallel_size] groups, at least one, each of
    [world_size // (world_size // expert_parallel_size)] members, and that
    number is [expert_parallel_size] exactly when [expert_parallel_size]
    divides [world_size]. *)
Theorem expert_accepts_sizes_that_do_not_divide :
  (forall r pp tp z nt use_cpu st,
      10 mod 4 <> 0
      /\ partitions_made Expert (Build_ProcessGroupInitializer r 10 4 pp tp z nt 4)
           use_cpu st
         = [[0; 2; 4; 6; 8]; [1; 3; 5; 7; 9]])
  /\ (forall a,
         (exists o, Initializer_Expert.__init__ a = Ok o)
         <-> (expert_parallel_size a <> 0
              /\ world_size a / expert_parallel_size a <> 0
              /\ world_size a mod (world_size a / expert_parallel_size a) = 0
              /\ data_parallel_size a = expert_parallel_size a))
  /\ (forall a o use_cpu st,
         Initializer_Expert.__init__ a = Ok o ->
         let made := partitions_made Expert a use_cpu st in
         length made = world_size a / expert_parallel_size a
         /\ made <> []
         /\ (forall p, In p made ->
               length p = world_size a / (world_size a / expert_parallel_size a))
         /\ (world_size a / (world_size a / expert_parallel_size a)
             = expert_parallel_size a
             <-> world_size a mod expert_parallel_size a = 0)).
Proof.
  split; [|split].
  - intros r pp tp z nt use_cpu st. split; [discriminate|].
    now rewrite (Expert_made (Build_ProcessGroupInitializer r 10 4 pp tp z nt 4)
                   _ use_cpu st eq_refl).
  - intros a. split.
    + intros (o & H). destruct (Expert_ok H) as (_ & _ & H1 & H2 & H3 & H4). auto.
    + intros (H1 & H2 & H3 & H4).
      unfold Initializer_Expert.__init__, floordiv, modulo, assert, Py.bind.
      apply Nat.eqb_neq in H1, H2. rewrite H1, H2.
      apply Nat.eqb_eq in H3, H4. rewrite H3, H4. eauto.
  - intros a o use_cpu st H made. unfold made.
    rewrite (Expert_made a o use_cpu st H).
    destruct (Expert_ok H) as (Hb & Hn & Hep & Hnz & Hmod & _).
    assert (Hlen : length (Initializer_Expert.partitions o)
                   = world_size a / expert_parallel_size a).
    { unfold Initializer_Expert.partitions, range.
      now rewrite length_map, length_seq. }
    split; [exact Hlen|]. split.
    { intros E. rewrite E in Hlen. simpl in Hlen. congruence. }
    split; [intros p; now apply Expert_partition_length|].
    set (n := world_size a / expert_parallel_size a) in *.
    pose proof (exact_division _ _ Hmod) as Hws. split.
    + intros E. rewrite E in Hws. rewrite Hws. apply Nat.Div0.mod_mul.
    + intros Hdiv. pose proof (exact_division _ _ Hdiv) as Hws'. fold n in Hws'.
      rewrite Hws' at 1. now apply Nat.div_mul.
Qed.

Lemma expert_accepts_sizes_that_do_not_divide_witness :
  length (partitions_made Expert (Build_ProcessGroupInitializer 0 10 4 1 1 1 1 4)
            false {| backend := "nccl"; created := [] |}) = 2
  /\ (forall p, In p [[0; 2; 4; 6; 8]; [1; 3; 5; 7; 9]] -> length p = 5)
  /\ (10 / (10 / 4) = 4 <-> 10 mod 4 = 0).
Proof.
  pose (a := Build_ProcessGroupInitializer 0 10 4 1 1 1 1 4).
  pose (st := {| backend := "nccl"; created := [] |}).
  destruct (proj2 (proj2 expert_accepts_sizes_that_do_not_divide) a _ false st
              eq_refl) as (Hlen & _ & Hsize & Hiff).
  split; [exact Hlen|]. split; [exact Hsize|exact Hiff].
Defined.

(** C7.  For every initializer built by its constructor and every run of
    [init_dist_group].  The run asks for a gloo-backed group exactly when
    [use_cpu] is set and the active backend is not gloo, and then once for
    every partition of its families, in their order; with gloo as the
    active backend, or without [use_cpu], not one gloo-backed group is
    made.  A process whose rank is a member of a partition of a family gets
    a tuple for that family that holds a primary handle.  And for every
    tuple returned with a primary handle: the handle was made by a
    [new_group] call for the ranks of the tuple that names no backend; with
    [use_cpu] set and gloo as the active backend the CPU handle is that
    very handle; with [use_cpu] set and any other active backend it is
    another handle, made by a [new_group] call for the same ranks with
    [backend="gloo"]; without [use_cpu] there is no CPU handle. *)
Theorem fallback_handle_reuse
  (x : Axis) (a : ProcessGroupInitializer) (o : Initializer)
  (use_cpu : bool) (st : Transport) :
  construct x a = Ok o ->
  let st' := snd (init_dist_group o use_cpu st) in
  backend st' = backend st
  /\ gloo_partitions (new_calls st st')
     = (if use_cpu && negb (String.eqb (backend st) "gloo")
        then concat (families o) else [])
  /\ (forall fam rs,
        In fam (families o) -> In rs fam -> In (rank a) rs ->
        exists info h rs',
          In info (fst (init_dist_group o use_cpu st))
          /\ In rs' fam /\ In (rank a) rs'
          /\ ranks_in_group (fst info) = Some rs'
          /\ process_group (fst info) = Some h)
  /\ (forall info h rs,
        In info (fst (init_dist_group o use_cpu st)) ->
        process_group (fst info) = Some h ->
        ranks_in_group (fst info) = Some rs ->
        nth_error (created st') h
        = Some {| call_ranks := rs; call_backend := None |}
        /\ (use_cpu = false -> cpu_group (fst info) = None)
        /\ (use_cpu = true -> backend st = "gloo"%string ->
            cpu_group (fst info) = Some h)
        /\ (use_cpu = true -> backend st <> "gloo"%string ->
            exists h', cpu_group (fst info) = Some h' /\ h' <> h
              /\ nth_error (created st') h'
                 = Some {| call_ranks := rs;
                           call_backend := Some "gloo"%string |})).
Proof.
  intros Hc st'.
  assert (Hlog : st' = {| backend := backend st;
                          created := created st
                                     ++ flat_map (calls_for use_cpu (backend st))
                                                 (concat (families o)) |}).
  { unfold st'. apply init_dist_group_log. }
  assert (Hb : backend st' = backend st) by now rewrite Hlog.
  split; [exact Hb|]. split; [|split].
  - rewrite Hlog, new_calls_app. apply gloo_of_calls.
  - rewrite <- (construct_args x a o Hc). intros fam rs Hfam Hrs Hr.
    assert (Hgoal : exists info,
               In info (fst (init_dist_group o use_cpu st))
               /\ exists st1, kept fam (rank (args o)) use_cpu st1 (fst info)).
    { destruct (init_dist_group_shape o) as
        [(parts & mode & Ef & E)|(e & d & Ef & E)]; rewrite E; rewrite Ef in Hfam.
      - destruct Hfam as [<-|[]].
        destruct (visit_all parts (rank (args o)) use_cpu parts no_locals st
                    (incl_refl _)) as (Hkeep & _).
        destruct (Dist.for_each parts _ _ st) as [v st1]. simpl in *.
        exists (v, mode). split; [now left|]. exists st1. apply Hkeep. eauto.
      - destruct (visit_append_all e (rank (args o)) use_cpu EXPERT e
                    (no_locals, []) st (incl_refl _)) as (ae & Hae & Hge & Hne).
        destruct (Dist.for_each e _ _ st) as [s st1]. simpl in Hae, Hge.
        destruct (visit_append_all d (rank (args o)) use_cpu EXPERT_DATA d
                    s st1 (incl_refl _)) as (ad & Had & Hgd & Hnd).
        destruct (Dist.for_each d _ s st1) as [s' st2]. simpl in Had, Hgd |- *.
        rewrite Had, Hae.
        destruct Hfam as [<-|[<-|[]]].
        + destruct ae as [|info ae]; [exfalso; apply Hne; eauto|].
          exists info. split; [apply in_or_app; left; now left|].
          exists st1. apply Hge. now left.
        + destruct ad as [|info ad]; [exfalso; apply Hnd; eauto|].
          exists info. split; [apply in_or_app; right; now left|].
          exists st2. apply Hgd. now left. }
    destruct Hgoal as (info & Hinfo & st1 & rs' & Hin' & Hr' & Hd & (h & Hh) & _).
    destruct Hd as (Hranks & _ & _).
    exists info, h, rs'. auto.
  - intros info h rs Hinfo Hh Hrs.
    assert (Hf : fallback_as_requested use_cpu st' (fst info)).
    { unfold st' in *. clear Hb Hlog st' Hh Hrs.
      destruct (init_dist_group_shape o) as
        [(parts & mode & Ef & E)|(e & d & Ef & E)]; rewrite E in *.
      - destruct (visit_all parts (rank (args o)) use_cpu parts no_locals st
                    (incl_refl _)) as (Hkeep & Hsame).
        destruct (Dist.for_each parts _ _ st) as [v st1]. simpl in *.
        destruct Hinfo as [<-|[]]. simpl.
        destruct (member_partition_dec (rank (args o)) parts) as [Hm|Hno].
        + destruct (Hkeep (or_intror Hm)) as (? & _ & _ & _ & _ & Hf). exact Hf.
        + rewrite (Hsame Hno). apply fallback_without_group.
      - destruct (visit_append_all e (rank (args o)) use_cpu EXPERT e
                    (no_locals, []) st (incl_refl _)) as (ae & Hae & Hge & _).
        pose proof (loop_log use_cpu
                      (Initializer_Expert_Data.visit_append
                         (rank (args o)) use_cpu EXPERT_DATA) d
                      ltac:(intros; now rewrite visit_append_run)) as Hlog.
        destruct (Dist.for_each e _ _ st) as [s st1]. simpl in Hae, Hge.
        destruct (visit_append_all d (rank (args o)) use_cpu EXPERT_DATA d
                    s st1 (incl_refl _)) as (ad & Had & Hgd & _).
        specialize (Hlog s st1).
        destruct (Dist.for_each d _ s st1) as [s' st2].
        simpl in Had, Hgd, Hlog, Hinfo |- *.
        rewrite Had, Hae in Hinfo. simpl in Hinfo.
        apply in_app_or in Hinfo. destruct Hinfo as [Hinfo|Hinfo].
        + destruct (Hge info Hinfo) as (_ & Hk). rewrite Hlog.
          apply (kept_extend e (rank (args o)) use_cpu st1
                   (flat_map (calls_for use_cpu (backend st1)) d)) in Hk.
          destruct Hk as (? & _ & _ & _ & _ & Hf). exact Hf.
        + destruct (Hgd info Hinfo) as (_ & (? & _ & _ & _ & _ & Hf)). exact Hf. }
    destruct (Hf h rs Hh Hrs) as (Hcall & Hoff & Hsame & Hnew).
    rewrite Hb in Hsame, Hnew. auto.
Qed.

Lemma fallback_handle_reuse_witness :
  (exists info h,
      In info (fst (init_dist_group
                      (OfExpert
                         {| Initializer_Expert.base :=
                              Build_ProcessGroupInitializer 3 8 4 1 2 1 1 4;
                            Initializer_Expert.num_expert_parallel_group := 2 |})
                      true {| backend := "gloo"; created := [] |}))
      /\ process_group (fst info) = Some h /\ cpu_group (fst info) = Some h)
  /\ (exists info h h',
         In info (fst (init_dist_group
                         (OfExpert
                            {| Initializer_Expert.base :=
                                 Build_ProcessGroupInitializer 3 8 4 1 2 1 1 4;
                               Initializer_Expert.num_expert_parallel_group := 2 |})
                         true {| backend := "nccl"; created := [] |}))
         /\ process_group (fst info) = Some h /\ cpu_group (fst info) = Some h'
         /\ h' <> h)
  /\ gloo_partitions
       (new_calls {| backend := "nccl"; created := [] |}
          (snd (init_dist_group
                  (OfExpert
                     {| Initializer_Expert.base :=
                          Build_ProcessGroupInitializer 3 8 4 1 2 1 1 4;
                        Initializer_Expert.num_expert_parallel_group := 2 |})
                  true {| backend := "nccl"; created := [] |})))
     = [[0; 2; 4; 6]; [1; 3; 5; 7]].
Proof.
  pose (a := Build_ProcessGroupInitializer 3 8 4 1 2 1 1 4).
  pose (o := OfExpert
               {| Initializer_Expert.base := a;
                  Initializer_Expert.num_expert_parallel_group := 2 |}).
  assert (Hc : construct Expert a = Ok o) by reflexivity.
  assert (Hfam : In [[0; 2; 4; 6]; [1; 3; 5; 7]] (families o))
    by (left; reflexivity).
  assert (Hrs : In [1; 3; 5; 7] [[0; 2; 4; 6]; [1; 3; 5; 7]])
    by (right; left; reflexivity).
  assert (Hr : In (rank a) [1; 3; 5; 7]) by (simpl; tauto).
  split; [|split].
  - pose (st := {| backend := "gloo"%string; created := [] |}).
    destruct (fallback_handle_reuse Expert a o true st Hc)
      as (_ & _ & Hgets & Hhandles).
    destruct (Hgets _ _ Hfam Hrs Hr) as (info & h & rs' & Hin & _ & _ & Hranks & Hh).
    destruct (Hhandles info h rs' Hin Hh Hranks) as (_ & _ & Hsame & _).
    exists info, h. split; [exact Hin|]. split; [exact Hh|].
    apply Hsame; reflexivity.
  - pose (st := {| backend := "nccl"%string; created := [] |}).
    destruct (fallback_handle_reuse Expert a o true st Hc)
      as (_ & _ & Hgets & Hhandles).
    destruct (Hgets _ _ Hfam Hrs Hr) as (info & h & rs' & Hin & _ & _ & Hranks & Hh).
    destruct (Hhandles info h rs' Hin Hh Hranks) as (_ & _ & _ & Hnew).
    destruct (Hnew eq_refl) as (h' & Hc' & Hne & _); [discriminate|].
    exists info, h, h'. auto.
  - pose (st := {| backend := "nccl"%string; created := [] |}).
    exact (proj1 (proj2 (fallback_handle_reuse Expert a o true st Hc))).
Defined.

End RunClaims.

(* ================================================================== *)
(** * The claim about the splitting of parameter groups *)
(* ================================================================== *)

Module SplitClaims.

Import TrainUtils SplitVocabulary SplitFacts SplitClosedFacts.

Section Facts.

Context {param A : Type} (env : Imports param).








End Facts.




End SplitClaims.
